(** * marve: measurement relation extraction

    A shallow embedding of the Python sources of marve
    ([classes.py], [grobid.py], [Measurements.py]) and properties of the
    relation-pattern engine proved on it.

    Conventions of the embedding.
    - JSON documents handled generically by the code (the Grobid payload,
      the dependency-pattern file) are values of [pyval]; a Python [dict]
      is an association list in the order its keys are enumerated.
    - Dictionaries that are only read by key ([lookup], [tok_start],
      [tok_end], [index_lookup], [visited_nodes], [G.node]) are [gmap]s.
    - A Python exception is a [Raise]; unbounded recursion or iteration
      is cut by a fuel argument and reported as [OutOfFuel].
    - The module globals of [Measurements.py] ([A], [G], [Num]) are
      variables of a section; the dictionary bound once to the default
      argument [visited_nodes={}] of [_get_cousin] is state threaded
      through every call.
    - A dictionary that is enumerated is the list of its items in the
      order in which its keys were inserted; this holds for the
      adjacency dictionaries of networkx, from which [G.edges()] lists
      the edges.  A [set] is a duplicate-free list. *)

From Stdlib Require Import ZArith Ascii String List Bool Lia.
From Stdlib Require Import DecimalString DecimalZ DecimalPos.
From Stdlib Require Import Sorting.Sorted.
From stdpp Require Import base option gmap strings list.

Set Warnings "-register-all".
Open Scope string_scope.
Open Scope Z_scope.

(* ===================================================================== *)
(** * Python values and exceptions *)
(* ===================================================================== *)

Module Py.

Inductive exn : Type :=
| KeyError | ValueError | TypeError | IndexError | AttributeError.

Inductive result (A : Type) : Type :=
| Ok (a : A)
| Raise (e : exn)
| OutOfFuel.
Arguments Ok {A} a.
Arguments Raise {A} e.
Arguments OutOfFuel {A}.

Definition rbind {A B} (m : result A) (k : A -> result B) : result B :=
  match m with
  | Ok a => k a
  | Raise e => Raise e
  | OutOfFuel => OutOfFuel
  end.

Definition of_option {A} (e : exn) (o : option A) : result A :=
  match o with Some a => Ok a | None => Raise e end.

(** JSON-like values.  A float is carried by its printed form, [repr]:
    the code compares and prints floats, and makes one from a text at
    one place (line 85 of [grobid.py]). *)
Inductive pyval : Type :=
| PNone
| PBool (b : bool)
| PInt (z : Z)
| PFloat (repr : string)
| PStr (s : string)
| PList (l : list pyval)
| PDict (d : list (string * pyval)).

(** ** Dictionaries as association lists *)

Fixpoint dget {V} (k : string) (d : list (string * V)) : option V :=
  match d with
  | [] => None
  | (k', v) :: d' => if String.eqb k k' then Some v else dget k d'
  end.

Definition dhas {V} (k : string) (d : list (string * V)) : bool :=
  match dget k d with Some _ => true | None => false end.

(** [d[k] = v]: an existing key keeps its place. *)
Fixpoint dset {V} (k : string) (v : V) (d : list (string * V)) : list (string * V) :=
  match d with
  | [] => [(k, v)]
  | (k', v') :: d' => if String.eqb k k' then (k, v) :: d' else (k', v') :: dset k v d'
  end.

Definition dkeys {V} (d : list (string * V)) : list string := map fst d.

(** ** Equality [==]

    Values of different types are unequal, except that [bool] is a
    subtype of [int]; dictionaries are equal when they hold the same keys
    with equal values, in any order. *)
Fixpoint py_eqb (a b : pyval) {struct a} : bool :=
  match a, b with
  | PNone, PNone => true
  | PBool x, PBool y => Bool.eqb x y
  | PBool x, PInt y => Z.eqb (if x then 1 else 0) y
  | PInt x, PBool y => Z.eqb x (if y then 1 else 0)
  | PInt x, PInt y => Z.eqb x y
  | PFloat x, PFloat y => String.eqb x y
  | PStr x, PStr y => String.eqb x y
  | PList l1, PList l2 =>
      (fix go (l1 l2 : list pyval) {struct l1} : bool :=
         match l1, l2 with
         | [], [] => true
         | x :: l1', y :: l2' => py_eqb x y && go l1' l2'
         | _, _ => false
         end) l1 l2
  | PDict d1, PDict d2 =>
      Nat.eqb (length d1) (length d2) &&
      (fix go (d : list (string * pyval)) {struct d} : bool :=
         match d with
         | [] => true
         | (k, v) :: d' =>
             match dget k d2 with
             | Some v' => py_eqb v v'
             | None => false
             end && go d'
         end) d1
  | _, _ => false
  end.

(** ** Truth value *)
Definition py_truthy (v : pyval) : bool :=
  match v with
  | PNone => false
  | PBool b => b
  | PInt z => negb (Z.eqb z 0)
  | PFloat _ => true
  | PStr s => negb (String.eqb s "")
  | PList l => match l with [] => false | _ => true end
  | PDict d => match d with [] => false | _ => true end
  end.

(** ** Strings *)

(** [sub in s] on strings. *)
Fixpoint str_in (sub s : string) : bool :=
  String.prefix sub s ||
  match s with
  | EmptyString => false
  | String _ s' => str_in sub s'
  end.

(** [str(i)] for an [int] and [int(s)] for the strings [str] prints. *)
Definition str_of_int (z : Z) : string := NilZero.string_of_int (Z.to_int z).

Definition int_of_str (s : string) : result Z :=
  match NilZero.int_of_string s with
  | Some d => Ok (Z.of_int d)
  | None => Raise ValueError
  end.

(** [str(v)]; the printed form of a list or a dictionary is not
    modelled (the code applies [str] to token indices only). *)
Definition py_str (v : pyval) : result string :=
  match v with
  | PNone => Ok "None"
  | PBool b => Ok (if b then "True" else "False")
  | PInt z => Ok (str_of_int z)
  | PFloat r => Ok r
  | PStr s => Ok s
  | PList _ | PDict _ => Raise TypeError
  end.

(** [int(v)] *)
Definition py_int (v : pyval) : result Z :=
  match v with
  | PInt z => Ok z
  | PBool b => Ok (if b then 1 else 0)
  | PStr s => int_of_str s
  | _ => Raise TypeError
  end.

(** ** [float]

    [float(s)] on a text and the printed form of the result.  The float
    read is the double nearest to the decimal number written (IEEE 754
    binary64, ties to even); it is carried by its printed form [repr],
    the shortest decimal that reads back as the same double. *)

(** A positive double is [mant * 2^q] with [0 < mant < 2^53] and
    [-1074 <= q <= 971]. *)
Inductive double : Type :=
| DZero
| DFinite (mant q : Z)
| DInf.

(** The double nearest to [n * 10^e10], for [0 <= n]. *)
Definition nearest_double (n e10 : Z) : double :=
  if n <=? 0 then DZero
  else if 310 <? e10 + (Z.log2 n * 3) / 10 then DInf
  else if e10 + ((Z.log2 n + 1) * 4) / 10 + 1 <? -330 then DZero
  else
    let N := if 0 <=? e10 then n * 10 ^ e10 else n in
    let M := if 0 <=? e10 then 1 else 10 ^ (- e10) in
    let e := Z.log2 N - Z.log2 M in
    let fl := if M * 2 ^ (Z.max 0 e) <=? N * 2 ^ (Z.max 0 (- e)) then e else e - 1 in
    let q := Z.max (fl - 52) (-1074) in
    let num := N * 2 ^ (Z.max 0 (- q)) in
    let den := M * 2 ^ (Z.max 0 q) in
    let m0 := num / den in
    let r := num mod den in
    let m := if (den <? 2 * r) || ((den =? 2 * r) && Z.odd m0) then m0 + 1 else m0 in
    if m =? 0 then DZero
    else if m =? 2 ^ 53 then (if 971 <? q + 1 then DInf else DFinite (2 ^ 52) (q + 1))
    else if 971 <? q then DInf else DFinite m q.

(** The least [p], from [p] on, with [vn / vd < 10^p]. *)
Fixpoint find_decpt (fuel : nat) (vn vd p : Z) : Z :=
  match fuel with
  | O => p
  | S fuel' =>
      if (if 0 <=? p then vn <? vd * 10 ^ p else vn * 10 ^ (- p) <? vd) then p
      else find_decpt fuel' vn vd (p + 1)
  end.

(** The decimal of [k] digits nearest to [vn / vd] among those that read
    back as [DFinite m q], as an integer [c] to be multiplied by
    [10^(decpt - k)]. *)
Definition digits_at (m q vn vd decpt k : Z) : option Z :=
  let j := decpt - k in
  let sn := if j <=? 0 then vn * 10 ^ (- j) else vn in
  let sd := if j <=? 0 then vd else vd * 10 ^ j in
  let lo := sn / sd in
  let r := sn mod sd in
  let ok c := match nearest_double c j with
              | DFinite m' q' => (m' =? m) && (q' =? q)
              | _ => false
              end in
  if r =? 0 then Some lo
  else match ok lo, ok (lo + 1) with
       | true, true =>
           Some (if sd <? 2 * r then lo + 1
                 else if 2 * r <? sd then lo
                 else if Z.even lo then lo else lo + 1)
       | true, false => Some lo
       | false, true => Some (lo + 1)
       | false, false => None
       end.

Fixpoint shortest_from (fuel : nat) (m q vn vd decpt k : Z) : Z * Z :=
  match fuel with
  | O => (0, 0)
  | S fuel' =>
      match digits_at m q vn vd decpt k with
      | Some c => (c, decpt - k)
      | None => shortest_from fuel' m q vn vd decpt (k + 1)
      end
  end.

Fixpoint drop_zeros (fuel : nat) (c j : Z) : Z * Z :=
  match fuel with
  | O => (c, j)
  | S fuel' => if (c mod 10 =? 0) && (0 <? c) then drop_zeros fuel' (c / 10) (j + 1)
               else (c, j)
  end.

Definition zero_digits (n : Z) : string := String.concat "" (repeat "0" (Z.to_nat n)).

(** [repr(x)] for the positive double [m * 2^q]. *)
Definition repr_finite (m q : Z) : string :=
  let vn := m * 2 ^ (Z.max 0 q) in
  let vd := 2 ^ (Z.max 0 (- q)) in
  let est := ((Z.log2 m + q) * 30103) / 100000 in
  let decpt := find_decpt 4 vn vd (est - 1) in
  let '(c0, j0) := shortest_from 17 m q vn vd decpt 1 in
  let '(c, j) := drop_zeros 20 c0 j0 in
  let ds := str_of_int c in
  let n := Z.of_nat (String.length ds) in
  let dp := j + n in
  let frac := substring 1 (String.length ds - 1) ds in
  let e := dp - 1 in
  let mantissa := if 1 <? n then substring 0 1 ds ++ "." ++ frac else ds in
  let exponent := (if e <? 0 then "-" else "+")
                  ++ (if Z.abs e <? 10 then "0" else "") ++ str_of_int (Z.abs e) in
  let whole := substring 0 (Z.to_nat dp) ds in
  let part := substring (Z.to_nat dp) (String.length ds - Z.to_nat dp) ds in
  if (dp <=? -4) || (16 <? dp) then mantissa ++ "e" ++ exponent
  else if dp <=? 0 then "0." ++ zero_digits (- dp) ++ ds
  else if n <=? dp then ds ++ zero_digits (dp - n) ++ ".0"
  else whole ++ "." ++ part.

Definition repr_double (neg : bool) (d : double) : string :=
  (if neg then "-" else "")
  ++ match d with
     | DZero => "0.0"
     | DFinite m q => repr_finite m q
     | DInf => "inf"
     end.

Definition py_isspace (c : ascii) : bool :=
  let n := nat_of_ascii c in ((9 <=? n) && (n <=? 13) || (n =? 32))%nat.

Definition py_isdigit (c : ascii) : bool :=
  let n := nat_of_ascii c in ((48 <=? n) && (n <=? 57))%nat.

Definition ascii_lower (c : ascii) : ascii :=
  let n := nat_of_ascii c in
  if ((65 <=? n) && (n <=? 90))%nat then ascii_of_nat (n + 32) else c.

Fixpoint py_lstrip (s : string) : string :=
  match s with
  | String c s' => if py_isspace c then py_lstrip s' else s
  | EmptyString => EmptyString
  end.

Fixpoint rev_string (s acc : string) : string :=
  match s with
  | EmptyString => acc
  | String c s' => rev_string s' (String c acc)
  end.

Definition py_strip (s : string) : string :=
  rev_string (py_lstrip (rev_string (py_lstrip s) "")) "".

Fixpoint lower_string (s : string) : string :=
  match s with
  | EmptyString => EmptyString
  | String c s' => String (ascii_lower c) (lower_string s')
  end.

(** The digits at the head of [s] and what follows them. *)
Fixpoint take_digits (s : string) : string * string :=
  match s with
  | String c s' =>
      if py_isdigit c then let '(d, r) := take_digits s' in (String c d, r)
      else (EmptyString, s)
  | EmptyString => (EmptyString, EmptyString)
  end.

Fixpoint digits_value (s : string) (acc : Z) : Z :=
  match s with
  | EmptyString => acc
  | String c s' => digits_value s' (10 * acc + (Z.of_nat (nat_of_ascii c) - 48))
  end.

Definition take_sign (s : string) : bool * string :=
  match s with
  | String "-" s' => (true, s')
  | String "+" s' => (false, s')
  | _ => (false, s)
  end.

(** [repr(float(s))]: the text is stripped of white space; it is a sign,
    then [inf], [infinity] or [nan] in any case, or digits with at most
    one point and an exponent; any other text is a [ValueError]. *)
Definition float_repr (s : string) : result string :=
  let '(neg, body) := take_sign (py_strip s) in
  let low := lower_string body in
  if String.eqb low "inf" || String.eqb low "infinity" then Ok (repr_double neg DInf)
  else if String.eqb low "nan" then Ok "nan"
  else
    let '(ip, r1) := take_digits body in
    let '(fp, r2) := match r1 with
                     | String "." r => take_digits r
                     | _ => (EmptyString, r1)
                     end in
    if String.eqb ip "" && String.eqb fp "" then Raise ValueError
    else
      let mantissa := digits_value (ip ++ fp) 0 in
      let shift := - Z.of_nat (String.length fp) in
      match r2 with
      | EmptyString => Ok (repr_double neg (nearest_double mantissa shift))
      | String c r3 =>
          if Ascii.eqb (ascii_lower c) "e" then
            let '(eneg, r4) := take_sign r3 in
            let '(ed, r5) := take_digits r4 in
            if String.eqb ed "" || negb (String.eqb r5 "") then Raise ValueError
            else
              let e := digits_value ed 0 in
              Ok (repr_double neg
                    (nearest_double mantissa (shift + (if eneg then - e else e))))
          else Raise ValueError
      end.

(** [float(s)] for a text [s] *)
Definition py_float (s : string) : result pyval :=
  match float_repr s with
  | Ok r => Ok (PFloat r)
  | Raise e => Raise e
  | OutOfFuel => OutOfFuel
  end.

Fixpoint chars (s : string) : list string :=
  match s with
  | EmptyString => []
  | String c s' => String c EmptyString :: chars s'
  end.

(** ** Containers *)

(** [x in c] *)
Definition py_in (x c : pyval) : result bool :=
  match c with
  | PList l => Ok (existsb (py_eqb x) l)
  | PDict d => Ok (match x with PStr k => dhas k d | _ => false end)
  | PStr s => match x with PStr sub => Ok (str_in sub s) | _ => Raise TypeError end
  | _ => Raise TypeError
  end.

(** [c[k]] for a string key. *)
Definition py_getitem (c : pyval) (k : string) : result pyval :=
  match c with
  | PDict d => of_option KeyError (dget k d)
  | _ => Raise TypeError
  end.

(** [c[k] = v] *)
Definition py_setitem (c : pyval) (k : string) (v : pyval) : result pyval :=
  match c with
  | PDict d => Ok (PDict (dset k v d))
  | _ => Raise TypeError
  end.

(** [for x in c] *)
Definition py_iter (c : pyval) : result (list pyval) :=
  match c with
  | PList l => Ok l
  | PStr s => Ok (map PStr (chars s))
  | PDict d => Ok (map PStr (dkeys d))
  | _ => Raise TypeError
  end.

(** [c.keys()] *)
Definition py_keys (c : pyval) : result (list string) :=
  match c with
  | PDict d => Ok (dkeys d)
  | _ => Raise AttributeError
  end.

(** [a + b] *)
Definition py_add (a b : pyval) : result pyval :=
  match a, b with
  | PStr x, PStr y => Ok (PStr (x ++ y))
  | PInt x, PInt y => Ok (PInt (x + y))
  | PList x, PList y => Ok (PList (x ++ y))
  | _, _ => Raise TypeError
  end.

Definition is_dict (v : pyval) : bool :=
  match v with PDict _ => true | _ => false end.

(** [v[k1]...[kn]] and [v[k1]...[kn][k] = x] on nested dictionaries. *)
Fixpoint py_get_path (v : pyval) (p : list string) : result pyval :=
  match p with
  | [] => Ok v
  | k :: p' => rbind (py_getitem v k) (fun x => py_get_path x p')
  end.

Fixpoint py_set_path (v : pyval) (p : list string) (k : string) (x : pyval)
  : result pyval :=
  match p with
  | [] => py_setitem v k x
  | k' :: p' =>
      rbind (py_getitem v k') (fun sub =>
      rbind (py_set_path sub p' k x) (fun sub' =>
      py_setitem v k' sub'))
  end.

(** [list(set(l))]: duplicates collapsed.  Python leaves the order of a
    set unspecified; the embedding keeps first occurrences in order. *)
Fixpoint py_dedup (l : list pyval) : list pyval :=
  match l with
  | [] => []
  | x :: l' => x :: filter (fun y => negb (py_eqb x y)) (py_dedup l')
  end.

End Py.

Import Py.

Notation "'let*' x := c1 'in' c2" := (rbind c1 (fun x => c2))
  (at level 10, x name, c1 at level 100, c2 at level 200).
Notation "'let*' ' pat := c1 'in' c2" :=
  (rbind c1 (fun x => match x with pat => c2 end))
  (at level 10, pat pattern, c1 at level 100, c2 at level 200).

(* ===================================================================== *)
(** * classes.py *)
(* ===================================================================== *)

Module Classes.

(** A CoreNLP token object; the fields are the JSON keys
    [Annotations.__init__] reads. *)
Record token : Type := {
  tk_index : Z;
  tk_word : string;
  tk_originalText : string;
  tk_lemma : string;
  tk_pos : string;
  tk_characterOffsetBegin : Z;
  tk_characterOffsetEnd : Z;
  tk_ner : string;
  tk_after : string }.

(** A CoreNLP dependency object.  The gloss keys may be missing when the
    parse failed ([check_output]). *)
Record dependency : Type := {
  dp_dep : string;
  dp_governor : Z;
  dp_governorGloss : option string;
  dp_dependent : Z;
  dp_dependentGloss : option string }.

(** A value of [self.lookup]: the entry of index 0 holds only ["pos"] and
    ["word"]. *)
Record tokinfo : Type := {
  li_word : string;
  li_lemma : option string;
  li_pos : string;
  li_start : option Z;
  li_end : option Z;
  li_ner : option string;
  li_after : option string }.

(** An entry of [self.matches]; ["sentence"] is added by [extract]. *)
Record Match : Type := {
  m_measurement_format : pyval;
  m_unit_idx : pyval;
  m_unit : pyval;
  m_num_idx : pyval;
  m_num : pyval;
  m_grobid : pyval;
  m_sentence : option Z }.

Record Annotations : Type := {
  tokens : list token;
  deps : list dependency;
  matches : list Match;
  lookup : gmap Z tokinfo;
  tok_start : gmap Z Z;
  tok_end : gmap Z Z;
  index_lookup : gmap string Z }.

Definition root_info : tokinfo :=
  {| li_word := ""; li_lemma := None; li_pos := ""; li_start := None;
     li_end := None; li_ner := None; li_after := None |}.

Definition info_of (f : token) : tokinfo :=
  {| li_word := tk_originalText f;
     li_lemma := Some (tk_lemma f);
     li_pos := tk_pos f;
     li_start := Some (tk_characterOffsetBegin f);
     li_end := Some (tk_characterOffsetEnd f);
     li_ner := Some (tk_ner f);
     li_after := Some (tk_after f) |}.

(** One iteration of the loop [for f in self.tokens] (lines 65-79);
    [first] is [self.tokens[0]]. *)
Definition add_token (first : token) (a : Annotations) (f : token) : Annotations :=
  {| tokens := tokens a;
     deps := deps a;
     matches := matches a;
     lookup := <[tk_index f := info_of f]> (lookup a);
     tok_start :=
       <[tk_characterOffsetBegin f - tk_characterOffsetBegin first := tk_index f]>
         (tok_start a);
     tok_end :=
       <[tk_characterOffsetEnd f - tk_characterOffsetBegin first := tk_index f]>
         (tok_end a);
     index_lookup := <[tk_word f := tk_index f]> (index_lookup a) |}.

(** [Annotations.__init__] *)
Definition init (toks : list token) (dependencies : list dependency) : Annotations :=
  let a0 :=
    {| tokens := toks; deps := dependencies; matches := [];
       lookup := {[ 0 := root_info ]};
       tok_start := ∅; tok_end := ∅; index_lookup := ∅ |} in
  match toks with
  | [] => a0
  | first :: _ => fold_left (add_token first) toks a0
  end.

Definition with_matches (a : Annotations) (ms : list Match) : Annotations :=
  {| tokens := tokens a; deps := deps a; matches := ms; lookup := lookup a;
     tok_start := tok_start a; tok_end := tok_end a;
     index_lookup := index_lookup a |}.

(** Lines 87-95 of [augment_match]: the sub-record the match keys off. *)
Definition select_key (grobid : pyval) : result string :=
  let* ty := py_getitem grobid "type" in
  if py_eqb ty (PStr "value") then Ok "quantity"
  else
    let* has_least := (if py_eqb ty (PStr "interval")
                  then py_in (PStr "quantityLeast") grobid else Ok false) in
    if py_eqb ty (PStr "interval") && has_least then Ok "quantityLeast"
    else if py_eqb ty (PStr "interval") && negb has_least then Ok "quantityMost"
    else Raise ValueError.

(** Lines 99-109: format, unit and unit indices of a quantity that has a
    ["rawUnit"]. *)
Definition classify_unit (q : pyval) : result (pyval * pyval * pyval) :=
  let* ti := py_getitem q "tokenIndex" in
  let* ru := py_getitem q "rawUnit" in
  let* tis := py_getitem ru "tokenIndices" in
  let* attached := py_in ti tis in
  let* fmt := (if attached then Ok "attached"
          else
            let* aft := py_getitem ru "after" in
            if py_eqb aft (PStr "-") then Ok "hyphenated" else Ok "space_between") in
  let* u := py_getitem ru "name" in
  let* uidx := py_getitem ru "tokenIndices" in
  Ok (PStr fmt, u, uidx).

(** Lines 122-123: the number text. *)
Definition number_text (key : string) (grobid : pyval) : result pyval :=
  let* n1 := (if String.eqb key "quantity"
         then let* q := py_getitem grobid key in py_getitem q "rawValue"
         else Ok (PStr "")) in
  let* has_least := (if String.eqb key "quantityMost"
                then py_in (PStr "quantityLeast") grobid else Ok false) in
  if String.eqb key "quantityMost" && has_least then
    let* least := py_getitem grobid "quantityLeast" in
    let* lv := py_getitem least "rawValue" in
    let* l_to := py_add lv (PStr " to ") in
    let* most := py_getitem grobid key in
    let* mv := py_getitem most "rawValue" in
    py_add l_to mv
  else Ok n1.

(** [Annotations.augment_match]: the matches of [self] after the call. *)
Definition augment_match (self : Annotations) (grobid : pyval) : result Annotations :=
  let* key := select_key grobid in
  let* q := py_getitem grobid key in
  let* has_unit := py_in (PStr "rawUnit") q in
  let* has_quantified := (if has_unit then Ok false else py_in (PStr "quantified") grobid) in
  let* fields :=
    (if has_unit then
       let* '(fmt, u, uidx) := classify_unit q in Ok (Some (fmt, u, uidx))
     else if has_quantified then
       let* qd := py_getitem grobid "quantified" in
       let* u := py_getitem qd "normalizedName" in
       let* has_ti := py_in (PStr "tokenIndex") qd in
       if has_ti then
         let* ti := py_getitem qd "tokenIndex" in
         Ok (Some (PStr "space_between", u, PList [ti]))
       else Ok None
     else Ok (Some (PStr "", PStr "", PStr ""))) in
  match fields with
  | None => Ok self
  | Some (fmt, u, uidx) =>
      let* n := number_text key grobid in
      let* q' := py_getitem grobid key in
      let* ti := py_getitem q' "tokenIndex" in
      let* nidx := py_str ti in
      Ok (with_matches self
            (matches self ++
               [ {| m_measurement_format := fmt; m_unit_idx := uidx; m_unit := u;
                    m_num_idx := PStr nidx; m_num := n; m_grobid := grobid;
                    m_sentence := None |} ]))
  end.

(** [Annotations.check_output]: [Stats] defines no [parse_error], so the
    call on a dependency without gloss raises. *)
Fixpoint check_output_deps (ds : list dependency) : result bool :=
  match ds with
  | [] => Ok true
  | d :: ds' =>
      match dp_dependentGloss d, dp_governorGloss d with
      | Some _, Some _ => check_output_deps ds'
      | _, _ => Raise AttributeError
      end
  end.

Definition check_output (self : Annotations) : result bool :=
  check_output_deps (deps self).

End Classes.

(* ===================================================================== *)
(** * grobid.py *)
(* ===================================================================== *)

Module Grobid.
Import Classes.

(** ** String operations used by [grobid_quantities] *)

(** [re.sub] of one literal character by a string. *)
Fixpoint replace_char (c : ascii) (by_ : string) (s : string) : string :=
  match s with
  | EmptyString => EmptyString
  | String a s' =>
      if Ascii.eqb a c then by_ ++ replace_char c by_ s'
      else String a (replace_char c by_ s')
  end.

Definition backslash : string := String (Ascii.ascii_of_nat 92) EmptyString.
Definition dquote : ascii := Ascii.ascii_of_nat 34.

(** Lines 38-42: the sentence as it is sent, and as it is searched for the
    raw value afterwards. *)
Definition escape (sentence : string) : string :=
  let s1 := replace_char "$"%char (backslash ++ "$") sentence in
  let s2 := replace_char dquote (backslash ++ String dquote EmptyString) s1 in
  let s3 := replace_char "%"%char "%25" s2 in
  let s4 := replace_char "`"%char "'" s3 in
  replace_char "'"%char (backslash ++ String dquote EmptyString) s4.

(** Lines 44-45 *)
Fixpoint strip_slash (endpoint : string) : string :=
  match endpoint with
  | EmptyString => EmptyString
  | String a EmptyString => if Ascii.eqb a "/"%char then EmptyString else endpoint
  | String a s' => String a (strip_slash s')
  end.

(** [s.find(sub)], counted from [i]. *)
Fixpoint find_from (sub s : string) (i : Z) : Z :=
  if String.prefix sub s then i
  else match s with
       | EmptyString => -1
       | String _ s' => find_from sub s' (i + 1)
       end.

Definition find (s sub : string) : Z := find_from sub s 0.

(** [s[i]], a negative [i] counting from the end. *)
Definition str_index (s : string) (i : Z) : result string :=
  let n := Z.of_nat (String.length s) in
  let j := if i <? 0 then i + n else i in
  if (j <? 0) || (n <=? j) then Raise IndexError
  else match String.get (Z.to_nat j) s with
       | Some c => Ok (String c EmptyString)
       | None => Raise IndexError
       end.

(** [s.split(c)] *)
Fixpoint split_on (c : ascii) (s : string) : list string :=
  match s with
  | EmptyString => [EmptyString]
  | String a s' =>
      if Ascii.eqb a c then EmptyString :: split_on c s'
      else match split_on c s' with
           | [] => [String a EmptyString]
           | w :: ws => String a w :: ws
           end
  end.

Definition as_str (v : pyval) : result string :=
  match v with PStr s => Ok s | _ => Raise TypeError end.

(** The key a value is in a dictionary keyed by [int]s: a list or a
    dictionary is unhashable, a string is never equal to an [int] key. *)
Definition int_key (v : pyval) : result (option Z) :=
  match v with
  | PInt z => Ok (Some z)
  | PBool b => Ok (Some (if b then 1 else 0))
  | PList _ | PDict _ => Raise TypeError
  | _ => Ok None
  end.

Definition lookup_int (m : gmap Z Z) (v : pyval) : result (option Z) :=
  let* k := int_key v in
  Ok (match k with Some z => m !! z | None => None end).

(** Lines 83-87: Grobid does not pick up negatives. *)
Definition fix_negative (sentence : string) (qk : pyval) : result pyval :=
  let* rv := py_getitem qk "rawValue" in
  let* rvs := as_str rv in
  let* c := str_index sentence (find sentence rvs - 1) in
  if String.eqb c "-" then
    let* pv := py_getitem qk "parsedValue" in
    let* pvs := py_str pv in
    let* negated := py_float ("-" ++ pvs) in
    let* qk1 := py_setitem qk "parsedValue" negated in
    let* qk2 := py_setitem qk1 "rawValue" (PStr ("-" ++ rvs)) in
    let* os := py_getitem qk2 "offsetStart" in
    let* os' := py_add os (PInt (-1)) in
    py_setitem qk2 "offsetStart" os'
  else Ok qk.

(** Lines 96-107: the unit's ["after"] and ["tokenIndices"].  Every
    element of ["tokenIndices"] is the [str] of a token index. *)
Definition align_unit (a : Annotations) (qk : pyval) : result pyval :=
  let* ti := py_getitem qk "tokenIndex" in
  let* k := int_key ti in
  let* info := of_option KeyError (k ≫= fun z => lookup a !! z) in
  let* aft := of_option KeyError (li_after info) in
  let* qk1 := py_set_path qk ["rawUnit"] "after" (PStr aft) in
  let* ru := py_getitem qk1 "rawUnit" in
  let* us := py_getitem ru "offsetStart" in
  let* s_idx := lookup_int (tok_start a) us in
  let l1 := match s_idx with Some i => [PStr (str_of_int i)] | None => [] end in
  let* ue := py_getitem ru "offsetEnd" in
  let* e_idx := lookup_int (tok_end a) ue in
  let l2 := match e_idx with Some i => (l1 ++ [PStr (str_of_int i)])%list | None => l1 end in
  let* us' := py_getitem ru "offsetStart" in
  let* qe := py_getitem qk1 "offsetEnd" in
  let* l3 := (if py_eqb us' qe
              then let* ti' := py_getitem qk1 "tokenIndex" in
                   let* s := py_str ti' in Ok (l2 ++ [PStr s])%list
              else Ok l2) in
  py_set_path qk1 ["rawUnit"] "tokenIndices" (PList (py_dedup l3)).

(** Lines 112-120: how far the normalized name lies inside the raw name. *)
Fixpoint add_to_offset (normalizedName : string) (words : list string) : Z :=
  match words with
  | [] => 0
  | w :: ws =>
      if str_in normalizedName w then 0
      else Z.of_nat (String.length w) + 1 + add_to_offset normalizedName ws
  end.

(** Lines 109-127 *)
Definition align_quantified (a : Annotations) (qd : pyval) : result pyval :=
  let* rn := py_getitem qd "rawName" in
  let* has_space := py_in (PStr " ") rn in
  let* off :=
    (if has_space then
       let* rns := as_str rn in
       match split_on " "%char rns with
       | [] => Ok 0
       | words =>
           let* nn := py_getitem qd "normalizedName" in
           let* nns := as_str nn in
           Ok (add_to_offset nns words)
       end
     else Ok 0) in
  let* os := py_getitem qd "offsetStart" in
  let* os' := py_add os (PInt off) in
  let* qd1 := py_setitem qd "offsetStart" os' in
  let* idx := lookup_int (tok_start a) os' in
  match idx with
  | Some i => py_setitem qd1 "tokenIndex" (PInt i)
  | None => Ok qd1
  end.

(** The body of the loop [for q in quantities["measurements"]] (lines
    62-127); [None] is the early [return {}]. *)
Definition align_measurement (sentence : string) (a : Annotations) (q : pyval)
  : result (option pyval) :=
  let* ty := py_getitem q "type" in
  let is_interval := py_eqb ty (PStr "interval") in
  let* has_least := py_in (PStr "quantityLeast") q in
  let* has_most := py_in (PStr "QuantityMost") q in
  if is_interval && negb has_least && negb has_most then Ok None
  else if py_eqb ty (PStr "listc") then Ok None
  else
    let key :=
      if is_interval then (if has_least then "quantityLeast" else "quantityMost")
      else if py_eqb ty (PStr "value") then "quantity" else "" in
    let* qk := py_getitem q key in
    let* qk1 := fix_negative sentence qk in
    let* os := py_getitem qk1 "offsetStart" in
    let* idx := lookup_int (tok_start a) os in
    match idx with
    | None => Ok None
    | Some i =>
        let* qk2 := py_setitem qk1 "tokenIndex" (PInt i) in
        let* has_unit := py_in (PStr "rawUnit") qk2 in
        let* qk3 := (if has_unit then align_unit a qk2 else Ok qk2) in
        let* q1 := py_setitem q key qk3 in
        let* has_quantified := py_in (PStr "quantified") q1 in
        if has_quantified then
          let* qd := py_getitem q1 "quantified" in
          let* qd' := align_quantified a qd in
          let* q2 := py_setitem q1 "quantified" qd' in
          Ok (Some q2)
        else Ok (Some q1)
    end.

Fixpoint align_all (sentence : string) (a : Annotations) (qs : list pyval)
  : result (option (list pyval)) :=
  match qs with
  | [] => Ok (Some [])
  | q :: qs' =>
      let* r := align_measurement sentence a q in
      match r with
      | None => Ok None
      | Some q' =>
          let* rs := align_all sentence a qs' in
          Ok (option_map (cons q') rs)
      end
  end.

(** What the measurement service answered to the [curl] call. *)
Inductive reply : Type :=
| CallFailed              (* [subprocess.check_output] raised: [response] stays [None] *)
| NotJson                 (* [json.loads] raised [ValueError] *)
| Json (quantities : pyval).

Section Service.

(** The measurement service: escaped sentence and endpoint to reply. *)
Variable service : string -> string -> reply.

(** [grobid_quantities(sentence, a, endpoint)] *)
Definition grobid_quantities (sentence : string) (a : Annotations) (endpoint : string)
  : result pyval :=
  let sentence := escape sentence in
  let endpoint := strip_slash endpoint in
  match service sentence endpoint with
  | CallFailed => Raise TypeError
  | NotJson => Ok (PStr "")
  | Json quantities =>
      if is_dict quantities then
        let* ms := py_getitem quantities "measurements" in
        match ms with
        | PList qs =>
            let* r := align_all sentence a qs in
            match r with
            | None => Ok (PDict [])
            | Some qs' => py_setitem quantities "measurements" (PList qs')
            end
        | _ =>
            let* elts := py_iter ms in
            match elts with
            | [] => Ok quantities
            | _ :: _ => Raise TypeError
            end
        end
      else Ok quantities
  end.

End Service.

End Grobid.

(* ===================================================================== *)
(** * Measurements.py *)
(* ===================================================================== *)

Module Measurements.
Import Classes.

(** ** The dependency graph [G]

    Node ids are the [str] of token indices.  networkx keeps an
    undirected graph as a dictionary of dictionaries, [G.adj]: under
    every node its neighbours, and under every neighbour the attributes
    of the edge, here [dep].  [G.edges(data=True)] walks these
    dictionaries, node by node and under a node neighbour by neighbour,
    and skips the neighbours it has walked as nodes already: every edge
    is enumerated once, from the end that comes first among the nodes.
    The embedding keeps a dictionary as the list of its items in the
    order in which the keys were inserted, and walks it in that
    order. *)
Record node_attr : Type := { n_word : string; n_pos : string }.

Record edge : Type := { e_u : string; e_v : string; e_dep : string }.

Definition adjacency : Type := list (string * list (string * string)).

Record graph : Type := {
  nodes : gmap string node_attr;   (* [G.node] *)
  adj : adjacency }.               (* [G.adj] *)

Definition same_pair (u v : string) (e : edge) : bool :=
  (String.eqb (e_u e) u && String.eqb (e_v e) v) ||
  (String.eqb (e_u e) v && String.eqb (e_v e) u).

(** [d[k] = f(d[k])], for a key that is there. *)
Definition dalter {V} (f : V -> V) (k : string) (d : list (string * V))
  : list (string * V) :=
  map (fun kv => if String.eqb (fst kv) k then (fst kv, f (snd kv)) else kv) d.

(** [G.add_node(n, ...)] on [G.adj]: a new node gets an empty dictionary
    of neighbours, a node that is there keeps its own. *)
Definition add_node (n : string) (a : adjacency) : adjacency :=
  if dhas n a then a else dset n [] a.

(** [G.add_edge(u, v, dep=label)]: both nodes are added when they are
    not there, and [adj[u][v]] and [adj[v][u]] are set to the one
    dictionary of attributes of the edge, in which [dep] becomes [label].
    A second edge between the same two nodes replaces the label of the
    first, and the neighbours keep their places. *)
Definition add_edge (u v label : string) (a : adjacency) : adjacency :=
  dalter (dset u label) v (dalter (dset v label) u (add_node v (add_node u a))).

(** The edges [G.edges(data=True)] yields while it walks the neighbours
    of the node [n]: [if nbr not in seen: yield (n, nbr, ddict)]. *)
Definition edges_at (seen : list string) (n : string) (nbrs : list (string * string))
  : list edge :=
  flat_map (fun kv => if existsb (String.eqb (fst kv)) seen then []
                      else [ {| e_u := n; e_v := fst kv; e_dep := snd kv |} ]) nbrs.

(** [for n, nbrs in self.adj.items(): ...; seen[n] = 1] *)
Fixpoint edges_iter (seen : list string) (a : adjacency) : list edge :=
  match a with
  | [] => []
  | (n, nbrs) :: rest => (edges_at seen n nbrs ++ edges_iter (n :: seen) rest)%list
  end.

(** [G.edges(data=True)] *)
Definition edges (g : graph) : list edge := edges_iter [] (adj g).

(** One iteration of the loop of [_build_graph] (lines 64-75): the two
    calls of [add_node] of line 70, for the dependent and then for the
    governor, and the call of [add_edge] of line 74. *)
Definition add_dep (A : Annotations) (g : graph) (d : dependency) : result graph :=
  let u := str_of_int (dp_dependent d) in
  let v := str_of_int (dp_governor d) in
  let* w1 := of_option KeyError (dp_dependentGloss d) in
  let* i1 := of_option KeyError (lookup A !! dp_dependent d) in
  let n1 := <[u := {| n_word := w1; n_pos := li_pos i1 |}]> (nodes g) in
  let a1 := add_node u (adj g) in
  let* w2 := of_option KeyError (dp_governorGloss d) in
  let* i2 := of_option KeyError (lookup A !! dp_governor d) in
  let n2 := <[v := {| n_word := w2; n_pos := li_pos i2 |}]> n1 in
  let a2 := add_node v a1 in
  Ok {| nodes := n2; adj := add_edge u v (dp_dep d) a2 |}.

Fixpoint build_from (A : Annotations) (g : graph) (ds : list dependency) : result graph :=
  match ds with
  | [] => Ok g
  | d :: ds' => let* g' := add_dep A g d in build_from A g' ds'
  end.

(** [_build_graph()]: the value the global [G] is set to. *)
Definition _build_graph (A : Annotations) : result graph :=
  build_from A {| nodes := ∅; adj := [] |} (deps A).

(** ** Related words *)

Record descriptor : Type := { d_tokenIndex : string; d_rawName : string }.

(** A related-word dictionary.  [descriptors] is [None] until
    [_add_descriptors] sets the key; [connector] is [None] once the key
    was popped (adverbs). *)
Record related : Type := {
  relationForm : string;
  rawName : string;
  tokenIndex : Z;
  offsetStart : Z;
  offsetEnd : Z;
  connector : option string;
  descriptors : option (list descriptor) }.

Global Instance descriptor_eq_dec : EqDecision descriptor.
Proof. solve_decision. Defined.

Global Instance related_eq_dec : EqDecision related.
Proof. solve_decision. Defined.

Definition descriptor_to_py (d : descriptor) : pyval :=
  PDict [("tokenIndex", PStr (d_tokenIndex d)); ("rawName", PStr (d_rawName d))].

(** The items of a related-word dictionary, in the order [keys()] is
    taken to enumerate them. *)
Definition related_items (r : related) : list (string * pyval) :=
  ([("relationForm", PStr (relationForm r));
    ("rawName", PStr (rawName r));
    ("tokenIndex", PInt (tokenIndex r));
    ("offsetStart", PInt (offsetStart r));
    ("offsetEnd", PInt (offsetEnd r))]
   ++ match connector r with Some c => [("connector", PStr c)] | None => [] end
   ++ match descriptors r with
      | Some ds => [("descriptors", PList (map descriptor_to_py ds))]
      | None => []
      end)%list.

Definition related_to_py (r : related) : pyval := PDict (related_items r).

(** ** The state of the engine

    [visited_nodes] is the dictionary created once, when
    [def _get_cousin(..., visited_nodes={})] is executed; every call that
    does not pass the argument, and every recursive call, shares it. *)
Definition M (X : Type) : Type :=
  gmap string nat -> result (X * gmap string nat).

Definition sret {X} (x : X) : M X := fun v => Ok (x, v).

Definition sbind {X Y} (m : M X) (k : X -> M Y) : M Y :=
  fun v => match m v with
           | Ok (x, v') => k x v'
           | Raise e => Raise e
           | OutOfFuel => OutOfFuel
           end.

Definition slift {X} (r : result X) : M X :=
  fun v => match r with
           | Ok x => Ok (x, v)
           | Raise e => Raise e
           | OutOfFuel => OutOfFuel
           end.

Definition sget : M (gmap string nat) := fun v => Ok (v, v).

Definition sput (v' : gmap string nat) : M unit := fun _ => Ok (tt, v').

Notation "'let!' x := c1 'in' c2" := (sbind c1 (fun x => c2))
  (at level 10, x name, c1 at level 100, c2 at level 200).
Notation "'let!' ' pat := c1 'in' c2" :=
  (sbind c1 (fun x => match x with pat => c2 end))
  (at level 10, pat pattern, c1 at level 100, c2 at level 200).

(** [for x in l: acc = body(acc, x)] *)
Fixpoint sfold {X Y} (body : Y -> X -> M Y) (acc : Y) (l : list X) : M Y :=
  match l with
  | [] => sret acc
  | x :: l' => let! acc' := body acc x in sfold body acc' l'
  end.

Fixpoint rfold {X Y} (body : Y -> X -> result Y) (acc : Y) (l : list X) : result Y :=
  match l with
  | [] => Ok acc
  | x :: l' => let* acc' := body acc x in rfold body acc' l'
  end.

(** The truth value of what [_get_connected] returned. *)
Definition connected (o : option string) : option string :=
  match o with
  | Some s => if String.eqb s "" then None else Some s
  | None => None
  end.

Section Globals.

(** The module globals: annotations, graph, and the number text of the
    match being processed. *)
Variable A : Annotations.
Variable G : graph.
Variable Num : pyval.

Definition lookup_node (idx : string) : result tokinfo :=
  let* i := int_of_str idx in
  of_option KeyError (lookup A !! i).

Definition G_node (idx : string) : result node_attr :=
  of_option KeyError (nodes G !! idx).

(** [_get_connected(edge, idx)] (lines 89-102) *)
Definition _get_connected (e : edge) (idx : pyval) : result (option string) :=
  let* sidx := py_str idx in
  let* c1 := (if String.eqb (e_u e) sidx
              then let* info := lookup_node (e_v e) in
                   Ok (negb (py_eqb (PStr (li_word info)) Num))
              else Ok false) in
  if c1 then Ok (Some (e_v e))
  else
    let* c2 := (if String.eqb (e_v e) sidx
                then let* info := lookup_node (e_u e) in
                     Ok (negb (py_eqb (PStr (li_word info)) Num))
                else Ok false) in
    if c2 then Ok (Some (e_u e)) else Ok None.

(** [visited_nodes[cousin_idx] += 1], or [= 1] for a new key
    (lines 133-137). *)
Definition bump (cousin_idx : string) : M unit :=
  let! visited_nodes := sget in
  match visited_nodes !! cousin_idx with
  | Some k => sput (<[cousin_idx := S k]> visited_nodes)
  | None => sput (<[cousin_idx := 1%nat]> visited_nodes)
  end.

(** [not cousin_idx in visited_nodes or visited_nodes[cousin_idx] < 2] *)
Definition may_expand (visited_nodes : gmap string nat) (cousin_idx : string) : bool :=
  match visited_nodes !! cousin_idx with
  | None => true
  | Some k => (k <? 2)%nat
  end.

(** The body of [for edge in G.edges(data=True)] in [_get_cousin] (lines
    123-137); [recurse] is the recursive call of line 131. *)
Definition cousin_step (recurse : string -> list string -> M (list string))
  (sibling_idx dep_type : string) (words : list string) (e : edge) : M (list string) :=
  let! c := slift (_get_connected e (PStr sibling_idx)) in
  match connected c with
  | None => sret words
  | Some cousin_idx =>
      let! words' :=
        (if str_in dep_type (e_dep e) then
           let! info := slift (lookup_node cousin_idx) in
           if str_in "NN" (li_pos info) || str_in "PR" (li_pos info) then
             let! n := slift (G_node cousin_idx) in
             sret (words ++ [n_word n])%list
           else
             let! visited_nodes := sget in
             if str_in "VB" (li_pos info) && may_expand visited_nodes cousin_idx
             then
               let! more := recurse cousin_idx ["nsubj"; "nsubjpass"; "acl"] in
               sret (words ++ more)%list
             else sret words
         else sret words) in
      let! _ := bump cousin_idx in
      sret words'
  end.

(** Lines 117-138: both loops and [return set(words)], as the list of
    the words without duplicates (the last occurrence of each is kept). *)
Definition cousin_scan (recurse : string -> list string -> M (list string))
  (sibling_idx : string) (dep_type_list : list string) : M (list string) :=
  let! words :=
    sfold (fun words dep_type =>
             sfold (cousin_step recurse sibling_idx dep_type) words (edges G))
          [] dep_type_list in
  sret (remove_dups words).

(** [_get_cousin(sibling_idx, dep_type_list, visited_nodes)] (lines
    106-138).  [fuel] bounds the depth of the recursion: a call that
    needs more depth than [fuel] is [OutOfFuel]. *)
Fixpoint _get_cousin (fuel : nat) (sibling_idx : string) (dep_type_list : list string)
  {struct fuel} : M (list string) :=
  match fuel with
  | O => fun _ => OutOfFuel
  | S fuel' => cousin_scan (_get_cousin fuel') sibling_idx dep_type_list
  end.

(** [_add_related(related, dep, all_related, index, connector)] (lines
    142-164) *)
Definition _add_related (rel dep : string) (all_related : list related) (index : Z)
  (conn : option string) : result (list related) :=
  let* info := of_option KeyError (lookup A !! index) in
  let* st := of_option KeyError (li_start info) in
  let* en := of_option KeyError (li_end info) in
  let doc := {| relationForm := dep; rawName := rel; tokenIndex := index;
                offsetStart := st; offsetEnd := en;
                connector := Some (match conn with Some c => c | None => "" end);
                descriptors := None |} in
  if bool_decide (doc ∈ all_related) then Ok all_related
  else Ok (all_related ++ [doc])%list.

(** [A.index_lookup[word]] *)
Definition index_of (w : string) : result Z :=
  of_option KeyError (index_lookup A !! w).

Definition push_descriptor (d : descriptor) (r : related) : related :=
  {| relationForm := relationForm r; rawName := rawName r;
     tokenIndex := tokenIndex r; offsetStart := offsetStart r;
     offsetEnd := offsetEnd r; connector := connector r;
     descriptors := Some (match descriptors r with
                          | Some ds => ds ++ [d]
                          | None => [d]
                          end)%list |}.

Definition reset_descriptors (r : related) : related :=
  {| relationForm := relationForm r; rawName := rawName r;
     tokenIndex := tokenIndex r; offsetStart := offsetStart r;
     offsetEnd := offsetEnd r; connector := connector r;
     descriptors := Some [] |}.

(** The body of [for edge in G.edges(data=True)] in [_add_descriptors]
    (lines 180-193) for the related word at position [i] of the list. *)
Definition descriptor_step (fuel : nat) (i : nat) (tok : Z) (rel : list related) (e : edge)
  : M (list related) :=
  let! c := slift (_get_connected e (PInt tok)) in
  match connected c with
  | None => sret rel
  | Some sibling_idx =>
      let! info := slift (lookup_node sibling_idx) in
      let rel1 :=
        if String.eqb (li_pos info) "JJ" ||
           String.eqb (e_dep e) "amod" || String.eqb (e_dep e) "compound"
        then alter (push_descriptor
                      {| d_tokenIndex := sibling_idx; d_rawName := li_word info |}) i rel
        else rel in
      if str_in "NN" (li_pos info) && str_in "amod" (e_dep e) then
        let! additional_related := _get_cousin fuel sibling_idx ["nmod"] in
        sfold (fun rel' add =>
                 slift (let* idx := index_of add in
                        let* n := G_node sibling_idx in
                        _add_related add "nmod" rel' idx (Some (n_word n))))
              rel1 (remove_dups additional_related)
      else sret rel1
  end.

(** [_add_descriptors(related)] (lines 168-194).  The loop
    [for r in related] walks the very list [_add_related] appends to, so
    words added on the way are visited too; [fuel] bounds the number of
    iterations, [i] is the position of the iterator. *)
Fixpoint add_descriptors_from (fuel : nat) (i : nat) (rel : list related)
  {struct fuel} : M (list related) :=
  match rel !! i with
  | None => sret rel
  | Some r =>
      match fuel with
      | O => fun _ => OutOfFuel
      | S fuel' =>
          let rel0 := alter reset_descriptors i rel in
          let! rel1 := sfold (descriptor_step fuel i (tokenIndex r)) rel0 (edges G) in
          add_descriptors_from fuel' (S i) rel1
      end
  end.

Definition _add_descriptors (fuel : nat) (rel : list related) : M (list related) :=
  add_descriptors_from fuel 0 rel.

(** The list a pattern file gives under ["get_cousin"], as labels. *)
Definition labels_of (v : pyval) : result (list string) :=
  let* l := py_iter v in
  rfold (fun acc x => match x with
                      | PStr s => Ok (acc ++ [s])%list
                      | _ => Raise TypeError
                      end) [] l.

(** The comprehension of line 226,
    [[False if not_pos == G.node[sibling_idx]["pos"] else True
      for not_pos in dep_obj.keys()]]. *)
Definition pos_not_flags (keys : list string) (sibling_pos : string) : list bool :=
  map (fun not_pos => if String.eqb not_pos sibling_pos then false else true) keys.

(** Lines 223-228: [true] when control reaches line 231, [false] when
    the iteration is left by [continue]. *)
Definition pos_passes (pos_logic pos : string) (keys : list string) (sibling_idx : string)
  : result bool :=
  if String.eqb pos_logic "pos_in" then
    let* n := G_node sibling_idx in Ok (str_in pos (n_pos n))
  else if String.eqb pos_logic "pos_equals" then
    let* n := G_node sibling_idx in Ok (String.eqb pos (n_pos n))
  else if String.eqb pos_logic "pos_not" then
    let* n := G_node sibling_idx in
    match pos_not_flags keys (n_pos n) with
    | [] => Ok false          (* [not []] holds: [continue] *)
    | _ :: _ => Ok true
    end
  else Ok false.

(** The sibling emitted under the label [dep] (lines 232, 249, 255). *)
Definition add_sibling (dep : string) (all_related : list related) (sibling_idx : string)
  (conn : option string) : result (list related) :=
  let* n := G_node sibling_idx in
  let* n' := G_node sibling_idx in
  let* idx := index_of (n_word n') in
  _add_related (n_word n) dep all_related idx conn.

(** The state of one call of [_check_criteria]: [all_related], the local
    list [related], and [connector]. *)
Definition crit_state : Type := (list related * list string * option string)%type.

(** Lines 230-255, for one [pos] of one [pos_logic] whose test passed;
    [act] is [dep_obj[pos_logic][pos]]. *)
Definition apply_action (fuel : nat) (dep pos : string) (act : pyval)
  (sibling_idx : string) (st : crit_state) : M crit_state :=
  let '(all_related, rel, conn) := st in
  let! plain :=
    slift (if py_eqb act PNone then Ok true
           else let* b := py_in PNone act in
                if b then Ok true else py_in (PStr "add_sibling") act) in
  let! all1 := slift (if plain then add_sibling dep all_related sibling_idx None
                      else Ok all_related) in
  if py_truthy act then
    let! has_cousin := slift (py_in (PStr "get_cousin") act) in
    let! '(rel1, conn1) :=
      (if has_cousin then
         let! labels := slift (let* l := py_getitem act "get_cousin" in labels_of l) in
         let! found := _get_cousin fuel sibling_idx labels in
         let! n := slift (G_node sibling_idx) in
         sret ((rel ++ found)%list, Some (n_word n))
       else sret (rel, conn)) in
    let! has_special := slift (py_in (PStr "special") act) in
    let! rel2 :=
      (if has_special && String.eqb dep "compound" && String.eqb pos "NN"
       then let! n := slift (G_node sibling_idx) in sret [n_word n]
       else sret rel1) in
    let! keys := slift (py_keys act) in
    let! else_always :=
      slift (if bool_decide ("else" ∈ keys)
             then let* v := py_getitem act "else" in Ok (py_eqb v (PStr "always"))
             else Ok false) in
    let! all2 := slift (if else_always then add_sibling dep all1 sibling_idx conn1
                        else Ok all1) in
    match rel2 with
    | _ :: _ =>
        let! all3 :=
          slift (rfold (fun acc x => let* idx := index_of x in
                                     _add_related x dep acc idx conn1) all2 rel2) in
        sret (all3, rel2, conn1)
    | [] =>
        let! else_true :=
          slift (if bool_decide ("else" ∈ keys)
                 then let* v := py_getitem act "else" in Ok (py_eqb v (PBool true))
                 else Ok false) in
        let! all3 := slift (if else_true then add_sibling dep all2 sibling_idx conn1
                            else Ok all2) in
        sret (all3, rel2, conn1)
    end
  else sret (all1, rel, conn).

(** [_check_criteria(dep, dep_obj, all_related, edge, sibling_idx)]
    (lines 197-257) *)
Definition _check_criteria (fuel : nat) (dep : string) (dep_obj : pyval)
  (all_related : list related) (e : edge) (sibling_idx : string) : M (list related) :=
  if String.eqb (e_dep e) dep then
    let! keys := slift (py_keys dep_obj) in
    let! '(all', _) :=
      sfold (fun '(all_related, rel) pos_logic =>
        let! inner := slift (py_getitem dep_obj pos_logic) in
        match inner with
        | PDict poss =>
            let! '(all', rel', _) :=
              sfold (fun st pos =>
                let! ok := slift (pos_passes pos_logic pos keys sibling_idx) in
                if ok then
                  let! act := slift (of_option KeyError (dget pos poss)) in
                  apply_action fuel dep pos act sibling_idx st
                else sret st)
              (all_related, rel, None) (dkeys poss) in
            sret (all', rel')
        | _ => sret (all_related, rel)
        end)
      (all_related, []) keys in
    sret all'
  else sret all_related.

(** Lines 282-291 of [_parse_patterns]: the rules of the pattern file
    [tree] tried on one sibling. *)
Definition scan_rules (fuel : nat) (measurement_format tree : pyval)
  (all_related : list related) (e : edge) (sibling_idx : string) : M (list related) :=
  let! deps := slift (py_getitem tree "dep") in
  let! dep_keys := slift (py_keys deps) in
  sfold (fun all dep =>
    let! d := slift (py_getitem deps dep) in
    let! enhanced := slift (py_getitem d "enhanced") in
    if py_eqb enhanced (PBool true) then
      let! inner_keys := slift (py_keys d) in
      sfold (fun all inner_dep =>
        let! inner := slift (py_getitem d inner_dep) in
        if is_dict inner then
          let! types := slift (py_getitem inner "measurement_types") in
          let! tagged := slift (py_in measurement_format types) in
          if tagged
          then _check_criteria fuel (dep ++ ":" ++ inner_dep) inner all e sibling_idx
          else sret all
        else sret all) all inner_keys
    else
      let! types := slift (py_getitem d "measurement_types") in
      let! tagged := slift (py_in measurement_format types) in
      if tagged then _check_criteria fuel dep d all e sibling_idx else sret all)
  all_related dep_keys.

(** Lines 293-297: the operator words [tree["word"]["or"]]. *)
Definition scan_operators (fuel : nat) (tree : pyval) (all_related : list related)
  (sibling_idx : string) : M (list related) :=
  let! ors := slift (let* w := py_getitem tree "word" in
                     let* o := py_getitem w "or" in
                     match o with
                     | PList l => Ok l
                     | PStr s => Ok (map PStr (chars s))
                     | _ => Raise TypeError
                     end) in
  sfold (fun all o =>
    let! n := slift (G_node sibling_idx) in
    if py_eqb (PStr (n_word n)) o then
      let! found := _get_cousin fuel sibling_idx ["nsubj"] in
      slift (rfold (fun acc r => let* idx := index_of r in
                                 _add_related r "operator" acc idx None) all found)
    else sret all) all_related ors.

(** [_parse_patterns(unit_idx, measurement_format, patterns_file)] (lines
    262-301); [tree] is the content of the patterns file.  The function
    returns a list on every path: the result is never [None]. *)
Definition _parse_patterns (fuel : nat) (unit_idx measurement_format tree : pyval)
  : M (option (list related)) :=
  let! all_related :=
    sfold (fun all e =>
      let! idxs := slift (py_iter unit_idx) in
      sfold (fun all idx =>
        let! c := slift (_get_connected e idx) in
        match connected c with
        | None => sret all
        | Some sibling_idx =>
            let! all1 := scan_rules fuel measurement_format tree all e sibling_idx in
            scan_operators fuel tree all1 sibling_idx
        end) all idxs) [] (edges G) in
  let! all_related' := _add_descriptors fuel all_related in
  sret (Some all_related').

(** ** Reconciliation with the Grobid payload *)

(** [l.remove(x)]: the first element equal to [x] goes.  Both callers
    remove an element that is in the list. *)
Fixpoint remove_first (x : related) (l : list related) : list related :=
  match l with
  | [] => []
  | y :: l' => if bool_decide (y = x) then l' else y :: remove_first x l'
  end.

(** [[a.pop(key, None) for key in ["descriptors", "connector"]]] *)
Definition strip_adverb (a : related) : related :=
  {| relationForm := relationForm a; rawName := rawName a;
     tokenIndex := tokenIndex a; offsetStart := offsetStart a;
     offsetEnd := offsetEnd a; connector := None; descriptors := None |}.

(** Lines 324-330 *)
Definition keep_adverbs (adverbs : list related) : list related :=
  let for_removal :=
    filter (fun a => negb (String.eqb (relationForm a) "advmod")) adverbs in
  let popped :=
    map (fun a => if String.eqb (relationForm a) "advmod" then strip_adverb a else a)
        adverbs in
  fold_left (fun l a => remove_first a l) for_removal popped.

(** Lines 342-345: [num], [unit] and [quantified] of the sub-record
    [match["grobid"][key]]. *)
Definition own_texts (gk : pyval) : result (pyval * pyval * pyval) :=
  let* has_value := py_in (PStr "rawValue") gk in
  let* num := (if has_value then py_getitem gk "rawValue" else Ok (PStr "")) in
  let* has_unit := py_in (PStr "rawUnit") gk in
  let* unit := (if has_unit
                then let* ru := py_getitem gk "rawUnit" in py_getitem ru "name"
                else Ok (PStr "")) in
  let* has_name := py_in (PStr "normalizedName") gk in
  let* quantified := (if has_name then py_getitem gk "normalizedName"
                      else Ok (PStr "")) in
  Ok (num, unit, quantified).

(** The test of line 347. *)
Definition duplicates (name : string) (num unit quantified : pyval) : result bool :=
  if existsb (py_eqb (PStr name)) [num; unit; quantified] then Ok true
  else
    let* nu := py_add num unit in
    if py_eqb (PStr name) nu then Ok true
    else
      let* inside := py_in quantified (PStr name) in
      Ok (inside && negb (py_eqb quantified (PStr ""))).

(** [for k in related.keys(): if not k in target: target[k] = related[k]] *)
Definition merge_back (r : related) (target : pyval) : result pyval :=
  rfold (fun t '(k, v) =>
           let* present := py_in (PStr k) t in
           if present then Ok t else py_setitem t k v)
        target (related_items r).

(** The loop [for related in all_related] (lines 340-358) for one [key].
    The iterator holds a position [i] in the list that
    [all_related.remove(related)] shortens under it.  Every iteration
    advances [i] and none lengthens the list, so a [fuel] of the length of
    the list is never used up. *)
Fixpoint reconcile_key (fuel : nat) (key : string) (i : nat)
  (all_related : list related) (g : pyval) {struct fuel}
  : result (list related * pyval) :=
  match all_related !! i with
  | None => Ok (all_related, g)
  | Some rel =>
      match fuel with
      | O => OutOfFuel
      | S fuel' =>
          let* has_key := py_in (PStr key) g in
          if has_key then
            let* gk := py_getitem g key in
            let* '(num, unit, quantified) := own_texts gk in
            let* dup := duplicates (rawName rel) num unit quantified in
            if dup then
              let all' := remove_first rel all_related in
              if py_eqb (PStr (rawName rel)) unit then
                let* ru := py_get_path g [key; "rawUnit"] in
                let* ru' := merge_back rel ru in
                let* g' := py_set_path g [key] "rawUnit" ru' in
                reconcile_key fuel' key (S i) all' g'
              else if py_eqb (PStr (rawName rel)) quantified then
                let* gk' := merge_back rel gk in
                let* g' := py_setitem g key gk' in
                reconcile_key fuel' key (S i) all' g'
              else reconcile_key fuel' key (S i) all' g
            else reconcile_key fuel' key (S i) all_related g
          else reconcile_key fuel' key (S i) all_related g
      end
  end.

Definition potential_keys : list string :=
  ["quantity"; "quantityLeast"; "quantityMost"; "quantified"].

(** Lines 336-358: the result reconciler. *)
Definition reconcile (all_related : list related) (g : pyval)
  : result (list related * pyval) :=
  match all_related with
  | [] => Ok (all_related, g)
  | _ :: _ =>
      rfold (fun '(all, g') key => reconcile_key (length all) key 0 all g')
            (all_related, g) potential_keys
  end.

Definition with_grobid (m : Match) (g : pyval) : Match :=
  {| m_measurement_format := m_measurement_format m; m_unit_idx := m_unit_idx m;
     m_unit := m_unit m; m_num_idx := m_num_idx m; m_num := m_num m;
     m_grobid := g; m_sentence := m_sentence m |}.

(** [_get_related(stats, match, patterns_file)] (lines 305-359): the list
    returned and the match as the call leaves it. *)
Definition _get_related (fuel : nat) (m : Match) (tree : pyval)
  : M (option (list related) * Match) :=
  let! first := _parse_patterns fuel (m_unit_idx m) (m_measurement_format m) tree in
  let! all_related :=
    match first with
    | None => _parse_patterns fuel (m_unit_idx m) (PList [PStr "uncertain"]) tree
    | Some _ => sret first
    end in
  let! adverbs := _parse_patterns fuel (PList [m_num_idx m]) (m_measurement_format m) tree in
  let! adverbs' := slift (match adverbs with
                          | Some l => Ok (keep_adverbs l)
                          | None => Raise TypeError
                          end) in
  let! g1 := slift (match adverbs' with
                    | [] => Ok (m_grobid m)
                    | _ :: _ => py_setitem (m_grobid m) "adverbs"
                                  (PList (map related_to_py adverbs'))
                    end) in
  match all_related with
  | Some l =>
      let! '(l', g2) := slift (reconcile l g1) in
      sret (Some l', with_grobid m g2)
  | None => sret (None, with_grobid m g1)
  end.

End Globals.

(** ** The simplified projection *)

Fixpoint rmap {X Y} (f : X -> result Y) (l : list X) : result (list Y) :=
  match l with
  | [] => Ok []
  | x :: l' => let* y := f x in let* ys := rmap f l' in Ok (y :: ys)
  end.

(** [key=lambda x: int(x["tokenIndex"])] *)
Definition sort_key (x : pyval) : result Z :=
  let* ti := py_getitem x "tokenIndex" in py_int ti.

(** [list.sort(key=..., reverse=False)] is a stable sort on the keys,
    which are computed for the whole list first.  Stable insertion, from
    left to right, computes the same list. *)
Fixpoint insert_by_key (k : Z) (x : pyval) (l : list (Z * pyval)) : list (Z * pyval) :=
  match l with
  | [] => [(k, x)]
  | (k', y) :: l' =>
      if k <? k' then (k, x) :: (k', y) :: l' else (k', y) :: insert_by_key k x l'
  end.

Definition sort_by_key (l : list (Z * pyval)) : list (Z * pyval) :=
  fold_left (fun acc '(k, x) => insert_by_key k x acc) l [].

(** [ds.sort(key=lambda x: int(x["tokenIndex"]), reverse=False)] *)
Definition sort_descriptors (ds : pyval) : result (list pyval) :=
  match ds with
  | PList l =>
      let* keys := rmap sort_key l in
      Ok (map snd (sort_by_key (combine keys l)))
  | _ => Raise AttributeError
  end.

Definition raw_names (l : list pyval) : result (list pyval) :=
  rmap (fun x => py_getitem x "rawName") l.

(** Lines 381-390: [None] is the early [return None]. *)
Fixpoint simplify_values (m : pyval) (keys : list string) (vals : list pyval)
  (unit : option pyval) : result (option (list pyval * option pyval)) :=
  match keys with
  | [] => Ok (Some (vals, unit))
  | key :: keys' =>
      let* present := py_in (PStr key) m in
      if present then
        let* mk := py_getitem m key in
        let* parsed := py_in (PStr "parsedValue") mk in
        let* raw := (if parsed then Ok false else py_in (PStr "rawValue") mk) in
        if parsed || raw then
          let* v := py_getitem mk (if parsed then "parsedValue" else "rawValue") in
          let* has_unit := py_in (PStr "rawUnit") mk in
          let* u := (if has_unit
                     then let* ru := py_getitem mk "rawUnit" in py_getitem ru "name"
                     else Ok (PStr "")) in
          simplify_values m keys' (vals ++ [v])%list (Some u)
        else Ok None
      else simplify_values m keys' vals unit
  end.

(** Lines 412-419 for one related word [r]: the entry of
    [simplified["related"]] and [r] with its descriptors sorted in
    place. *)
Definition simplify_related (r : pyval) : result (string * pyval * pyval) :=
  let* rn := py_getitem r "rawName" in
  let* name := Grobid.as_str rn in
  let* has_desc := py_in (PStr "descriptors") r in
  if has_desc then
    let* ds := py_getitem r "descriptors" in
    let* sorted := sort_descriptors ds in
    let* r' := py_setitem r "descriptors" (PList sorted) in
    let* names := raw_names sorted in
    Ok (name, PList names, r')
  else Ok (name, PList [], r).

(** [_simplify_results(match)] (lines 362-422): the projection, or [None],
    and [match] as the in-place sorts leave it. *)
Definition _simplify_results (m : pyval) : result (option pyval * pyval) :=
  let* ty := py_getitem m "type" in
  let keys := if py_eqb ty (PStr "value") then ["quantity"]
              else if py_eqb ty (PStr "interval") then ["quantityLeast"; "quantityMost"]
              else [] in
  let* vs := simplify_values m keys [] None in
  match vs with
  | None => Ok (None, m)
  | Some (vals, unit) =>
      let value := match vals with [v] => v | _ => PList vals end in
      let* has_quantified := py_in (PStr "quantified") m in
      let* '(unit1, quantified, m1) :=
        (if has_quantified then
           let* u0 := of_option KeyError unit in
           let* qd := py_getitem m "quantified" in
           let* u1 := (if py_eqb u0 (PStr "") then py_getitem qd "normalizedName"
                       else Ok u0) in
           let* nn := py_getitem qd "normalizedName" in
           let* name := Grobid.as_str nn in
           let* has_desc := py_in (PStr "descriptors") qd in
           if has_desc then
             let* ds := py_getitem qd "descriptors" in
             let* sorted := sort_descriptors ds in
             let* qd' := py_setitem qd "descriptors" (PList sorted) in
             let* m' := py_setitem m "quantified" qd' in
             let* names := raw_names sorted in
             Ok (Some u1, [(name, PList names)], m')
           else Ok (Some u1, [(name, PList [])], m)
         else Ok (unit, [], m)) in
      let* rel := py_getitem m1 "related" in
      let* '(related, m2) :=
        (if py_truthy rel then
           match rel with
           | PList rs =>
               let* out := rmap simplify_related rs in
               let entries :=
                 fold_left (fun d '(name, names, _) => dset name names d) out [] in
               let* m' := py_setitem m1 "related" (PList (map snd out)) in
               Ok (entries, m')
           | _ => Raise TypeError
           end
         else Ok ([], m1)) in
      let simplified :=
        ([("value", value)]
         ++ match unit1 with Some u => [("unit", u)] | None => [] end
         ++ [("quantified", PDict quantified); ("related", PDict related)])%list in
      Ok (Some (PDict simplified), m2)
  end.

(** ** The top-level function *)

(** What [extract] does to the outside world, in order. *)
Inductive event : Type :=
| OpenAppend (file : string)                 (* [codecs.open(output_file, "a")] *)
| Annotate (endpoint content : string)       (* [nlp.annotate] *)
| Quantities (sentence endpoint : string)    (* the [curl] call of [grobid_quantities] *)
| Write (text : string)                      (* [out.write] *)
| Close                                      (* [out.close()] *)
| Warning (msg : string)                     (* [logging.warning] *)
| Summary (total_sentences total_measurements : Z).

(** The state that outlives a call: the default-argument dictionary of
    [_get_cousin] and the module's [stats]. *)
Record world : Type := {
  visited_nodes : gmap string nat;
  total_sentences : Z;
  total_measurements : Z }.

(** [_reconstruct_sent(parsed_sentence)] over the token objects. *)
Fixpoint reconstruct (toks : list token) : string :=
  match toks with
  | [] => ""
  | t :: rest =>
      match rest with
      | [] => tk_originalText t
      | t' :: _ =>
          tk_originalText t
          ++ String.concat ""
               (repeat " " (Z.to_nat (tk_characterOffsetBegin t' - tk_characterOffsetEnd t)))
          ++ reconstruct rest
      end
  end.

Definition as_int (v : pyval) : result Z :=
  match v with PInt z => Ok z | _ => Raise TypeError end.

(** A token object of CoreNLP's JSON output: the index and the offsets
    are JSON integers, the other fields JSON strings. *)
Definition token_of_py (f : pyval) : result token :=
  let* b := py_getitem f "characterOffsetBegin" in let* b := as_int b in
  let* i := py_getitem f "index" in let* i := as_int i in
  let* e := py_getitem f "characterOffsetEnd" in let* e := as_int e in
  let* o := py_getitem f "originalText" in let* o := Grobid.as_str o in
  let* l := py_getitem f "lemma" in let* l := Grobid.as_str l in
  let* p := py_getitem f "pos" in let* p := Grobid.as_str p in
  let* n := py_getitem f "ner" in let* n := Grobid.as_str n in
  let* a := py_getitem f "after" in let* a := Grobid.as_str a in
  let* w := py_getitem f "word" in let* w := Grobid.as_str w in
  Ok {| tk_index := i; tk_word := w; tk_originalText := o; tk_lemma := l;
        tk_pos := p; tk_characterOffsetBegin := b; tk_characterOffsetEnd := e;
        tk_ner := n; tk_after := a |}.

Definition gloss_of (d : pyval) (k : string) : result (option string) :=
  let* has := py_in (PStr k) d in
  if has then let* g := py_getitem d k in let* g := Grobid.as_str g in Ok (Some g)
  else Ok None.

Definition dependency_of_py (d : pyval) : result dependency :=
  let* dep := py_getitem d "dep" in let* dep := Grobid.as_str dep in
  let* g := py_getitem d "governor" in let* g := as_int g in
  let* t := py_getitem d "dependent" in let* t := as_int t in
  let* gg := gloss_of d "governorGloss" in
  let* tg := gloss_of d "dependentGloss" in
  Ok {| dp_dep := dep; dp_governor := g; dp_governorGloss := gg;
        dp_dependent := t; dp_dependentGloss := tg |}.

Definition as_list (v : pyval) : result (list pyval) :=
  match v with PList l => Ok l | _ => Raise TypeError end.

Definition sort_order : list string :=
  ["adverbs"; "type"; "quantity"; "quantityLeast"; "quantityMost"; "quantified";
   "related"].

Definition simplified_sort_order : list string :=
  ["value"; "unit"; "quantified"; "related"].

(** [order.index(k)] *)
Fixpoint index_in (k : string) (order : list string) : result nat :=
  match order with
  | [] => Raise ValueError
  | k' :: rest => if String.eqb k k' then Ok O
                  else let* n := index_in k rest in Ok (S n)
  end.

Fixpoint insert_item (n : nat) (kv : string * pyval) (l : list (nat * (string * pyval)))
  : list (nat * (string * pyval)) :=
  match l with
  | [] => [(n, kv)]
  | (n', kv') :: l' =>
      if (n <? n')%nat then (n, kv) :: (n', kv') :: l'
      else (n', kv') :: insert_item n kv l'
  end.

(** [OrderedDict(sorted(d.iteritems(), key=lambda (k, v): order.index(k)))] *)
Definition ordered (order : list string) (d : pyval) : result (list (string * pyval)) :=
  match d with
  | PDict items =>
      let* ranked := rmap (fun kv => let* n := index_in (fst kv) order in Ok (n, kv)) items in
      Ok (map snd (fold_left (fun acc '(n, kv) => insert_item n kv acc) ranked []))
  | _ => Raise AttributeError
  end.

Definition newline : string := String (Ascii.ascii_of_nat 10) EmptyString.

Definition truthy_file (output_file : option string) : option string :=
  match output_file with
  | Some f => if String.eqb f "" then None else Some f
  | None => None
  end.

Section Extract.

(** The collaborators of [extract]: the annotation service, the JSON
    reader applied when the annotator answers with text, the measurement
    service, [json.dumps] (with or without [indent=4]), and the content
    of the patterns file. *)
Variable annotate : string -> string -> pyval.
Variable json_loads : string -> result pyval.
Variable service : string -> string -> Grobid.reply.
Variable dumps : bool -> pyval -> string.
Variable tree : pyval.

(** The body of [for idx, match in enumerate(A.matches)] (lines 502-528):
    the match as it is left in [A.matches], the text written, and the
    visit counters. *)
Definition process_match (fuel : nat) (A : Annotations) (G : graph)
  (out : option string) (pretty simplify last : bool) (m : Match)
  : M (pyval * list event) :=
  let! '(rel, m') := _get_related A G (m_num m) fuel m tree in
  let rel_py := match rel with
                | Some l => PList (map related_to_py l)
                | None => PNone
                end in
  let! g := slift (py_setitem (m_grobid m') "related" rel_py) in
  let! ord := slift (ordered sort_order g) in
  let! '(shown, g') :=
    slift (if simplify then
             let* '(simplified, mo) := _simplify_results (PDict ord) in
             let* g' := (match mo, g with
                         | PDict items, PDict gitems =>
                             Ok (PDict (map (fun '(k, v) =>
                                           (k, match dget k items with
                                               | Some v' => v'
                                               | None => v
                                               end)) gitems))
                         | _, _ => Raise TypeError
                         end) in
             match simplified with
             | Some sd =>
                 let* o := ordered simplified_sort_order sd in Ok (PDict o, g')
             | None => Ok (PDict ord, g')
             end
           else Ok (PDict ord, g)) in
  let written :=
    match out with
    | None => []
    | Some _ =>
        if pretty && negb simplify
        then (Write (dumps true shown) :: if last then [] else [Write ("," ++ newline)])%list
        else [Write (dumps false shown ++ newline)]
    end in
  sret (PDict [("grobid", g')], written).

Fixpoint process_matches (fuel : nat) (A : Annotations) (G : graph)
  (out : option string) (pretty simplify : bool) (ms : list Match)
  : M (list pyval * list event) :=
  match ms with
  | [] => sret ([], [])
  | m :: ms' =>
      let! '(x, w) := process_match fuel A G out pretty simplify
                        (match ms' with [] => true | _ => false end) m in
      let! '(xs, ws) := process_matches fuel A G out pretty simplify ms' in
      sret (x :: xs, (w ++ ws)%list)
  end.

(** The body of the loop over [output["sentences"]] (lines 481-533).
    When the body raises, the events listed are those up to the call of
    the measurement service. *)
Definition process_sentence (fuel : nat) (grobid_endpoint : string)
  (out : option string) (pretty simplify : bool) (w : world) (sent : pyval)
  : list event * result (list pyval * world) :=
  let prepared :=
    let* toks_py := py_getitem sent "tokens" in
    let* toks_l := as_list toks_py in
    let* toks := rmap token_of_py toks_l in
    let* collapsed := py_in (PStr "collapsed-ccprocessed-dependencies") sent in
    let dep_key := if collapsed then "collapsed-ccprocessed-dependencies"
                   else "enhanced-plus-plus-dependencies" in
    let* deps_py := py_getitem sent dep_key in
    let* deps_l := as_list deps_py in
    let* ds := rmap dependency_of_py deps_l in
    let A := init toks ds in
    let* parsed := check_output A in
    if parsed then
      let* G := _build_graph A in
      Ok (Some (reconstruct toks, A, G))
    else Ok None in
  match prepared with
  | Raise e => ([], Raise e)
  | OutOfFuel => ([], OutOfFuel)
  | Ok None => ([Warning "CoreNLP parsing failed"], Ok ([], w))
  | Ok (Some (s_str, A, G)) =>
      let call := Quantities (Grobid.escape s_str) (Grobid.strip_slash grobid_endpoint) in
      let w1 := {| visited_nodes := visited_nodes w;
                   total_sentences := total_sentences w + 1;
                   total_measurements := total_measurements w |} in
      match Grobid.grobid_quantities service s_str A grobid_endpoint with
      | Raise e => ([call], Raise e)
      | OutOfFuel => ([call], OutOfFuel)
      | Ok response =>
          match (if is_dict response then py_in (PStr "measurements") response
                 else Ok false) with
          | Ok true =>
              let run :=
                let* ms := py_getitem response "measurements" in
                let* qs := py_iter ms in
                let* A' := rfold augment_match A qs in
                let* r := process_matches fuel A' G out pretty simplify (matches A')
                            (visited_nodes w1) in
                Ok (A', r) in
              match run with
              | Ok (A', (xs, written, v)) =>
                  ((call :: written)%list,
                   Ok (xs, {| visited_nodes := v;
                              total_sentences := total_sentences w1;
                              total_measurements :=
                                total_measurements w1 + Z.of_nat (length (matches A')) |}))
              | Raise e => ([call], Raise e)
              | OutOfFuel => ([call], OutOfFuel)
              end
          | Ok false => ([call], Ok ([], w1))
          | Raise e => ([call], Raise e)
          | OutOfFuel => ([call], OutOfFuel)
          end
      end
  end.

Fixpoint process_sentences (fuel : nat) (grobid_endpoint : string)
  (out : option string) (pretty simplify : bool) (w : world) (sents : list pyval)
  : list event * result (list pyval * world) :=
  match sents with
  | [] => ([], Ok ([], w))
  | sent :: rest =>
      match process_sentence fuel grobid_endpoint out pretty simplify w sent with
      | (t, Ok (xs, w')) =>
          match process_sentences fuel grobid_endpoint out pretty simplify w' rest with
          | (t', Ok (ys, w'')) => ((t ++ t')%list, Ok ((xs ++ ys)%list, w''))
          | (t', other) => ((t ++ t')%list, other)
          end
      | (t, other) => (t, other)
      end
  end.

(** [extract(content, corenlp_endpoint, grobid_endpoint,
    dependency_patterns_file, output_file, show_graph, pretty, simplify)]
    (lines 449-543): the events of the call, then what it returns ([None]
    or the list of extractions) with the state it leaves.  The patterns
    file is the section variable [tree]; [show_graph] only opens a
    window. *)
Definition extract (fuel : nat) (w : world) (content corenlp_endpoint grobid_endpoint : string)
  (output_file : option string) (pretty simplify : bool)
  : list event * result (option (list pyval) * world) :=
  let out := truthy_file output_file in
  let opened := match out with Some f => [OpenAppend f] | None => [] end in
  if (String.length content <? 5)%nat then (opened, Ok (None, w))
  else
    let asked := (opened ++ [Annotate corenlp_endpoint content])%list in
    let output0 := annotate corenlp_endpoint content in
    match (match output0 with PStr s => json_loads s | _ => Ok output0 end) with
    | Raise e => (asked, Raise e)
    | OutOfFuel => (asked, OutOfFuel)
    | Ok output =>
        let sentences :=
          let* has := py_in (PStr "sentences") output in
          if has then
            let* ss := py_getitem output "sentences" in
            Ok (match ss with PList l => Some l | _ => None end)
          else Ok None in
        let finish (t : list event) (xs : list pyval) (w' : world) :=
          ((t ++ match out with Some _ => [Close] | None => [] end
              ++ [Summary (total_sentences w') (total_measurements w')])%list,
           Ok (Some xs, w')) in
        match sentences with
        | Raise e => (asked, Raise e)
        | OutOfFuel => (asked, OutOfFuel)
        | Ok None => finish (asked ++ [Warning content])%list [] w
        | Ok (Some sents) =>
            match process_sentences fuel grobid_endpoint out pretty simplify w sents with
            | (t, Ok (xs, w')) => finish (asked ++ t)%list xs w'
            | (t, Raise e) => ((asked ++ t)%list, Raise e)
            | (t, OutOfFuel) => ((asked ++ t)%list, OutOfFuel)
            end
        end
    end.

End Extract.

End Measurements.

(* ===================================================================== *)
(** * Sentences used in the examples *)
(* ===================================================================== *)

Module Scenarios.
Import Classes Measurements.

Definition tok (i : Z) (w p : string) (b e : Z) (aft : string) : token :=
  {| tk_index := i; tk_word := w; tk_originalText := w; tk_lemma := w;
     tk_pos := p; tk_characterOffsetBegin := b; tk_characterOffsetEnd := e;
     tk_ner := "O"; tk_after := aft |}.

Definition dp (label : string) (g : Z) (gg : string) (d : Z) (dg : string) : dependency :=
  {| dp_dep := label; dp_governor := g; dp_governorGloss := Some gg;
     dp_dependent := d; dp_dependentGloss := Some dg |}.

Definition graph_of (a : Annotations) : graph :=
  match _build_graph a with
  | Ok g => g
  | _ => {| nodes := ∅; adj := [] |}
  end.

Definition no_match : Match :=
  {| m_measurement_format := PNone; m_unit_idx := PNone; m_unit := PNone;
     m_num_idx := PNone; m_num := PNone; m_grobid := PNone; m_sentence := None |}.

(** The matches of a sentence: [grobid_quantities] on the answer
    [response] of the measurement service, then [augment_match] on every
    measurement, as [extract] does. *)
Definition matches_of (sentence : string) (a : Annotations) (response : pyval)
  : list Match :=
  match (let* r := Grobid.grobid_quantities (fun _ _ => Grobid.Json response)
                     sentence a "http://localhost:8080" in
         let* ms := py_getitem r "measurements" in
         let* qs := py_iter ms in
         rfold augment_match a qs) with
  | Ok a' => matches a'
  | _ => []
  end.

Definition value_measurement (raw : string) (s e : Z) (unit : string) (us ue : Z)
  : pyval :=
  PDict [("type", PStr "value");
         ("quantity",
          PDict [("rawValue", PStr raw); ("parsedValue", PFloat raw);
                 ("offsetStart", PInt s); ("offsetEnd", PInt e);
                 ("rawUnit", PDict [("name", PStr unit); ("offsetStart", PInt us);
                                    ("offsetEnd", PInt ue)])])].

(** "Swimming 5 km helps.": a gerund subject, two verb nodes joined by
    [nsubj], and a unit that is the direct object of the first. *)
Module Swimming.
Definition text : string := "Swimming 5 km helps.".
Definition toks : list token :=
  [tok 1 "Swimming" "VBG" 0 8 " "; tok 2 "5" "CD" 9 10 " "; tok 3 "km" "NN" 11 13 " ";
   tok 4 "helps" "VBZ" 14 19 ""; tok 5 "." "." 19 20 ""].
Definition dps : list dependency :=
  [dp "nsubj" 4 "helps" 1 "Swimming"; dp "nummod" 3 "km" 2 "5";
   dp "dobj" 1 "Swimming" 3 "km"; dp "ROOT" 0 "ROOT" 4 "helps";
   dp "punct" 4 "helps" 5 "."].
Definition A : Annotations := init toks dps.
Definition G : graph := Eval vm_compute in graph_of A.
Definition Num : pyval := PStr "5".
Definition response : pyval :=
  PDict [("measurements", PList [value_measurement "5" 9 10 "km" 11 13])].
Definition m : Match := Eval vm_compute in hd no_match (matches_of text A response).
(** The unit is a direct object: look for the subject of its verb. *)
Definition tree : pyval :=
  PDict [("dep",
          PDict [("dobj",
                  PDict [("enhanced", PBool false);
                         ("measurement_types", PList [PStr "space_between"]);
                         ("pos_in",
                          PDict [("VB", PDict [("get_cousin", PList [PStr "nsubj"])])])])]);
         ("word", PDict [("or", PList [])])].
End Swimming.

(** "The patient returned to Europe at 28 weeks of gestation." *)
Module Gestation.
Definition text : string := "The patient returned to Europe at 28 weeks of gestation.".
Definition toks : list token :=
  [tok 1 "The" "DT" 0 3 " "; tok 2 "patient" "NN" 4 11 " ";
   tok 3 "returned" "VBD" 12 20 " "; tok 4 "to" "TO" 21 23 " ";
   tok 5 "Europe" "NNP" 24 30 " "; tok 6 "at" "IN" 31 33 " ";
   tok 7 "28" "CD" 34 36 " "; tok 8 "weeks" "NNS" 37 42 " ";
   tok 9 "of" "IN" 43 45 " "; tok 10 "gestation" "NN" 46 55 "";
   tok 11 "." "." 55 56 ""].
Definition dps : list dependency :=
  [dp "det" 2 "patient" 1 "The"; dp "nsubj" 3 "returned" 2 "patient";
   dp "ROOT" 0 "ROOT" 3 "returned"; dp "case" 5 "Europe" 4 "to";
   dp "nmod:to" 3 "returned" 5 "Europe"; dp "case" 8 "weeks" 6 "at";
   dp "nummod" 8 "weeks" 7 "28"; dp "nmod:at" 3 "returned" 8 "weeks";
   dp "case" 10 "gestation" 9 "of"; dp "nmod:of" 8 "weeks" 10 "gestation";
   dp "punct" 3 "returned" 11 "."].
Definition A : Annotations := init toks dps.
Definition G : graph := Eval vm_compute in graph_of A.
Definition response : pyval :=
  PDict [("measurements",
          PList [PDict [("type", PStr "value");
                        ("quantity",
                         PDict [("rawValue", PStr "28"); ("parsedValue", PFloat "28.0");
                                ("offsetStart", PInt 34); ("offsetEnd", PInt 36);
                                ("rawUnit",
                                 PDict [("name", PStr "weeks"); ("offsetStart", PInt 37);
                                        ("offsetEnd", PInt 42)])]);
                        ("quantified",
                         PDict [("rawName", PStr "gestation");
                                ("normalizedName", PStr "gestation");
                                ("offsetStart", PInt 46); ("offsetEnd", PInt 55)])]])].
Definition m : Match := Eval vm_compute in hd no_match (matches_of text A response).

(** A patterns file with one family, [nmod], whose sub-rules [at] and
    [of] hold the predicates [at_rule] and [of_rule] and are tagged for
    the formats [types]. *)
Definition patterns (types : list pyval) (at_rule of_rule : list (string * pyval))
  : pyval :=
  PDict [("dep",
          PDict [("nmod",
                  PDict [("enhanced", PBool true);
                         ("at", PDict (("measurement_types", PList types) :: at_rule));
                         ("of", PDict (("measurement_types", PList types) :: of_rule))])]);
         ("word", PDict [("or", PList [PStr "approximately"])])].

(** The verb leads to its subject, the noun is taken as it is. *)
Definition plain_rules (types : list pyval) : pyval :=
  patterns types
    [("pos_in", PDict [("VB", PDict [("get_cousin", PList [PStr "nsubj"])])])]
    [("pos_in", PDict [("NN", PNone)])].

(** Both sub-rules look one hop further: what else the verb governs
    with [nmod:at], what else the noun is linked to with [nmod]. *)
Definition nmod_rules : pyval :=
  patterns [PStr "space_between"]
    [("pos_in", PDict [("VB", PDict [("get_cousin", PList [PStr "nmod:at"])])])]
    [("pos_in", PDict [("NN", PDict [("get_cousin", PList [PStr "nmod"])])])].

Definition word (form name : string) (i s e : Z) (conn : string)
  (ds : option (list descriptor)) : related :=
  {| relationForm := form; rawName := name; tokenIndex := i; offsetStart := s;
     offsetEnd := e; connector := Some conn; descriptors := ds |}.

Definition patient : related := word "nmod:at" "patient" 2 4 11 "returned" (Some []).
Definition gestation : related := word "nmod:of" "gestation" 10 46 55 "" (Some []).
Definition weeks_at : related := word "nmod:at" "weeks" 8 37 42 "returned" (Some []).
Definition weeks_of : related := word "nmod:of" "weeks" 8 37 42 "gestation" (Some []).

(** The sub-rule [of] excludes nouns with [pos_not]. *)
Definition pos_not_rule : pyval :=
  PDict [("measurement_types", PList [PStr "space_between"]);
         ("pos_equals", PDict [("NN", PDict [("get_cousin", PList [PStr "nsubj"])])]);
         ("pos_not", PDict [("NN", PNone)])].
End Gestation.

(** "A dose of 5 mg exceeds the usual dose.": the word "dose" twice. *)
Module Dose.
Definition pre : list token :=
  [tok 1 "A" "DT" 0 1 " "; tok 2 "dose" "NN" 2 6 " "; tok 3 "of" "IN" 7 9 " ";
   tok 4 "5" "CD" 10 11 " "; tok 5 "mg" "NN" 12 14 " ";
   tok 6 "exceeds" "VBZ" 15 22 " "; tok 7 "the" "DT" 23 26 " ";
   tok 8 "usual" "JJ" 27 32 " "].
Definition last_dose : token := tok 9 "dose" "NN" 33 37 "".
Definition post : list token := [tok 10 "." "." 37 38 ""].
Definition toks : list token := (pre ++ last_dose :: post)%list.
Definition dps : list dependency :=
  [dp "det" 2 "dose" 1 "A"; dp "nsubj" 6 "exceeds" 2 "dose";
   dp "case" 5 "mg" 3 "of"; dp "nummod" 5 "mg" 4 "5"; dp "nmod:of" 2 "dose" 5 "mg";
   dp "ROOT" 0 "ROOT" 6 "exceeds"; dp "det" 9 "dose" 7 "the";
   dp "amod" 9 "dose" 8 "usual"; dp "dobj" 6 "exceeds" 9 "dose";
   dp "punct" 6 "exceeds" 10 "."].
Definition A : Annotations := init toks dps.
Definition G : graph := Eval vm_compute in graph_of A.
Definition first_dose : node_attr := {| n_word := "dose"; n_pos := "NN" |}.
Definition text : string := "A dose of 5 mg exceeds the usual dose.".
Definition response : pyval :=
  PDict [("measurements", PList [value_measurement "5" 10 11 "mg" 12 14])].
Definition m : Match := Eval vm_compute in hd no_match (matches_of text A response).
(** The noun a unit is linked to with [nmod:of] is taken as it is. *)
Definition tree : pyval :=
  PDict [("dep",
          PDict [("nmod",
                  PDict [("enhanced", PBool true);
                         ("of", PDict [("measurement_types", PList [PStr "space_between"]);
                                       ("pos_in", PDict [("NN", PNone)])])])]);
         ("word", PDict [("or", PList [])])].
End Dose.

(** "It is equal to the total 5 mg dose." *)
Module Total.
Definition text : string := "It is equal to the total 5 mg dose.".
Definition toks : list token :=
  [tok 1 "It" "PRP" 0 2 " "; tok 2 "is" "VBZ" 3 5 " "; tok 3 "equal" "JJ" 6 11 " ";
   tok 4 "to" "TO" 12 14 " "; tok 5 "the" "DT" 15 18 " ";
   tok 6 "total" "JJ" 19 24 " "; tok 7 "5" "CD" 25 26 " "; tok 8 "mg" "NN" 27 29 " ";
   tok 9 "dose" "NN" 30 34 ""; tok 10 "." "." 34 35 ""].
Definition dps : list dependency :=
  [dp "nsubj" 3 "equal" 1 "It"; dp "cop" 3 "equal" 2 "is";
   dp "ROOT" 0 "ROOT" 3 "equal"; dp "case" 9 "dose" 4 "to";
   dp "det" 9 "dose" 5 "the"; dp "amod" 9 "dose" 6 "total";
   dp "nummod" 8 "mg" 7 "5"; dp "compound" 9 "dose" 8 "mg";
   dp "nmod:to" 3 "equal" 9 "dose"; dp "punct" 3 "equal" 10 "."].
Definition A : Annotations := init toks dps.
Definition G : graph := Eval vm_compute in graph_of A.
Definition response : pyval :=
  PDict [("measurements", PList [value_measurement "5" 25 26 "mg" 27 29])].
Definition m : Match := Eval vm_compute in hd no_match (matches_of text A response).
Definition dose : related :=
  {| relationForm := "compound"; rawName := "dose"; tokenIndex := 9;
     offsetStart := 30; offsetEnd := 34; connector := Some "";
     descriptors := Some [ {| d_tokenIndex := "3"; d_rawName := "equal" |};
                           {| d_tokenIndex := "6"; d_rawName := "total" |};
                           {| d_tokenIndex := "8"; d_rawName := "mg" |} ] |}.
Definition tree : pyval :=
  PDict [("dep",
          PDict [("compound",
                  PDict [("enhanced", PBool false);
                         ("measurement_types", PList [PStr "space_between"]);
                         ("pos_in", PDict [("NN", PNone)])])]);
         ("word", PDict [("or", PList [])])].
End Total.

(** "The daily dose of 5 mg is safe.": the noun "dose" between its
    adjective "daily" and its predicate "safe".  The dependencies are in
    the order in which the annotator lists them: the root first, then by
    dependent. *)
Module Safe.
Definition text : string := "The daily dose of 5 mg is safe.".
Definition toks : list token :=
  [tok 1 "The" "DT" 0 3 " "; tok 2 "daily" "JJ" 4 9 " "; tok 3 "dose" "NN" 10 14 " ";
   tok 4 "of" "IN" 15 17 " "; tok 5 "5" "CD" 18 19 " "; tok 6 "mg" "NN" 20 22 " ";
   tok 7 "is" "VBZ" 23 25 " "; tok 8 "safe" "JJ" 26 30 ""; tok 9 "." "." 30 31 ""].
Definition dps : list dependency :=
  [dp "ROOT" 0 "ROOT" 8 "safe"; dp "det" 3 "dose" 1 "The"; dp "amod" 3 "dose" 2 "daily";
   dp "nsubj" 8 "safe" 3 "dose"; dp "case" 6 "mg" 4 "of"; dp "nummod" 6 "mg" 5 "5";
   dp "nmod:of" 3 "dose" 6 "mg"; dp "cop" 8 "safe" 7 "is"; dp "punct" 8 "safe" 9 "."].
Definition A : Annotations := init toks dps.
Definition G : graph := Eval vm_compute in graph_of A.
Definition response : pyval :=
  PDict [("measurements", PList [value_measurement "5" 18 19 "mg" 20 22])].
Definition m : Match := Eval vm_compute in hd no_match (matches_of text A response).
(** The noun a unit is linked to with [nmod:of] is taken as it is. *)
Definition tree : pyval := Dose.tree.
(** The related word of the match of "5 mg", as the engine emits it. *)
Definition dose : related :=
  {| relationForm := "nmod:of"; rawName := "dose"; tokenIndex := 3;
     offsetStart := 10; offsetEnd := 14; connector := Some "";
     descriptors := Some [ {| d_tokenIndex := "8"; d_rawName := "safe" |};
                           {| d_tokenIndex := "2"; d_rawName := "daily" |} ] |}.
(** The payload as [extract] hands it to [_simplify_results]: the
    related words under ["related"], the keys in the order of
    [sort_order] (lines 511-514). *)
Definition shown : pyval :=
  Eval vm_compute in
    match (let* g := py_setitem (m_grobid m) "related" (PList [related_to_py dose]) in
           ordered sort_order g) with
    | Ok items => PDict items
    | _ => PNone
    end.
Definition dose_sorted : pyval :=
  PDict [("relationForm", PStr "nmod:of"); ("rawName", PStr "dose");
         ("tokenIndex", PInt 3); ("offsetStart", PInt 10); ("offsetEnd", PInt 14);
         ("connector", PStr "");
         ("descriptors",
          PList [PDict [("tokenIndex", PStr "2"); ("rawName", PStr "daily")];
                 PDict [("tokenIndex", PStr "8"); ("rawName", PStr "safe")]])].
End Safe.

(** "The patient was asked to take 5 mg and drink 10 ml." *)
Module Asked.
Definition text : string := "The patient was asked to take 5 mg and drink 10 ml.".
Definition toks : list token :=
  [tok 1 "The" "DT" 0 3 " "; tok 2 "patient" "NN" 4 11 " ";
   tok 3 "was" "VBD" 12 15 " "; tok 4 "asked" "VBN" 16 21 " ";
   tok 5 "to" "TO" 22 24 " "; tok 6 "take" "VB" 25 29 " "; tok 7 "5" "CD" 30 31 " ";
   tok 8 "mg" "NN" 32 34 " "; tok 9 "and" "CC" 35 38 " ";
   tok 10 "drink" "VB" 39 44 " "; tok 11 "10" "CD" 45 47 " ";
   tok 12 "ml" "NN" 48 50 ""; tok 13 "." "." 50 51 ""].
Definition dps : list dependency :=
  [dp "det" 2 "patient" 1 "The"; dp "nsubjpass" 4 "asked" 2 "patient";
   dp "auxpass" 4 "asked" 3 "was"; dp "ROOT" 0 "ROOT" 4 "asked";
   dp "mark" 6 "take" 5 "to"; dp "xcomp" 4 "asked" 6 "take";
   dp "nummod" 8 "mg" 7 "5"; dp "dobj" 6 "take" 8 "mg"; dp "cc" 6 "take" 9 "and";
   dp "conj:and" 6 "take" 10 "drink"; dp "xcomp" 4 "asked" 10 "drink";
   dp "nummod" 12 "ml" 11 "10"; dp "dobj" 10 "drink" 12 "ml";
   dp "punct" 4 "asked" 13 "."].
Definition A : Annotations := init toks dps.
Definition G : graph := Eval vm_compute in graph_of A.
Definition response : pyval :=
  PDict [("measurements",
          PList [value_measurement "5" 30 31 "mg" 32 34;
                 value_measurement "10" 45 47 "ml" 48 50])].
Definition first : Match := Eval vm_compute in hd no_match (matches_of text A response).
Definition second : Match :=
  Eval vm_compute in hd no_match (tl (matches_of text A response)).
Definition patient_via (verb : string) : related :=
  {| relationForm := "dobj"; rawName := "patient"; tokenIndex := 2;
     offsetStart := 4; offsetEnd := 11; connector := Some verb;
     descriptors := Some [] |}.
Definition tree : pyval :=
  PDict [("dep",
          PDict [("dobj",
                  PDict [("enhanced", PBool false);
                         ("measurement_types", PList [PStr "space_between"]);
                         ("pos_in",
                          PDict [("VB", PDict [("get_cousin",
                                                PList [PStr "xcomp"; PStr "advcl"])])])])]);
         ("word", PDict [("or", PList [])])].
End Asked.

(** "Use a 10m rope.": number and unit in one token. *)
Module Rope.
Definition text : string := "Use a 10m rope.".
Definition toks : list token :=
  [tok 1 "Use" "VB" 0 3 " "; tok 2 "a" "DT" 4 5 " "; tok 3 "10m" "CD" 6 9 " ";
   tok 4 "rope" "NN" 10 14 ""; tok 5 "." "." 14 15 ""].
Definition dps : list dependency :=
  [dp "ROOT" 0 "ROOT" 1 "Use"; dp "det" 4 "rope" 2 "a"; dp "nummod" 4 "rope" 3 "10m";
   dp "dobj" 1 "Use" 4 "rope"; dp "punct" 1 "Use" 5 "."].
Definition A : Annotations := init toks dps.
Definition response : pyval :=
  PDict [("measurements", PList [value_measurement "10" 6 8 "m" 8 9])].
End Rope.

(** An interval for which Grobid found the upper bound only. *)
Definition upper_bound_only : pyval :=
  PDict [("type", PStr "interval");
         ("quantityMost",
          PDict [("rawValue", PStr "10"); ("parsedValue", PFloat "10.0");
                 ("offsetStart", PInt 6); ("offsetEnd", PInt 8);
                 ("tokenIndex", PInt 3)])].

(** An interval with both bounds. *)
Definition both_bounds : pyval :=
  PDict [("type", PStr "interval");
         ("quantityLeast",
          PDict [("rawValue", PStr "5"); ("offsetStart", PInt 0); ("offsetEnd", PInt 1);
                 ("tokenIndex", PInt 1)]);
         ("quantityMost",
          PDict [("rawValue", PStr "10"); ("offsetStart", PInt 5); ("offsetEnd", PInt 7);
                 ("tokenIndex", PInt 3)])].

End Scenarios.

(* ===================================================================== *)
(** * Predicates of the statements *)
(* ===================================================================== *)

Import Py Classes Measurements.

(** The computation ends, by a value or by an exception. *)
Definition returns {X} (r : result X) : Prop := r <> OutOfFuel.

(** The computation does not end in [ValueError]. *)
Definition no_value_error {X} (r : result X) : Prop := r <> Raise ValueError.

Definition is_str (v : pyval) : Prop := exists s, v = PStr s.

Definition keys_of (l : list (Z * pyval)) : list Z := map fst l.

(** The descriptors of the related-word dictionary [r], when it has any,
    are in ascending order of [int(x["tokenIndex"])]. *)
Definition ascending (r : pyval) : Prop :=
  forall ds, py_getitem r "descriptors" = Ok (PList ds) ->
  exists ks, rmap sort_key ds = Ok ks /\ StronglySorted Z.le ks.

(** The words of the descriptors of [r], in the order of the list. *)
Definition descriptor_words (r : pyval) : result pyval :=
  let* has := py_in (PStr "descriptors") r in
  if has then
    let* ds := py_getitem r "descriptors" in
    let* l := as_list ds in
    let* ns := raw_names l in
    Ok (PList ns)
  else Ok (PList []).

(** The same on the engine's records. *)
Definition ascending_word (r : related) : Prop :=
  forall ds, descriptors r = Some ds ->
  exists ks, rmap (fun d => int_of_str (d_tokenIndex d)) ds = Ok ks /\
             StronglySorted Z.le ks.

(** What the edge [e] adds to the descriptors of the related word at
    the token [tok] (lines 181-188): its other end, when that is an
    adjective or the edge is labelled [amod] or [compound]. *)
Definition edge_descriptor (A : Annotations) (Num : pyval) (tok : Z) (e : edge)
  : list descriptor :=
  match _get_connected A Num e (PInt tok) with
  | Ok c =>
      match connected c with
      | Some sibling_idx =>
          match lookup_node A sibling_idx with
          | Ok info =>
              if String.eqb (li_pos info) "JJ" ||
                 String.eqb (e_dep e) "amod" || String.eqb (e_dep e) "compound"
              then [ {| d_tokenIndex := sibling_idx; d_rawName := li_word info |} ]
              else []
          | _ => []
          end
      | None => []
      end
  | _ => []
  end.

(** The descriptors of [r] are those its edges give it, in the order in
    which [G.edges(data=True)] enumerates the edges. *)
Definition in_edge_order (A : Annotations) (G : graph) (Num : pyval) (r : related) : Prop :=
  descriptors r = Some (flat_map (edge_descriptor A Num (tokenIndex r)) (edges G)).

(** The related word [add_sibling] builds for the graph node [n] when the
    word map sends its word to the token [t]. *)
Definition sibling_doc (dep : string) (n : node_attr) (t : token) (conn : option string)
  : related :=
  {| relationForm := dep; rawName := n_word n; tokenIndex := tk_index t;
     offsetStart := tk_characterOffsetBegin t; offsetEnd := tk_characterOffsetEnd t;
     connector := Some (match conn with Some c => c | None => "" end);
     descriptors := None |}.

Definition verb_labels : list string := ["nsubj"; "nsubjpass"; "acl"].

(** What a computation of the engine returns, and the visit counters it
    leaves. *)
Definition value_of {X} (r : result (X * gmap string nat)) : result X :=
  match r with
  | Ok (x, _) => Ok x
  | Raise e => Raise e
  | OutOfFuel => OutOfFuel
  end.

Definition state_after {X} (r : result (X * gmap string nat)) : gmap string nat :=
  match r with
  | Ok (_, v) => v
  | _ => ∅
  end.

(** The related words [_get_related] returns. *)
Definition found (r : result (option (list related) * Match * gmap string nat))
  : result (option (list related)) :=
  match r with
  | Ok (l, _, _) => Ok l
  | Raise e => Raise e
  | OutOfFuel => OutOfFuel
  end.

(** ** Tokens and offsets *)

(** The index [i] is the root's or a token's. *)
Definition known (toks : list token) (i : Z) : Prop :=
  i = 0 \/ i ∈ map tk_index toks.

Global Instance known_dec toks i : Decision (known toks i).
Proof. unfold known. apply _. Defined.

(** Both glosses of the dependency are there. *)
Definition glossed (d : dependency) : Prop :=
  is_Some (dp_dependentGloss d) /\ is_Some (dp_governorGloss d).

Global Instance glossed_dec d : Decision (glossed d).
Proof. unfold glossed. apply _. Defined.

(** The tokens are in the order of the text, do not overlap, and each
    spans as many characters as its text has. *)
Fixpoint well_spaced (toks : list token) : Prop :=
  match toks with
  | [] => True
  | t :: rest =>
      tk_characterOffsetEnd t - tk_characterOffsetBegin t
        = Z.of_nat (String.length (tk_originalText t)) /\
      match rest with
      | [] => True
      | t' :: _ => tk_characterOffsetEnd t <= tk_characterOffsetBegin t'
      end /\
      well_spaced rest
  end.

(** The formats [augment_match] gives a match; the last one when the
    measurement has neither a unit nor a quantified substance. *)
Definition formats : list pyval :=
  [PStr "attached"; PStr "hyphenated"; PStr "space_between"; PStr ""].

(** ** The text sent to the measurement service *)

(** [c in s] for a character. *)
Fixpoint occurs (c : ascii) (s : string) : bool :=
  match s with
  | EmptyString => false
  | String a s' => Ascii.eqb a c || occurs c s'
  end.

Definition bslash : ascii := Ascii.ascii_of_nat 92.

(** Every [c] in [s] comes right after a backslash; [prev] tells whether
    the character before [s] is one. *)
Fixpoint escaped_from (prev : bool) (c : ascii) (s : string) : bool :=
  match s with
  | EmptyString => true
  | String a s' =>
      (if Ascii.eqb a c then prev else true) && escaped_from (Ascii.eqb a bslash) c s'
  end.

(** The measurements for which the loop of [grobid_quantities] returns
    [{}] (lines 68-77): a list, or an interval with neither
    ["quantityLeast"] nor ["QuantityMost"]. *)
Definition discards (q : pyval) : Prop :=
  exists d, q = PDict d /\
    (dget "type" d = Some (PStr "listc") \/
     (dget "type" d = Some (PStr "interval") /\
      dhas "quantityLeast" d = false /\ dhas "QuantityMost" d = false)).

(** ** The graph *)

(** The dependency [d] joins the two nodes the edge [e] joins. *)
Definition joins (d : dependency) (e : edge) : bool :=
  same_pair (str_of_int (dp_dependent d)) (str_of_int (dp_governor d)) e.

(** The edge [_build_graph] adds for the dependency [d]. *)
Definition edge_of (d : dependency) : edge :=
  {| e_u := str_of_int (dp_dependent d); e_v := str_of_int (dp_governor d);
     e_dep := dp_dep d |}.

(** Every node of [g] is the [str] of an index of [A.lookup] and carries
    the part of speech found there. *)
Definition nodes_from (A : Annotations) (g : graph) : Prop :=
  forall s n, nodes g !! s = Some n ->
    exists i info, s = str_of_int i /\ lookup A !! i = Some info /\ n_pos n = li_pos info.

(** Every edge of [g] joins two nodes of [g]. *)
Definition edges_closed (g : graph) : Prop :=
  forall e, e ∈ edges g -> is_Some (nodes g !! e_u e) /\ is_Some (nodes g !! e_v e).

(** No two edges of the list join the same two nodes. *)
Fixpoint distinct_pairs (es : list edge) : Prop :=
  match es with
  | [] => True
  | e :: es' =>
      Forall (fun e' => same_pair (e_u e) (e_v e) e' = false) es' /\ distinct_pairs es'
  end.

(** No node is listed twice, and no neighbour twice under a node. *)
Definition adj_wf (a : adjacency) : Prop :=
  NoDup (map fst a) /\ Forall (fun p => NoDup (map fst (snd p))) a.

(** [l] is the label under the neighbour [v] of the node [u]. *)
Definition linked (a : adjacency) (u v l : string) : Prop :=
  exists nbrs, (u, nbrs) ∈ a /\ (v, l) ∈ nbrs.

(** The nodes under which [G.adj] lists a label are nodes of [G.node]. *)
Definition adj_closed (g : graph) : Prop :=
  forall x y l, linked (adj g) x y l ->
    is_Some (nodes g !! x) /\ is_Some (nodes g !! y).

(** The edge as networkx may enumerate it as well: the other way round. *)
Definition flip (e : edge) : edge :=
  {| e_u := e_v e; e_v := e_u e; e_dep := e_dep e |}.

(** ** The cousin search *)

(** The word [w] is the word of a node of [G] whose part of speech, in
    [A.lookup], contains [NN] or [PR]. *)
Definition noun_word (A : Annotations) (G : graph) (w : string) : Prop :=
  exists idx n info,
    nodes G !! idx = Some n /\ n_word n = w /\ lookup_node A idx = Ok info /\
    (str_in "NN" (li_pos info) || str_in "PR" (li_pos info)) = true.

(** No visit counter of [v] is lost or lowered in [v']. *)
Definition counters_le (v v' : gmap string nat) : Prop :=
  forall k n, v !! k = Some n -> exists n', v' !! k = Some n' /\ (n <= n')%nat.

(** What a cousin search may do: return words of noun or pronoun nodes,
    and raise visit counters. *)
Definition cousin_post (A : Annotations) (G : graph) (v : gmap string nat)
  (r : list string * gmap string nat) : Prop :=
  Forall (noun_word A G) r.1 /\ counters_le v r.2.

(** The part of speech of the node, in [A.lookup], contains [VB]. *)
Definition is_verb (A : Annotations) (idx : string) : bool :=
  match lookup_node A idx with
  | Ok info => str_in "VB" (li_pos info)
  | _ => false
  end.

(** The edge joins two verbs with a label the recursive search follows
    ([nsubj], [nsubjpass] or [acl] in the label). *)
Definition verb_link (A : Annotations) (e : edge) : bool :=
  existsb (fun l => str_in l (e_dep e)) verb_labels
  && is_verb A (e_u e) && is_verb A (e_v e).

(** ** Related words *)

(** The related word carries the token index the word map gives for its
    name, and the offsets of that token. *)
Definition placed (A : Annotations) (r : related) : Prop :=
  index_lookup A !! rawName r = Some (tokenIndex r) /\
  exists info, lookup A !! tokenIndex r = Some info /\
    li_start info = Some (offsetStart r) /\ li_end info = Some (offsetEnd r).

(** The relation form is the label of an edge of [G], or one of the two
    forms the engine gives itself. *)
Definition labelled (G : graph) (form : string) : Prop :=
  form = "operator" \/ form = "nmod" \/ exists e, e ∈ edges G /\ e_dep e = form.

Definition sound (A : Annotations) (G : graph) (r : related) : Prop :=
  placed A r /\ labelled G (relationForm r).

(** The related word without its ["descriptors"] key. *)
Definition without_descriptors (r : related) : related :=
  {| relationForm := relationForm r; rawName := rawName r;
     tokenIndex := tokenIndex r; offsetStart := offsetStart r;
     offsetEnd := offsetEnd r; connector := connector r; descriptors := None |}.

(** [rel'] is [rel] with descriptors changed and words of the form
    [nmod] appended; a word that had descriptors still has some. *)
Definition extends (rel rel' : list related) : Prop :=
  (exists extra,
     map without_descriptors rel' = (map without_descriptors rel ++ extra)%list /\
     Forall (fun r => relationForm r = "nmod") extra) /\
  (forall j r, rel !! j = Some r -> is_Some (descriptors r) ->
     exists r', rel' !! j = Some r' /\ is_Some (descriptors r')).

Definition is_advmod (a : related) : bool := String.eqb (relationForm a) "advmod".

(** ** Output *)

(** The rank of every key in [order] ascends along the list. *)
Definition ranked (order : list string) (l : list (string * pyval)) : Prop :=
  exists ranks, rmap (fun kv => index_in (fst kv) order) l = Ok ranks /\
                StronglySorted le ranks.

(** The events that touch the output file. *)
Definition file_event (ev : event) : bool :=
  match ev with
  | OpenAppend _ | Write _ | Close => true
  | _ => false
  end.


(** A sentence as the annotation service returns it: the tokens and the
    dependencies as JSON objects. *)
Definition sentence_json (toks : list token) (dps : list dependency) : pyval :=
  PDict [("tokens",
          PList (map (fun t =>
                        PDict [("index", PInt (tk_index t));
                               ("word", PStr (tk_word t));
                               ("originalText", PStr (tk_originalText t));
                               ("lemma", PStr (tk_lemma t));
                               ("pos", PStr (tk_pos t));
                               ("characterOffsetBegin", PInt (tk_characterOffsetBegin t));
                               ("characterOffsetEnd", PInt (tk_characterOffsetEnd t));
                               ("ner", PStr (tk_ner t));
                               ("after", PStr (tk_after t))])
                     toks));
         ("enhanced-plus-plus-dependencies",
          PList (map (fun d =>
                        PDict [("dep", PStr (dp_dep d));
                               ("governor", PInt (dp_governor d));
                               ("governorGloss", PStr (default "" (dp_governorGloss d)));
                               ("dependent", PInt (dp_dependent d));
                               ("dependentGloss", PStr (default "" (dp_dependentGloss d)))])
                     dps))].

(* ===================================================================== *)
(** * Inversion lemmas for the monads *)
(* ===================================================================== *)

Lemma rbind_Ok {X Y} (m : result X) (k : X -> result Y) (y : Y) :
  rbind m k = Ok y -> exists x, m = Ok x /\ k x = Ok y.
Proof. destruct m; simpl; intros H; [eauto | done | done]. Qed.

Lemma sbind_Ok {X Y} (m : M X) (k : X -> M Y) v y v' :
  sbind m k v = Ok (y, v') -> exists x v1, m v = Ok (x, v1) /\ k x v1 = Ok (y, v').
Proof.
  unfold sbind. destruct (m v) as [[x v1]| |]; intros H; [eauto | done | done].
Qed.

Lemma sbind_out {X Y} (m : M X) (k : X -> M Y) v :
  m v = OutOfFuel -> sbind m k v = OutOfFuel.
Proof. intros H. unfold sbind. by rewrite H. Qed.

Lemma sfold_cons {X Y} (body : Y -> X -> M Y) acc x l :
  sfold body acc (x :: l) = sbind (body acc x) (fun acc' => sfold body acc' l).
Proof. reflexivity. Qed.

Tactic Notation "rinv" hyp(H) "as" ident(x) ident(Hx) :=
  apply rbind_Ok in H as (x & Hx & H).

Tactic Notation "sinv" hyp(H) "as" ident(x) ident(v) ident(Hx) :=
  apply sbind_Ok in H as (x & v & Hx & H).

Lemma rmap_combine {X Y} (f : X -> result Y) l ys :
  rmap f l = Ok ys -> Forall (fun '(y, x) => f x = Ok y) (combine ys l).
Proof.
  revert ys. induction l as [|x l IH]; simpl; intros ys H.
  - injection H as <-. constructor.
  - rinv H as y Hy. rinv H as ys' Hys. injection H as <-. simpl.
    constructor; [done|]. by apply IH.
Qed.

Lemma rmap_keys {X Y} (f : X -> result Y) (l : list (Y * X)) :
  Forall (fun '(y, x) => f x = Ok y) l -> rmap f (map snd l) = Ok (map fst l).
Proof.
  induction 1 as [|[y x] l Hx _ IH]; simpl; [done|].
  rewrite Hx. simpl. by rewrite IH.
Qed.

Lemma rmap_elem {X Y} (f : X -> result Y) l ys y :
  rmap f l = Ok ys -> y ∈ ys -> exists x, x ∈ l /\ f x = Ok y.
Proof.
  revert ys. induction l as [|x l IH]; simpl; intros ys H Hy.
  - injection H as <-. by apply elem_of_nil in Hy.
  - rinv H as y' Hy'. rinv H as ys' Hys. injection H as <-.
    apply elem_of_cons in Hy as [->|Hy].
    + exists x. split; [left|done].
    + destruct (IH _ Hys Hy) as (x' & ? & ?). exists x'. split; [by right|done].
Qed.

(* ===================================================================== *)
(** * Dictionaries *)
(* ===================================================================== *)

Section Dict.
Context {V : Type}.
Implicit Types (d : list (string * V)) (k : string) (v : V).

Lemma dget_dset_eq k v d : dget k (dset k v d) = Some v.
Proof.
  induction d as [|[k' v'] d IH]; simpl.
  - by rewrite String.eqb_refl.
  - destruct (String.eqb k k') eqn:E; simpl.
    + by rewrite String.eqb_refl.
    + by rewrite E.
Qed.

Lemma dget_dset_ne k k' v d : k <> k' -> dget k' (dset k v d) = dget k' d.
Proof.
  intros Hne. induction d as [|[k0 v0] d IH]; simpl.
  - destruct (String.eqb k' k) eqn:E; [|done].
    apply String.eqb_eq in E. congruence.
  - destruct (String.eqb k k0) eqn:E; simpl.
    + apply String.eqb_eq in E. subst k0.
      destruct (String.eqb k' k) eqn:E'; [|done].
      apply String.eqb_eq in E'. congruence.
    + destruct (String.eqb k' k0); [done|apply IH].
Qed.

End Dict.

Lemma getitem_setitem_eq c k v c' :
  py_setitem c k v = Ok c' -> py_getitem c' k = Ok v.
Proof.
  destruct c; simpl; intros H; try done. injection H as <-. simpl.
  by rewrite dget_dset_eq.
Qed.

Lemma getitem_setitem_ne c k k' v c' :
  k <> k' -> py_setitem c k v = Ok c' -> py_getitem c' k' = py_getitem c k'.
Proof.
  intros Hne. destruct c; simpl; intros H; try done. injection H as <-. simpl.
  by rewrite dget_dset_ne.
Qed.

(** [int(str(i)) == i] *)
Lemma int_of_str_of_int (z : Z) : int_of_str (str_of_int z) = Ok z.
Proof.
  unfold int_of_str, str_of_int.
  rewrite NilZero.isi.
  - by rewrite DecimalZ.of_to.
  - destruct z as [|p|p]; simpl; intros [= H]. by apply Unsigned.to_uint_nonnil in H.
  - destruct z as [|p|p]; simpl; intros [= H]. by apply Unsigned.to_uint_nonnil in H.
Qed.

(* ===================================================================== *)
(** * The token store *)
(* ===================================================================== *)

Section TokenStore.

Lemma index_lookup_fold_other first (post : list token) (a : Annotations) (w : string) :
  Forall (fun t' => tk_word t' <> w) post ->
  index_lookup (fold_left (add_token first) post a) !! w = index_lookup a !! w.
Proof.
  revert a. induction post as [|t post IH]; intros a Hpost; [reflexivity|].
  apply Forall_cons in Hpost as [Ht Hpost]. simpl.
  rewrite IH by assumption. simpl. by rewrite lookup_insert_ne.
Qed.

Lemma lookup_fold_other first (post : list token) (a : Annotations) (i : Z) :
  Forall (fun t' => tk_index t' <> i) post ->
  lookup (fold_left (add_token first) post a) !! i = lookup a !! i.
Proof.
  revert a. induction post as [|t post IH]; intros a Hpost; [reflexivity|].
  apply Forall_cons in Hpost as [Ht Hpost]. simpl.
  rewrite IH by assumption. simpl. by rewrite lookup_insert_ne.
Qed.

Lemma init_unfold (toks : list token) ds :
  toks <> [] ->
  exists first a0, init toks ds = fold_left (add_token first) toks a0.
Proof.
  destruct toks as [|first rest]; [done|]. intros _. eexists _, _. reflexivity.
Qed.

(** Lookup by word: the last writer wins. *)
Lemma index_lookup_last (pre post : list token) (t : token) ds :
  Forall (fun t' => tk_word t' <> tk_word t) post ->
  index_lookup (init (pre ++ t :: post) ds) !! tk_word t = Some (tk_index t).
Proof.
  intros Hpost.
  destruct (init_unfold (pre ++ t :: post) ds) as (first & a0 & ->).
  { by destruct pre. }
  rewrite fold_left_app. simpl.
  rewrite index_lookup_fold_other by assumption. simpl.
  by rewrite lookup_insert_eq.
Qed.

(** Lookup by index: what the last token of that index wrote. *)
Lemma lookup_last (pre post : list token) (t : token) ds :
  Forall (fun t' => tk_index t' <> tk_index t) post ->
  lookup (init (pre ++ t :: post) ds) !! tk_index t = Some (info_of t).
Proof.
  intros Hpost.
  destruct (init_unfold (pre ++ t :: post) ds) as (first & a0 & ->).
  { by destruct pre. }
  rewrite fold_left_app. simpl.
  rewrite lookup_fold_other by assumption. simpl.
  by rewrite lookup_insert_eq.
Qed.

End TokenStore.

(** C9 (confirmed).  When a sibling is emitted as a related word
    ([add_sibling], lines 232, 249 and 255 of [_check_criteria]), its token
    index is read from the word-to-index map under the word of the graph
    node, and its offsets from the entry of that index.  So when the word
    of the node [sibling_idx] is also the word of a token [t] after which
    no token repeats the word (nor the index), the word emitted carries
    the index and the offsets of [t], the occurrence written last into
    the map, whichever node [sibling_idx] is. *)
Theorem sibling_index_from_word_map
  (pre post : list token) (t : token) (ds : list dependency) (G : graph)
  (dep sibling_idx : string) (n : node_attr) (all_related : list related)
  (conn : option string) :
  nodes G !! sibling_idx = Some n ->
  tk_word t = n_word n ->
  Forall (fun t' => tk_word t' <> n_word n) post ->
  Forall (fun t' => tk_index t' <> tk_index t) post ->
  add_sibling (init (pre ++ t :: post) ds) G dep all_related sibling_idx conn
  = Ok (if bool_decide (sibling_doc dep n t conn ∈ all_related)
        then all_related
        else (all_related ++ [sibling_doc dep n t conn])%list).
Proof.
  intros Hn Hw Hword Hidx.
  unfold add_sibling, G_node, index_of. rewrite Hn. simpl.
  rewrite <- Hw in *. rewrite index_lookup_last by assumption. simpl.
  unfold _add_related. rewrite lookup_last by assumption. simpl.
  rewrite Hw. unfold sibling_doc. by case_bool_decide.
Qed.

(** In "A dose of 5 mg exceeds the usual dose." the unit "mg" hangs on
    the first "dose", node 2; the word emitted is token 9, the second
    one. *)
Lemma sibling_index_from_word_map_witness :
  nodes Scenarios.Dose.G !! "2" = Some Scenarios.Dose.first_dose /\
  add_sibling Scenarios.Dose.A Scenarios.Dose.G "nmod:of" [] "2" None
  = Ok [ {| relationForm := "nmod:of"; rawName := "dose"; tokenIndex := 9;
            offsetStart := 33; offsetEnd := 37; connector := Some "";
            descriptors := None |} ].
Proof.
  split; [reflexivity|].
  apply (sibling_index_from_word_map Scenarios.Dose.pre Scenarios.Dose.post
           Scenarios.Dose.last_dose Scenarios.Dose.dps Scenarios.Dose.G
           "nmod:of" "2" Scenarios.Dose.first_dose [] None).
  - reflexivity.
  - reflexivity.
  - repeat constructor. simpl. discriminate.
  - repeat constructor. simpl. discriminate.
Defined.

(** The same through [_get_related]: the unit "mg" hangs on node 2, the
    related word emitted is token 9, and the descriptor it is given,
    "usual", is the one of token 9. *)
Example second_dose_end_to_end :
  {| e_u := "2"; e_v := "5"; e_dep := "nmod:of" |} ∈ edges Scenarios.Dose.G /\
  found (_get_related Scenarios.Dose.A Scenarios.Dose.G (m_num Scenarios.Dose.m) 10
           Scenarios.Dose.m Scenarios.Dose.tree ∅)
  = Ok (Some [ {| relationForm := "nmod:of"; rawName := "dose"; tokenIndex := 9;
                  offsetStart := 33; offsetEnd := 37; connector := Some "";
                  descriptors :=
                    Some [ {| d_tokenIndex := "8"; d_rawName := "usual" |} ] |} ]).
Proof. split; [vm_compute; set_solver | vm_compute; reflexivity]. Qed.

(* ===================================================================== *)
(** * The measurement aligner *)
(* ===================================================================== *)

Lemma dedup_elem x l : x ∈ py_dedup l -> x ∈ l.
Proof.
  induction l as [|y l IH]; simpl; [done|].
  intros [->|H]%elem_of_cons; [left|right].
  apply list_elem_of_filter in H as [_ H]. auto.
Qed.

Lemma int_not_in_strs z l : Forall is_str l -> existsb (py_eqb (PInt z)) l = false.
Proof. induction 1 as [|x l [s ->] _ IH]; simpl; [done|exact IH]. Qed.

(** [grobid_quantities] leaves ["tokenIndex"] as it found it and makes
    ["tokenIndices"] a list of strings. *)
Lemma align_unit_indices (a : Annotations) (qk qk' : pyval) :
  Grobid.align_unit a qk = Ok qk' ->
  py_getitem qk' "tokenIndex" = py_getitem qk "tokenIndex" /\
  exists ru l, py_getitem qk' "rawUnit" = Ok ru /\
               py_getitem ru "tokenIndices" = Ok (PList l) /\
               Forall is_str l.
Proof.
  unfold Grobid.align_unit. intros H.
  rinv H as ti Eti. rinv H as k Ek. rinv H as info Einfo. rinv H as aft Eaft.
  rinv H as qk1 Eqk1. rinv H as ru Eru. rinv H as us Eus. rinv H as s_idx Es.
  rinv H as ue Eue. rinv H as e_idx Ee. rinv H as us' Eus'. rinv H as qe Eqe.
  rinv H as l3 El3.
  simpl in Eqk1, H.
  rinv Eqk1 as ru0 Eru0. rinv Eqk1 as ru1 Eru1.
  rinv H as ru2 Eru2. rinv H as ru3 Eru3.
  split.
  - rewrite (getitem_setitem_ne qk1 "rawUnit" "tokenIndex" _ _ ltac:(discriminate) H).
    by rewrite (getitem_setitem_ne qk "rawUnit" "tokenIndex" _ _ ltac:(discriminate) Eqk1).
  - eexists _, _. split; [exact (getitem_setitem_eq _ _ _ _ H)|].
    split; [exact (getitem_setitem_eq _ _ _ _ Eru3)|].
    apply Forall_forall. intros x Hx%dedup_elem.
    assert (Hl3 : Forall is_str l3); [|by eapply Forall_forall in Hl3].
    set (l1 := match s_idx with Some i => [PStr (str_of_int i)] | None => [] end) in *.
    set (l2 := match e_idx with
               | Some i => (l1 ++ [PStr (str_of_int i)])%list
               | None => l1
               end) in *.
    assert (Hl2 : Forall is_str l2).
    { subst l2 l1. destruct s_idx, e_idx; repeat constructor; by eexists. }
    destruct (py_eqb us' qe).
    + rinv El3 as ti' Eti'. rinv El3 as s Es'. injection El3 as <-.
      apply Forall_app. split; [done|]. repeat constructor. by eexists.
    + by injection El3 as <-.
Qed.

(** The number's token index is an [int], the unit's token indices are
    [str]s: [tokenIndex in tokenIndices] is false for every unit
    [grobid_quantities] aligned, and the format is never [attached]. *)
Lemma aligned_unit_never_attached (a : Annotations) (qk qk' : pyval) (z : Z)
  (fmt u uidx : pyval) :
  py_getitem qk "tokenIndex" = Ok (PInt z) ->
  Grobid.align_unit a qk = Ok qk' ->
  classify_unit qk' = Ok (fmt, u, uidx) ->
  fmt <> PStr "attached".
Proof.
  intros Hti Ha Hc.
  destruct (align_unit_indices _ _ _ Ha) as (Hti' & ru & l & Hru & Hl & Hstr).
  unfold classify_unit in Hc. rewrite Hti', Hti, Hru in Hc. cbn [rbind] in Hc.
  rewrite Hl in Hc. cbn [rbind py_in] in Hc. rewrite int_not_in_strs in Hc by done.
  rinv Hc as f Ef. rinv Hc as u' Eu. injection Hc as <- _ _.
  rinv Ef as aft Eaft. destruct (py_eqb aft (PStr "-")); by injection Ef as <-.
Qed.

(** C2 (code_bug).  "Use a 10m rope.": the number "10" and the unit "m"
    are one token, index 3.  [grobid_quantities] gives the quantity the
    token index [3] and the unit the token indices [["3"]]; the test of
    line 101 compares an [int] with [str]s, and the format comes out as
    [space_between], not [attached]. *)
Theorem attached_not_detected :
  let ms := Scenarios.matches_of Scenarios.Rope.text Scenarios.Rope.A
              Scenarios.Rope.response in
  map m_num_idx ms = [PStr "3"] /\
  map m_unit_idx ms = [PList [PStr "3"]] /\
  map (fun m => py_get_path (m_grobid m) ["quantity"; "tokenIndex"]) ms = [Ok (PInt 3)] /\
  map m_measurement_format ms = [PStr "space_between"].
Proof. vm_compute. repeat split. Qed.

Lemma select_key_cases d key :
  select_key (PDict d) = Ok key ->
  key = "quantity" \/
  (key = "quantityLeast" /\ dhas "quantityLeast" d = true) \/
  (key = "quantityMost" /\ dhas "quantityLeast" d = false).
Proof.
  unfold select_key. intros H. rinv H as ty Hty.
  destruct (py_eqb ty (PStr "value")); [left; congruence|].
  destruct (py_eqb ty (PStr "interval")); simpl in H; [|done].
  destruct (dhas "quantityLeast" d) eqn:E; simpl in H; right; [left|right];
    split; congruence.
Qed.

Lemma select_key_unsupported d ty :
  dget "type" d = Some ty ->
  select_key (PDict d) = Raise ValueError <->
  py_eqb ty (PStr "value") = false /\ py_eqb ty (PStr "interval") = false.
Proof.
  intros Hty. unfold select_key. simpl. rewrite Hty. simpl.
  destruct (py_eqb ty (PStr "value")); [split; [done|intros [? _]; done]|].
  destruct (py_eqb ty (PStr "interval")); simpl.
  - destruct (dhas "quantityLeast" d); simpl; (split; [done|intros [_ ?]; done]).
  - done.
Qed.

(** Line 123 is never reached: [key] is ["quantityMost"] only when
    ["quantityLeast"] is not in the payload. *)
Lemma number_text_interval d key :
  select_key (PDict d) = Ok key -> key <> "quantity" ->
  number_text key (PDict d) = Ok (PStr "").
Proof.
  intros Hk Hne. apply select_key_cases in Hk as [->|[[-> H]|[-> H]]].
  - by destruct Hne.
  - reflexivity.
  - unfold number_text. simpl. by rewrite H.
Qed.

Lemma nve_bind {X Y} (m : result X) (k : X -> result Y) :
  no_value_error m -> (forall x, m = Ok x -> no_value_error (k x)) ->
  no_value_error (rbind m k).
Proof.
  unfold no_value_error. destruct m; simpl; intros Hm Hk; [by apply Hk | | done].
  intros [= ->]. by apply Hm.
Qed.

Lemma nve_getitem c k : no_value_error (py_getitem c k).
Proof. destruct c; try done. simpl. by destruct (dget k d). Qed.

Lemma nve_in x c : no_value_error (py_in x c).
Proof. destruct c; try done. by destruct x. Qed.

Lemma nve_add x y : no_value_error (py_add x y).
Proof. destruct x, y; done. Qed.

Lemma nve_str x : no_value_error (py_str x).
Proof. destruct x; done. Qed.

Lemma nve_ok {X} (x : X) : no_value_error (Ok x).
Proof. done. Qed.

Create HintDb nve.
#[local] Hint Resolve nve_getitem nve_in nve_add nve_str nve_ok : nve.

Ltac nve :=
  repeat first
    [ solve [auto with nve]
    | apply nve_bind; [|intros ? _]
    | match goal with
      | |- no_value_error (if ?b then _ else _) => destruct b
      | |- no_value_error (match ?x with _ => _ end) => destruct x
      end ].

Lemma nve_classify q : no_value_error (classify_unit q).
Proof. unfold classify_unit. nve. Qed.

Lemma nve_number_text key g : no_value_error (number_text key g).
Proof. unfold number_text. nve. Qed.

#[local] Hint Resolve nve_classify nve_number_text : nve.

Lemma nve_augment_match (a : Annotations) g key :
  select_key g = Ok key -> no_value_error (augment_match a g).
Proof. intros Hk. unfold augment_match. rewrite Hk. cbn [rbind]. nve. Qed.

(** The second half of C7 holds: on a payload with a type,
    [augment_match] raises the [ValueError] of line 95 exactly when the
    type is neither ["value"] nor ["interval"]. *)
Lemma augment_match_unsupported (a : Annotations) d ty :
  dget "type" d = Some ty ->
  augment_match a (PDict d) = Raise ValueError <->
  py_eqb ty (PStr "value") = false /\ py_eqb ty (PStr "interval") = false.
Proof.
  intros Hty. rewrite <- (select_key_unsupported d ty Hty).
  destruct (select_key (PDict d)) as [key|e|] eqn:Hk.
  - split; [|done]. intros H. by apply (nve_augment_match a) in Hk.
  - unfold augment_match. rewrite Hk. cbn [rbind]. split; congruence.
  - unfold augment_match. rewrite Hk. cbn [rbind]. split; congruence.
Qed.

(** Whatever the interval, the match it yields has the empty number
    text. *)
Lemma interval_number_text_empty (a a' : Annotations) d :
  dget "type" d = Some (PStr "interval") ->
  augment_match a (PDict d) = Ok a' ->
  matches a' = matches a \/
  exists m, matches a' = (matches a ++ [m])%list /\ m_num m = PStr "".
Proof.
  intros Hty H. unfold augment_match in H.
  rinv H as key Hkey.
  assert (Hnum : number_text key (PDict d) = Ok (PStr "")).
  { apply number_text_interval; [done|].
    intros ->. unfold select_key in Hkey. simpl in Hkey. rewrite Hty in Hkey.
    simpl in Hkey. by destruct (dhas "quantityLeast" d). }
  rinv H as q Hq. rinv H as hu Hhu. rinv H as hq Hhq. rinv H as fields Hf.
  destruct fields as [[[fmt u] uidx]|]; [|left; congruence].
  rewrite Hnum in H. cbn [rbind] in H.
  rinv H as q' Hq'. rinv H as ti Hti. rinv H as nidx Hn.
  injection H as <-. right. eexists. split; reflexivity.
Qed.

(** C7 (code_bug).  An interval without ["quantityLeast"], and one with
    both bounds "5" and "10": each yields a match whose number text is
    empty, not "5 to 10".  The concatenation of line 123 is guarded by
    [key == "quantityMost" and "quantityLeast" in grobid], which never
    holds. *)
Theorem interval_number_text_is_empty :
  (exists a', augment_match Scenarios.Rope.A Scenarios.upper_bound_only = Ok a' /\
              map m_num (matches a') = [PStr ""]) /\
  (exists a', augment_match Scenarios.Rope.A Scenarios.both_bounds = Ok a' /\
              map m_num (matches a') = [PStr ""]).
Proof. split; eexists; (split; [vm_compute; reflexivity | reflexivity]). Qed.

(* ===================================================================== *)
(** * Cousin search *)
(* ===================================================================== *)

Section TwoVerbs.
Import Scenarios.

(** On a graph without such a cycle the search returns: the subject of
    "returned" is found within two levels. *)
Example cousin_search_returns :
  value_of (_get_cousin Gestation.A Gestation.G (PStr "28") 2 "3" ["nsubj"] ∅)
  = Ok ["patient"].
Proof. vm_compute. reflexivity. Qed.

(** From "Swimming" (node 1), the first edge met leads to "helps" (node
    4), a verb never visited: the search recurses before it counts the
    visit. *)
Lemma bounce_from_1 (recurse : string -> list string -> M (list string)) l :
  recurse "4" verb_labels ∅ = OutOfFuel ->
  cousin_scan Swimming.A Swimming.G Swimming.Num recurse "1" ("nsubj" :: l) ∅
  = OutOfFuel.
Proof.
  intros H. unfold cousin_scan.
  apply sbind_out. rewrite sfold_cons. apply sbind_out.
  change (edges Swimming.G)
    with ({| e_u := "1"; e_v := "4"; e_dep := "nsubj" |} :: tl (edges Swimming.G)).
  rewrite sfold_cons. apply sbind_out.
  vm_compute. vm_compute in H. by rewrite H.
Qed.

(** And from "helps" the same edge leads back to "Swimming", not counted
    either. *)
Lemma bounce_from_4 (recurse : string -> list string -> M (list string)) l :
  recurse "1" verb_labels ∅ = OutOfFuel ->
  cousin_scan Swimming.A Swimming.G Swimming.Num recurse "4" ("nsubj" :: l) ∅
  = OutOfFuel.
Proof.
  intros H. unfold cousin_scan.
  apply sbind_out. rewrite sfold_cons. apply sbind_out.
  change (edges Swimming.G)
    with ({| e_u := "1"; e_v := "4"; e_dep := "nsubj" |} :: tl (edges Swimming.G)).
  rewrite sfold_cons. apply sbind_out.
  vm_compute. vm_compute in H. by rewrite H.
Qed.

Lemma bounce fuel :
  _get_cousin Swimming.A Swimming.G Swimming.Num fuel "1" verb_labels ∅ = OutOfFuel /\
  _get_cousin Swimming.A Swimming.G Swimming.Num fuel "4" verb_labels ∅ = OutOfFuel.
Proof.
  induction fuel as [|n [IH1 IH2]]; [split; reflexivity|].
  split; cbn [_get_cousin]; [apply bounce_from_1 | apply bounce_from_4]; assumption.
Qed.

Lemma bounce_from_start (fuel : nat) :
  _get_cousin Swimming.A Swimming.G Swimming.Num fuel "1" ["nsubj"] ∅ = OutOfFuel.
Proof.
  destruct fuel as [|n]; [reflexivity|].
  cbn [_get_cousin]. apply bounce_from_1. apply bounce.
Qed.

(** The rule for a direct object makes that very call for the match of
    "5 km". *)
Lemma match_never_returns (fuel : nat) :
  _get_related Swimming.A Swimming.G Swimming.Num fuel Swimming.m Swimming.tree ∅
  = OutOfFuel.
Proof.
  pose proof (bounce_from_start fuel) as Hc.
  unfold _get_related. apply sbind_out.
  unfold _parse_patterns. apply sbind_out. revert Hc.
  unfold scan_rules, scan_operators, _check_criteria, apply_action.
  generalize (_get_cousin Swimming.A Swimming.G Swimming.Num fuel). intros c Hc.
  vm_compute. vm_compute in Hc. by rewrite Hc.
Qed.

(** C3 (code_bug).  "Swimming 5 km helps.": two verb nodes, "Swimming"
    (1) and "helps" (4), joined by [nsubj].  The cousin search from node 1
    with the label [nsubj], started with no node visited, does not return
    however deep the recursion may go: every call recurses into the other
    verb before any visit is counted (the counter is raised at lines
    133-137, after the recursive call of line 131 has returned), so the
    cap of two visits is never reached.  The rule for a unit that is a
    direct object makes this call, and the processing of the match of
    "5 km" does not return either. *)
Theorem cousin_search_two_verbs_diverges (fuel : nat) :
  n_pos <$> (nodes Swimming.G !! "1") = Some "VBG" /\
  n_pos <$> (nodes Swimming.G !! "4") = Some "VBZ" /\
  {| e_u := "1"; e_v := "4"; e_dep := "nsubj" |} ∈ edges Swimming.G /\
  _get_cousin Swimming.A Swimming.G Swimming.Num fuel "1" ["nsubj"] ∅ = OutOfFuel /\
  _get_related Swimming.A Swimming.G (m_num Swimming.m) fuel Swimming.m
    Swimming.tree ∅ = OutOfFuel.
Proof.
  split; [reflexivity|]. split; [reflexivity|]. split; [left|].
  split; [apply bounce_from_start | apply match_never_returns].
Qed.

(** C4 (code_bug).  "The patient was asked to take 5 mg and drink 10
    ml.", with a rule that sends a verb sibling to its [xcomp] or [advcl]
    cousin.  Processed first, the match of "10 ml" gets the related word
    "patient"; processed after the match of "5 mg" it gets nothing: the
    first match left the counter of the verb "asked" at 2 in the
    dictionary bound to the default argument [visited_nodes={}], and the
    second search treats "asked" as a dead end. *)
Theorem second_match_depends_on_first :
  let run m := _get_related Asked.A Asked.G (m_num m) 10 m Asked.tree in
  found (run Asked.second ∅) = Ok (Some [Asked.patient_via "drink"]) /\
  found (run Asked.first ∅) = Ok (Some [Asked.patient_via "take"]) /\
  state_after (run Asked.first ∅) !! "4" = Some 2%nat /\
  found (run Asked.second (state_after (run Asked.first ∅))) = Ok (Some []).
Proof. vm_compute. repeat split. Qed.

End TwoVerbs.

(* ===================================================================== *)
(** * Rules and predicates *)
(* ===================================================================== *)

Section Rules.
Import Scenarios.

(** [_parse_patterns] returns a list on every path, so the test
    [all_related == None] of line 319 is never true. *)
Lemma parse_patterns_returns_list A G Num fuel unit_idx fmt tree v r v' :
  _parse_patterns A G Num fuel unit_idx fmt tree v = Ok (r, v') ->
  exists l, r = Some l.
Proof.
  unfold _parse_patterns. intros H.
  sinv H as all v1 H1. sinv H as all' v2 H2.
  injection H as <- _. eauto.
Qed.

(** An empty first pass is the final result: no second pass is made. *)
Lemma empty_first_pass_is_final A G Num fuel m tree v v1 r m' v2 :
  _parse_patterns A G Num fuel (m_unit_idx m) (m_measurement_format m) tree v
    = Ok (Some [], v1) ->
  _get_related A G Num fuel m tree v = Ok (r, m', v2) ->
  r = Some [].
Proof.
  intros Hfirst H. unfold _get_related in H.
  sinv H as first w1 H1. rewrite Hfirst in H1. injection H1 as <- <-.
  sinv H as all w2 H2. injection H2 as <- <-.
  sinv H as adverbs w3 H3. sinv H as adverbs' w4 H4. sinv H as g1 w5 H5.
  sinv H as p w6 H6. destruct p as [l' g2].
  unfold slift in H6. cbn [reconcile] in H6. injection H6 as <- <- <-.
  by injection H as <- _ _.
Qed.

(** C5 (code_bug).  "The patient returned to Europe at 28 weeks of
    gestation." with rules tagged for the format [uncertain] only.  The
    pass with the match's own format, [space_between], finds no rule and
    yields the empty list; a pass with [uncertain] would yield "patient"
    and "gestation"; [_get_related] returns the empty list.  The retry of
    line 320 is guarded by [all_related == None], and [_parse_patterns]
    returns [[]], never [None]. *)
Theorem no_uncertain_retry :
  let rules := Gestation.plain_rules [PStr "uncertain"] in
  let pass fmt :=
    _parse_patterns Gestation.A Gestation.G (m_num Gestation.m) 10
      (m_unit_idx Gestation.m) fmt rules ∅ in
  m_measurement_format Gestation.m = PStr "space_between" /\
  value_of (pass (PStr "space_between")) = Ok (Some []) /\
  value_of (pass (PStr "uncertain"))
  = Ok (Some [Gestation.patient; Gestation.gestation]) /\
  found (_get_related Gestation.A Gestation.G (m_num Gestation.m) 10
           Gestation.m rules ∅) = Ok (Some []).
Proof. vm_compute. repeat split. Qed.

(** The test of line 226 negates a list, and the list has one element
    per key of [dep_obj]: with any key at all, [pos_not] passes, whatever
    the part of speech of the sibling. *)
Lemma pos_not_always_passes G pos (keys : list string) sibling_idx n :
  nodes G !! sibling_idx = Some n ->
  keys <> [] ->
  pos_passes G "pos_not" pos keys sibling_idx = Ok true.
Proof.
  intros Hn Hk. unfold pos_passes, G_node. simpl. rewrite Hn. simpl.
  by destruct keys.
Qed.

(** C6 (code_bug).  A rule for [nmod:of] that sends nouns to the cousin
    search ([pos_equals] on [NN]) and excludes them with [pos_not] on [NN].
    For the sibling "gestation", whose part of speech is [NN], the
    predicate [pos_not] passes and its action fires: the sibling is
    emitted as a related word. *)
Theorem pos_not_fires_on_excluded_pos :
  let e := {| e_u := "8"; e_v := "10"; e_dep := "nmod:of" |} in
  e ∈ edges Gestation.G /\
  n_pos <$> (nodes Gestation.G !! "10") = Some "NN" /\
  pos_passes Gestation.G "pos_not" "NN"
    ["measurement_types"; "pos_equals"; "pos_not"] "10" = Ok true /\
  value_of (_check_criteria Gestation.A Gestation.G (PStr "28") 10 "nmod:of"
              Gestation.pos_not_rule [] e "10" ∅)
  = Ok [Gestation.word "nmod:of" "gestation" 10 46 55 "" None].
Proof.
  split; [|split; [|split]].
  - vm_compute. set_solver.
  - reflexivity.
  - reflexivity.
  - vm_compute. reflexivity.
Qed.

End Rules.

(* ===================================================================== *)
(** * The result reconciler *)
(* ===================================================================== *)

Lemma returns_bind {X Y} (m : result X) (k : X -> result Y) :
  returns m -> (forall x, m = Ok x -> returns (k x)) -> returns (rbind m k).
Proof.
  unfold returns. destruct m; simpl; intros Hm Hk; [by apply Hk | done | done].
Qed.

Lemma returns_getitem c k : returns (py_getitem c k).
Proof. destruct c; try done. simpl. by destruct (dget k d). Qed.

Lemma returns_setitem c k v : returns (py_setitem c k v).
Proof. by destruct c. Qed.

Lemma returns_in x c : returns (py_in x c).
Proof. destruct c; try done. by destruct x. Qed.

Lemma returns_add x y : returns (py_add x y).
Proof. destruct x, y; done. Qed.

Lemma returns_ok {X} (x : X) : returns (Ok x).
Proof. done. Qed.

Lemma returns_rfold {X Y} (f : Y -> X -> result Y) l acc :
  (forall a x, returns (f a x)) -> returns (rfold f acc l).
Proof.
  intros Hf. revert acc. induction l as [|x l IH]; intros acc; simpl; [done|].
  apply returns_bind; [apply Hf|]. intros; apply IH.
Qed.

Lemma returns_get_path v p : returns (py_get_path v p).
Proof.
  revert v. induction p as [|k p IH]; intros v; simpl; [done|].
  apply returns_bind; [apply returns_getitem|]. intros; apply IH.
Qed.

Lemma returns_set_path v p k x : returns (py_set_path v p k x).
Proof.
  revert v. induction p as [|k' p IH]; intros v; simpl; [apply returns_setitem|].
  apply returns_bind; [apply returns_getitem|]. intros sub _.
  apply returns_bind; [apply IH|]. intros; apply returns_setitem.
Qed.

Create HintDb returns.
#[local] Hint Resolve returns_getitem returns_setitem returns_in returns_add
  returns_ok returns_get_path returns_set_path : returns.

Ltac returns_tac :=
  repeat first
    [ solve [auto with returns]
    | apply returns_bind; [|intros ? _]
    | match goal with
      | |- returns (if ?b then _ else _) => destruct b
      | |- returns (match ?x with _ => _ end) => destruct x
      end ].

Lemma returns_own_texts gk : returns (own_texts gk).
Proof. unfold own_texts. returns_tac. Qed.

Lemma returns_duplicates n a b c : returns (duplicates n a b c).
Proof. unfold duplicates. returns_tac. Qed.

Lemma returns_merge_back r t : returns (merge_back r t).
Proof. unfold merge_back. apply returns_rfold. intros a [k x]. returns_tac. Qed.

#[local] Hint Resolve returns_own_texts returns_duplicates returns_merge_back
  : returns.

Lemma remove_first_length x l : (length (remove_first x l) <= length l)%nat.
Proof.
  induction l as [|y l IH]; simpl; [lia|].
  case_bool_decide; simpl; lia.
Qed.

Lemma reconcile_key_returns fuel key i l g :
  (length l <= fuel + i)%nat -> returns (reconcile_key fuel key i l g).
Proof.
  revert i l g. induction fuel as [|fuel IH]; intros i l g Hlen;
    cbn [reconcile_key].
  - rewrite (proj2 (lookup_ge_None l i)) by lia. done.
  - destruct (l !! i) as [rel|]; [|done].
    pose proof (remove_first_length rel l).
    returns_tac; apply IH; lia.
Qed.

(** The loops of the reconciler end: the fuel given to [reconcile_key] is
    enough. *)
Lemma reconcile_returns l g : returns (reconcile l g).
Proof.
  unfold reconcile. destruct l as [|r l]; [done|].
  apply returns_rfold. intros [all g'] key. apply reconcile_key_returns. lia.
Qed.

(** C1 (code_bug).  "The patient returned to Europe at 28 weeks of
    gestation.", unit text "weeks", with rules that look one hop past
    each sibling.  The engine finds the unit word "weeks" itself, twice
    (through "returned" and through "gestation").  The reconciler removes
    the first "weeks" while iterating over the list (line 348): the
    second moves into the position just visited, is skipped, and stays in
    the result. *)
Theorem reconcile_keeps_unit_word :
  let found_first := [Scenarios.Gestation.weeks_at; Scenarios.Gestation.weeks_of] in
  let kept := [Scenarios.Gestation.weeks_of] in
  m_unit Scenarios.Gestation.m = PStr (rawName Scenarios.Gestation.weeks_of) /\
  value_of (_parse_patterns Scenarios.Gestation.A Scenarios.Gestation.G
              (m_num Scenarios.Gestation.m) 10 (m_unit_idx Scenarios.Gestation.m)
              (m_measurement_format Scenarios.Gestation.m)
              Scenarios.Gestation.nmod_rules ∅) = Ok (Some found_first) /\
  (let* r := reconcile found_first (m_grobid Scenarios.Gestation.m) in Ok (fst r))
  = Ok kept /\
  found (_get_related Scenarios.Gestation.A Scenarios.Gestation.G
           (m_num Scenarios.Gestation.m) 10 Scenarios.Gestation.m
           Scenarios.Gestation.nmod_rules ∅) = Ok (Some kept).
Proof. vm_compute. repeat split. Qed.

(* ===================================================================== *)
(** * Descriptors *)
(* ===================================================================== *)

Lemma insert_by_key_elem k x l p : p ∈ insert_by_key k x l <-> p = (k, x) \/ p ∈ l.
Proof.
  induction l as [|[k' y] l IH]; simpl.
  - rewrite list_elem_of_singleton, elem_of_nil. tauto.
  - destruct (k <? k'); rewrite !elem_of_cons; [tauto|]. rewrite IH. tauto.
Qed.

Lemma insert_by_key_sorted k x l :
  StronglySorted Z.le (keys_of l) ->
  StronglySorted Z.le (keys_of (insert_by_key k x l)).
Proof.
  induction l as [|[k' y] l IH]; simpl; intros Hs.
  - repeat constructor.
  - apply StronglySorted_inv in Hs as [Hs Hall].
    destruct (k <? k') eqn:E; simpl.
    + apply Z.ltb_lt in E. constructor; [by constructor|].
      constructor; [lia|]. eapply Forall_impl; [exact Hall|]. simpl. intros; lia.
    + apply Z.ltb_ge in E. constructor; [by apply IH|].
      apply Forall_forall. intros k0 Hk0.
      apply list_elem_of_fmap in Hk0
        as ([k1 z] & -> & [[= -> ->]|Hin]%insert_by_key_elem); simpl.
      * done.
      * eapply Forall_forall in Hall; [exact Hall|].
        apply list_elem_of_fmap. by exists (k1, z).
Qed.

Lemma sort_fold_sorted l acc :
  StronglySorted Z.le (keys_of acc) ->
  StronglySorted Z.le
    (keys_of (fold_left (fun acc '(k, x) => insert_by_key k x acc) l acc)).
Proof.
  revert acc. induction l as [|[k x] l IH]; simpl; intros acc Hs; [done|].
  apply IH. by apply insert_by_key_sorted.
Qed.

Lemma sort_by_key_sorted l : StronglySorted Z.le (keys_of (sort_by_key l)).
Proof. apply sort_fold_sorted. constructor. Qed.

Lemma sort_fold_elem l acc p :
  p ∈ fold_left (fun acc '(k, x) => insert_by_key k x acc) l acc <-> p ∈ l \/ p ∈ acc.
Proof.
  revert acc. induction l as [|[k x] l IH]; simpl; intros acc.
  - rewrite elem_of_nil. tauto.
  - rewrite IH, insert_by_key_elem, elem_of_cons. tauto.
Qed.

Lemma sort_by_key_elem l p : p ∈ sort_by_key l <-> p ∈ l.
Proof. unfold sort_by_key. rewrite sort_fold_elem, elem_of_nil. tauto. Qed.

(** What [ds.sort(key=lambda x: int(x["tokenIndex"]))] leaves: the keys
    ascend. *)
Lemma sort_descriptors_sorted ds sorted :
  sort_descriptors ds = Ok sorted ->
  exists ks, rmap sort_key sorted = Ok ks /\ StronglySorted Z.le ks.
Proof.
  destruct ds; try done. simpl. intros H.
  rinv H as keys Hkeys. injection H as <-.
  exists (keys_of (sort_by_key (combine keys l))). split.
  - apply rmap_keys. apply Forall_forall.
    intros p Hp. apply (proj1 (sort_by_key_elem _ _)) in Hp.
    pose proof (rmap_combine _ _ _ Hkeys) as Hall.
    rewrite Forall_forall in Hall. by apply Hall.
  - apply sort_by_key_sorted.
Qed.

Lemma getitem_in c k v : py_getitem c k = Ok v -> py_in (PStr k) c = Ok true.
Proof.
  destruct c; try done. simpl. unfold dhas. by destruct (dget k d).
Qed.

(** One related word: its descriptors come out sorted, its name is
    untouched, and the projection lists the words of the descriptors in
    the order the sort left them. *)
Lemma simplify_related_spec r name names r' :
  simplify_related r = Ok (name, names, r') ->
  ascending r' /\ py_getitem r' "rawName" = Ok (PStr name) /\
  descriptor_words r' = Ok names.
Proof.
  unfold simplify_related. intros H.
  rinv H as rn Hrn. rinv H as nm Hnm. rinv H as has Hhas.
  assert (rn = PStr nm) as -> by (destruct rn; simpl in Hnm; congruence).
  destruct has.
  - rinv H as ds Hds. rinv H as sorted Hsorted. rinv H as r1 Hr1. rinv H as ns Hns.
    assert (r' = r1) as -> by congruence.
    assert (name = nm) as -> by congruence.
    assert (names = PList ns) as -> by congruence. clear H.
    pose proof (getitem_setitem_eq _ _ _ _ Hr1) as Hget.
    split; [|split].
    + intros ds' Hds'. rewrite Hget in Hds'. injection Hds' as <-.
      by eapply sort_descriptors_sorted.
    + by rewrite (getitem_setitem_ne r "descriptors" "rawName" _ _
                    ltac:(discriminate) Hr1).
    + unfold descriptor_words. rewrite (getitem_in _ _ _ Hget). cbn [rbind].
      rewrite Hget. cbn [rbind as_list]. by rewrite Hns.
  - assert (r' = r) as -> by congruence.
    assert (name = nm) as -> by congruence.
    assert (names = PList []) as -> by congruence. clear H.
    split; [|split; [done|]].
    + intros ds Hds. apply getitem_in in Hds. congruence.
    + unfold descriptor_words. by rewrite Hhas.
Qed.

Lemma projection_entries (out : list (string * pyval * pyval)) d0 name names :
  dget name (fold_left (fun d '(n, ns, _) => dset n ns d) out d0) = Some names ->
  dget name d0 = Some names \/ exists r, (name, names, r) ∈ out.
Proof.
  revert d0. induction out as [|[[n ns] r] out IH]; simpl; intros d0 H; [by left|].
  apply IH in H as [H|[r' H]].
  - destruct (decide (n = name)) as [->|Hne].
    + rewrite dget_dset_eq in H. injection H as ->. right. exists r. left.
    + rewrite dget_dset_ne in H by done. by left.
  - right. exists r'. by right.
Qed.

(* ===================================================================== *)
(** * The top-level function *)
(* ===================================================================== *)



(** With content long enough both services are asked and the result is
    written: the sentence of the sample script, end to end. *)
Example extract_sample :
  let sentence :=
    PDict [("tokens",
            PList (map (fun t =>
                          PDict [("index", PInt (tk_index t));
                                 ("word", PStr (tk_word t));
                                 ("originalText", PStr (tk_originalText t));
                                 ("lemma", PStr (tk_lemma t));
                                 ("pos", PStr (tk_pos t));
                                 ("characterOffsetBegin", PInt (tk_characterOffsetBegin t));
                                 ("characterOffsetEnd", PInt (tk_characterOffsetEnd t));
                                 ("ner", PStr (tk_ner t));
                                 ("after", PStr (tk_after t))])
                       Scenarios.Gestation.toks));
           ("enhanced-plus-plus-dependencies",
            PList (map (fun d =>
                          PDict [("dep", PStr (dp_dep d));
                                 ("governor", PInt (dp_governor d));
                                 ("governorGloss",
                                  PStr (default "" (dp_governorGloss d)));
                                 ("dependent", PInt (dp_dependent d));
                                 ("dependentGloss",
                                  PStr (default "" (dp_dependentGloss d)))])
                       Scenarios.Gestation.dps))] in
  let r := extract (fun _ _ => PDict [("sentences", PList [sentence])])
             (fun _ => Raise ValueError)
             (fun _ _ => Grobid.Json Scenarios.Gestation.response)
             (fun _ _ => "{...}")
             (Scenarios.Gestation.plain_rules [PStr "space_between"]) 10
             {| visited_nodes := ∅; total_sentences := 0; total_measurements := 0 |}
             Scenarios.Gestation.text "http://localhost:9000"
             "http://localhost:8080" (Some "sample_output") false false in
  fst r = [OpenAppend "sample_output";
           Annotate "http://localhost:9000" Scenarios.Gestation.text;
           Quantities Scenarios.Gestation.text "http://localhost:8080";
           Write ("{...}" ++ newline); Close; Summary 1 1] /\
  exists g w, snd r = Ok (Some [PDict [("grobid", g)]], w) /\
              py_getitem g "related"
              = Ok (PList [related_to_py Scenarios.Gestation.patient]).
Proof.
  split; [vm_compute; reflexivity|].
  eexists _, _. split; vm_compute; reflexivity.
Qed.

(* ===================================================================== *)
(** * More on the monads *)
(* ===================================================================== *)

Section StateMonad.

Lemma slift_Ok {X} (r : result X) v x v' : slift r v = Ok (x, v') -> r = Ok x /\ v' = v.
Proof. unfold slift. destruct r; intros H; [|done|done]. by injection H as <- <-. Qed.

Lemma sret_Ok {X} (a x : X) v v' : sret a v = Ok (x, v') -> x = a /\ v' = v.
Proof. unfold sret. by intros [= <- <-]. Qed.

(** A property every iteration keeps holds when the loop is left. *)
Lemma sfold_inv {X Y} (I : Y -> gmap string nat -> Prop) (body : Y -> X -> M Y)
  (l : list X) acc v acc' v' :
  (forall a x w a' w', x ∈ l -> I a w -> body a x w = Ok (a', w') -> I a' w') ->
  I acc v -> sfold body acc l v = Ok (acc', v') -> I acc' v'.
Proof.
  revert acc v. induction l as [|x l IH]; intros acc v Hbody Hacc H.
  - by injection H as <- <-.
  - simpl in H. sinv H as a1 v1 H1. apply (IH a1 v1); [|by eapply Hbody; [left|..]|done].
    intros a y w a' w' Hy. apply Hbody. by right.
Qed.

Lemma rfold_inv {X Y} (I : Y -> Prop) (body : Y -> X -> result Y) (l : list X) acc acc' :
  (forall a x a', x ∈ l -> I a -> body a x = Ok a' -> I a') ->
  I acc -> rfold body acc l = Ok acc' -> I acc'.
Proof.
  revert acc. induction l as [|x l IH]; intros acc Hbody Hacc H.
  - by injection H as <-.
  - simpl in H. rinv H as a1 H1. apply (IH a1); [|by eapply Hbody; [left|..]|done].
    intros a y a' Hy. apply Hbody. by right.
Qed.

Lemma sfold_ext {X Y} (body body' : Y -> X -> M Y) l acc v :
  (forall a x w, x ∈ l -> body a x w = body' a x w) ->
  sfold body acc l v = sfold body' acc l v.
Proof.
  revert acc v. induction l as [|x l IH]; intros acc v Hbody; simpl; [done|].
  unfold sbind. rewrite Hbody by left. destruct (body' acc x v) as [[a v1]| |]; try done.
  apply IH. intros b y w Hy. apply Hbody. by right.
Qed.

Lemma returns_sbind {X Y} (m : M X) (k : X -> M Y) v :
  returns (m v) -> (forall x v1, m v = Ok (x, v1) -> returns (k x v1)) ->
  returns (sbind m k v).
Proof.
  unfold returns, sbind. destruct (m v) as [[x v1]| |]; intros Hm Hk; [by apply Hk|done|done].
Qed.

Lemma returns_slift {X} (r : result X) v : returns r -> returns (slift r v).
Proof. unfold returns, slift. by destruct r. Qed.

Lemma returns_sfold {X Y} (body : Y -> X -> M Y) l acc v :
  (forall a x w, x ∈ l -> returns (body a x w)) -> returns (sfold body acc l v).
Proof.
  revert acc v. induction l as [|x l IH]; intros acc v Hbody; simpl; [done|].
  apply returns_sbind; [apply Hbody; left|]. intros a v1 _. apply IH.
  intros b y w Hy. apply Hbody. by right.
Qed.

End StateMonad.

Tactic Notation "slinv" hyp(H) "as" ident(x) ident(Hx) :=
  let v := fresh "v" in
  apply sbind_Ok in H as (x & v & Hx & H);
  apply slift_Ok in Hx as [Hx ->].

Lemma py_eqb_str v s : py_eqb v (PStr s) = true -> v = PStr s.
Proof. destruct v; simpl; try done. by intros ->%String.eqb_eq. Qed.

Lemma dhas_dset {V} k k' (v : V) d :
  dhas k' (dset k v d) = dhas k' d || String.eqb k' k.
Proof.
  unfold dhas. destruct (String.eqb k' k) eqn:E.
  - apply String.eqb_eq in E. subst k'. rewrite dget_dset_eq. by rewrite orb_true_r.
  - rewrite dget_dset_ne; [by rewrite orb_false_r|].
    intros ->. by rewrite String.eqb_refl in E.
Qed.

(* ===================================================================== *)
(** * classes.py: the offset maps, the parse check, the matches *)
(* ===================================================================== *)

Section OffsetMaps.

Lemma insert_fold_lookup {T} (kf vf : T -> Z) (l : list T) (m0 : gmap Z Z) k v :
  NoDup (map kf l) ->
  fold_left (fun m t => <[kf t := vf t]> m) l m0 !! k = Some v <->
  (exists t, t ∈ l /\ kf t = k /\ vf t = v) \/
  (m0 !! k = Some v /\ forall t, t ∈ l -> kf t <> k).
Proof.
  revert m0. induction l as [|t l IH]; intros m0 Hnd; simpl.
  - split; [intros H; right; split; [done|]; by intros t Ht%elem_of_nil|].
    intros [(t & Ht%elem_of_nil & _)|[H _]]; done.
  - apply NoDup_cons in Hnd as [Hnotin Hnd]. rewrite (IH _ Hnd). split.
    + intros [(t' & Ht' & Hk & Hv)|[Hm Hall]].
      * left. exists t'. split; [by right|done].
      * destruct (decide (kf t = k)) as [Heq|Hne].
        -- rewrite Heq, lookup_insert_eq in Hm. injection Hm as Hv.
           left. exists t. split; [left|done].
        -- rewrite lookup_insert_ne in Hm by done. right. split; [done|].
           intros t' [->|Ht']%elem_of_cons; auto.
    + intros [(t' & [->|Ht']%elem_of_cons & Hk & Hv)|[Hm Hall]].
      * right. split; [subst k v; by rewrite lookup_insert_eq|].
        intros t2 Ht2 Heq. apply Hnotin. rewrite Hk, <- Heq.
        apply list_elem_of_fmap. by exists t2.
      * left. by exists t'.
      * right. split.
        -- rewrite lookup_insert_ne; [done|]. apply Hall. left.
        -- intros t' Ht'. apply Hall. by right.
Qed.

Lemma tok_start_fold first l a :
  tok_start (fold_left (add_token first) l a) =
  fold_left (fun m t => <[tk_characterOffsetBegin t - tk_characterOffsetBegin first
                          := tk_index t]> m) l (tok_start a).
Proof. revert a. induction l as [|t l IH]; intros a; simpl; [done|]. by rewrite IH. Qed.

Lemma tok_end_fold first l a :
  tok_end (fold_left (add_token first) l a) =
  fold_left (fun m t => <[tk_characterOffsetEnd t - tk_characterOffsetBegin first
                          := tk_index t]> m) l (tok_end a).
Proof. revert a. induction l as [|t l IH]; intros a; simpl; [done|]. by rewrite IH. Qed.

Lemma NoDup_shift (f : token -> Z) (c : Z) (l : list token) :
  NoDup (map f l) -> NoDup (map (fun t => f t - c) l).
Proof.
  intros H. change (map (fun t => f t - c) l) with ((fun t => f t - c) <$> l).
  replace ((fun t => f t - c) <$> l) with ((fun z => z - c) <$> (f <$> l)).
  - apply NoDup_fmap_2; [|done]. intros x y. lia.
  - by rewrite <- list_fmap_compose.
Qed.

(** X1.  [Annotations.__init__] (lines 65-68): when no two tokens begin
    at the same character and no two end at the same character, [tok_start]
    sends an offset to an index exactly when a token of that index begins
    at that offset, counted from the beginning of the first token, and
    [tok_end] does the same for the ends. *)
Theorem offset_maps_entries (first : token) (rest : list token) (ds : list dependency)
  (o i : Z) :
  NoDup (map tk_characterOffsetBegin (first :: rest)) ->
  NoDup (map tk_characterOffsetEnd (first :: rest)) ->
  (tok_start (init (first :: rest) ds) !! o = Some i <->
   exists t, t ∈ first :: rest /\
     tk_characterOffsetBegin t - tk_characterOffsetBegin first = o /\ tk_index t = i) /\
  (tok_end (init (first :: rest) ds) !! o = Some i <->
   exists t, t ∈ first :: rest /\
     tk_characterOffsetEnd t - tk_characterOffsetBegin first = o /\ tk_index t = i).
Proof.
  intros Hb He. unfold init. split.
  - rewrite tok_start_fold. cbn [tok_start].
    rewrite insert_fold_lookup by (by apply NoDup_shift).
    rewrite lookup_empty. split; [intros [H|[H _]]; done|by left].
  - rewrite tok_end_fold. cbn [tok_end].
    rewrite insert_fold_lookup by (by apply NoDup_shift).
    rewrite lookup_empty. split; [intros [H|[H _]]; done|by left].
Qed.

(** "The patient returned to Europe at 28 weeks of gestation.": the
    token that begins at offset 37 and the token that ends at offset 42
    are both "weeks", index 8. *)
Lemma offset_maps_entries_witness :
  tok_start Scenarios.Gestation.A !! 37 = Some 8 /\
  tok_end Scenarios.Gestation.A !! 42 = Some 8.
Proof.
  assert (Hb : NoDup (map tk_characterOffsetBegin Scenarios.Gestation.toks))
    by (apply (bool_decide_unpack _); vm_compute; exact I).
  assert (He : NoDup (map tk_characterOffsetEnd Scenarios.Gestation.toks))
    by (apply (bool_decide_unpack _); vm_compute; exact I).
  split.
  - apply (offset_maps_entries _ _ Scenarios.Gestation.dps 37 8 Hb He).
    exists (Scenarios.tok 8 "weeks" "NNS" 37 42 " ").
    split; [do 7 right; left|done].
  - apply (offset_maps_entries _ _ Scenarios.Gestation.dps 42 8 Hb He).
    exists (Scenarios.tok 8 "weeks" "NNS" 37 42 " ").
    split; [do 7 right; left|done].
Defined.

End OffsetMaps.

Lemma check_output_cases (a : Annotations) :
  check_output a = Ok true \/ check_output a = Raise AttributeError.
Proof.
  unfold check_output. induction (deps a) as [|d ds IH]; simpl; [by left|].
  destruct (dp_dependentGloss d), (dp_governorGloss d); auto.
Qed.

(** X2.  [Annotations.check_output] (lines 135-144) returns [True]
    exactly when every dependency has both glosses.  Otherwise it raises
    [AttributeError], for [Stats] has no method [parse_error]: it never
    returns [False]. *)
Theorem check_output_never_false (a : Annotations) :
  (check_output a = Ok true <-> Forall glossed (deps a)) /\
  (check_output a = Ok true \/ check_output a = Raise AttributeError).
Proof.
  split; [|apply check_output_cases].
  unfold check_output. induction (deps a) as [|d ds IH]; simpl.
  - split; [constructor|done].
  - destruct (dp_dependentGloss d) as [g1|] eqn:E1, (dp_governorGloss d) as [g2|] eqn:E2.
    + rewrite IH. split.
      * intros H. constructor; [|done]. unfold glossed. rewrite E1, E2. by split.
      * by intros [_ H]%Forall_cons.
    + split; [done|].
      intros [[_ H] _]%Forall_cons. rewrite E2 in H. by destruct H.
    + split; [done|].
      intros [[H _] _]%Forall_cons. rewrite E1 in H. by destruct H.
    + split; [done|].
      intros [[H _] _]%Forall_cons. rewrite E1 in H. by destruct H.
Qed.

(** X3.  [Annotations.augment_match] (lines 82-132), when it returns,
    has touched nothing but [self.matches], and that list it has left as
    it was or given one more match at its end: the match holds the
    payload itself, no sentence number yet, a [str] as the number's token
    index, and one of the three formats (or the empty string, when the
    measurement has neither a unit nor a quantified substance). *)
Theorem augment_match_appends (a a' : Annotations) (grobid : pyval) :
  augment_match a grobid = Ok a' ->
  (tokens a' = tokens a /\ deps a' = deps a /\ lookup a' = lookup a /\
   tok_start a' = tok_start a /\ tok_end a' = tok_end a /\
   index_lookup a' = index_lookup a) /\
  (matches a' = matches a \/
   exists m, matches a' = (matches a ++ [m])%list /\
             m_grobid m = grobid /\ m_sentence m = None /\
             is_str (m_num_idx m) /\ m_measurement_format m ∈ formats).
Proof.
  unfold augment_match. intros H.
  rinv H as key Hkey. rinv H as q Hq. rinv H as hu Hhu. rinv H as hq Hhq.
  rinv H as fields Hf.
  destruct fields as [[[fmt u] uidx]|].
  - rinv H as n Hn. rinv H as q' Hq'. rinv H as ti Hti. rinv H as nidx Hnidx.
    injection H as <-. split; [done|]. right. eexists. split; [reflexivity|].
    simpl. split; [done|]. split; [done|]. split; [by eexists|].
    unfold formats. destruct hu.
    + rinv Hf as c Hc. destruct c as [[f1 u1] x1]. injection Hf as <- <- <-.
      unfold classify_unit in Hc.
      rinv Hc as t1 Ht1. rinv Hc as ru Hru. rinv Hc as tis Htis. rinv Hc as att Hatt.
      rinv Hc as f Hfmt. rinv Hc as u2 Hu2. rinv Hc as ux Hux. injection Hc as <- <- <-.
      destruct att.
      * injection Hfmt as <-. set_solver.
      * rinv Hfmt as aft Haft. destruct (py_eqb aft (PStr "-")); injection Hfmt as <-;
          set_solver.
    + destruct hq.
      * rinv Hf as qd Hqd. rinv Hf as u1 Hu1. rinv Hf as hti Hhti. destruct hti; [|done].
        rinv Hf as ti' Hti'. injection Hf as <- <- <-. set_solver.
      * injection Hf as <- <- <-. set_solver.
  - injection H as <-. split; [done|]. by left.
Qed.

(** The interval with the upper bound only, on the annotations of "Use
    a 10m rope.". *)
Lemma augment_match_appends_witness :
  exists a',
    augment_match Scenarios.Rope.A Scenarios.upper_bound_only = Ok a' /\
    exists m, matches a' = (matches Scenarios.Rope.A ++ [m])%list /\
              m_grobid m = Scenarios.upper_bound_only /\
              m_num_idx m = PStr "3" /\ m_measurement_format m = PStr "".
Proof.
  destruct (augment_match Scenarios.Rope.A Scenarios.upper_bound_only) as [a'| |] eqn:E;
    [|vm_compute in E; discriminate..].
  exists a'. split; [reflexivity|].
  destruct (augment_match_appends _ _ _ E) as [_ [Hsame|(m & Hm & Hg & _)]].
  - vm_compute in E. injection E as <-. discriminate.
  - exists m. split; [done|]. split; [done|].
    vm_compute in E. injection E as <-. simpl in Hm. injection Hm as <-. done.
Defined.

(* ===================================================================== *)
(** * grobid.py: the text sent, and the alignment of the answer *)
(* ===================================================================== *)

Section Escaping.

Lemma occurs_app c s t : occurs c (s ++ t) = occurs c s || occurs c t.
Proof. induction s as [|a s IH]; simpl; [done|]. by rewrite IH, orb_assoc. Qed.

Lemma replace_char_removes c by_ s :
  occurs c by_ = false -> occurs c (Grobid.replace_char c by_ s) = false.
Proof.
  intros Hby. induction s as [|a s IH]; simpl; [done|].
  destruct (Ascii.eqb a c) eqn:E.
  - by rewrite occurs_app, Hby, IH.
  - simpl. by rewrite E, IH.
Qed.

Lemma replace_char_keeps_absent d c by_ s :
  occurs d by_ = false -> occurs d s = false ->
  occurs d (Grobid.replace_char c by_ s) = false.
Proof.
  intros Hby. induction s as [|a s IH]; simpl; [done|].
  intros [Ha Hs]%orb_false_iff. destruct (Ascii.eqb a c).
  - by rewrite occurs_app, Hby, IH.
  - simpl. by rewrite Ha, IH.
Qed.

Lemma escaped_from_cons prev c a s :
  escaped_from prev c (String a s)
  = (if Ascii.eqb a c then prev else true) && escaped_from (Ascii.eqb a bslash) c s.
Proof. reflexivity. Qed.

(** Replacing [c] by backslash-[c] leaves every [c] escaped. *)
Lemma replace_char_escapes c s prev :
  Ascii.eqb c bslash = false ->
  escaped_from prev c
    (Grobid.replace_char c (String bslash (String c EmptyString)) s) = true.
Proof.
  intros Hc. revert prev. induction s as [|a s IH]; intros prev; simpl; [done|].
  destruct (Ascii.eqb a c) eqn:E.
  - assert (Hbc : Ascii.eqb bslash c = false) by (by rewrite Ascii.eqb_sym).
    change (escaped_from prev c
              (String bslash
                 (String c (Grobid.replace_char c
                              (String bslash (String c EmptyString)) s)))
            = true).
    rewrite !escaped_from_cons, Hbc, Hc, !Ascii.eqb_refl. apply IH.
  - rewrite escaped_from_cons, E. apply IH.
Qed.

(** A replacement [by_] that escapes its own [d]s and does not end in a
    backslash keeps every [d] escaped. *)
Lemma replace_char_keeps_escaped d c by_ s prev :
  Ascii.eqb c d = false -> Ascii.eqb c bslash = false ->
  (forall p r, escaped_from p d (by_ ++ r) = escaped_from false d r) ->
  escaped_from prev d s = true ->
  escaped_from prev d (Grobid.replace_char c by_ s) = true.
Proof.
  intros Hcd Hcb Hby. revert prev. induction s as [|a s IH]; intros prev; simpl; [done|].
  intros [Ha Hs]%andb_true_iff. destruct (Ascii.eqb a c) eqn:E.
  - apply Ascii.eqb_eq in E. subst a. rewrite Hby. rewrite Hcb in Hs. by apply IH.
  - rewrite escaped_from_cons, Ha. by apply IH.
Qed.

(** X4.  The sentence as [grobid_quantities] puts it between the double
    quotes of the shell command (lines 38-42, 49): every dollar sign and
    every double quote in it follows a backslash, and it holds neither a
    backquote nor a single quote. *)
Theorem escape_shell (s : string) :
  escaped_from false "$"%char (Grobid.escape s) = true /\
  escaped_from false Grobid.dquote (Grobid.escape s) = true /\
  occurs "`"%char (Grobid.escape s) = false /\
  occurs "'"%char (Grobid.escape s) = false.
Proof.
  unfold Grobid.escape, Grobid.backslash. cbn [String.append].
  split; [|split; [|split]].
  - do 4 (apply replace_char_keeps_escaped; [reflexivity|reflexivity|reflexivity|]).
    by apply (replace_char_escapes "$"%char).
  - apply replace_char_keeps_escaped; [reflexivity|reflexivity|reflexivity|].
    do 2 (apply replace_char_keeps_escaped; [reflexivity|reflexivity|reflexivity|]).
    by apply (replace_char_escapes Grobid.dquote).
  - apply replace_char_keeps_absent; [reflexivity|]. by apply replace_char_removes.
  - by apply replace_char_removes.
Qed.

End Escaping.

Section Negative.

Lemma get_occurs n s c : String.get n s = Some c -> occurs c s = true.
Proof.
  revert n. induction s as [|a s IH]; intros n; simpl; [done|].
  destruct n as [|n].
  - intros [= ->]. by rewrite Ascii.eqb_refl.
  - intros H. rewrite (IH _ H). by rewrite orb_true_r.
Qed.

(** X5.  Lines 83-87 of [grobid_quantities] turn a quantity into a
    negative one only on a minus sign read in the sentence: in a sentence
    without any, the quantity is left as Grobid gave it. *)
Theorem no_minus_no_negative (sentence : string) (qk qk' : pyval) :
  occurs "-"%char sentence = false ->
  Grobid.fix_negative sentence qk = Ok qk' -> qk' = qk.
Proof.
  intros Hno H. unfold Grobid.fix_negative in H.
  rinv H as rv Hrv. rinv H as rvs Hrvs. rinv H as c Hc.
  destruct (String.eqb c "-") eqn:E; [|congruence].
  apply String.eqb_eq in E. subst c. unfold Grobid.str_index in Hc.
  destruct (_ || _); [done|].
  destruct (String.get _ sentence) as [ch|] eqn:Hget; [|done].
  injection Hc as ->. apply get_occurs in Hget. congruence.
Qed.

(** The quantity "10" of "Use a 10m rope.". *)
Lemma no_minus_no_negative_witness :
  let qk := PDict [("rawValue", PStr "10"); ("parsedValue", PFloat "10");
                   ("offsetStart", PInt 6); ("offsetEnd", PInt 8)] in
  Grobid.fix_negative Scenarios.Rope.text qk = Ok qk.
Proof.
  intros qk.
  destruct (Grobid.fix_negative Scenarios.Rope.text qk) as [qk'| |] eqn:E;
    [|vm_compute in E; discriminate..].
  f_equal. by apply (no_minus_no_negative Scenarios.Rope.text qk qk').
Defined.

End Negative.

Section Alignment.

Lemma align_measurement_discards s a q :
  discards q -> Grobid.align_measurement s a q = Ok None.
Proof.
  intros (d & -> & [Hty|(Hty & Hl & Hm)]); unfold Grobid.align_measurement; simpl;
    rewrite Hty; simpl.
  - by destruct (dhas "quantityLeast" d), (dhas "QuantityMost" d).
  - by rewrite Hl, Hm.
Qed.

Lemma align_all_discards s a qs1 q qs2 kept :
  Grobid.align_all s a qs1 = Ok (Some kept) -> discards q ->
  Grobid.align_all s a (qs1 ++ q :: qs2) = Ok None.
Proof.
  revert kept. induction qs1 as [|q1 qs1 IH]; intros kept H Hq; simpl.
  - by rewrite align_measurement_discards.
  - simpl in H. rinv H as r Hr. rewrite Hr. simpl.
    destruct r as [q1'|]; [|done].
    rinv H as rs Hrs. destruct rs as [l|]; [|done].
    by rewrite (IH l).
Qed.

(** X6.  One measurement of type [listc], or one interval with neither
    ["quantityLeast"] nor ["QuantityMost"], makes [grobid_quantities]
    return [{}] (lines 68-77): the measurements aligned before it are
    dropped with it, and those after it are not looked at. *)
Theorem one_discarded_measurement_discards_all
  (service : string -> string -> Grobid.reply) (sentence endpoint : string)
  (a : Annotations) (d : list (string * pyval)) (qs1 qs2 kept : list pyval) (q : pyval) :
  service (Grobid.escape sentence) (Grobid.strip_slash endpoint) = Grobid.Json (PDict d) ->
  dget "measurements" d = Some (PList (qs1 ++ q :: qs2)) ->
  Grobid.align_all (Grobid.escape sentence) a qs1 = Ok (Some kept) ->
  discards q ->
  Grobid.grobid_quantities service sentence a endpoint = Ok (PDict []).
Proof.
  intros Hs Hm Hkept Hq. unfold Grobid.grobid_quantities. rewrite Hs. simpl.
  rewrite Hm. simpl. by rewrite (align_all_discards _ _ _ _ _ _ Hkept Hq).
Qed.

(** "The patient was asked to take 5 mg and drink 10 ml.": Grobid
    reports "5 mg", then a list, then "10 ml". *)
Lemma one_discarded_measurement_discards_all_witness :
  let listc := PDict [("type", PStr "listc")] in
  let five := Scenarios.value_measurement "5" 30 31 "mg" 32 34 in
  let ten := Scenarios.value_measurement "10" 45 47 "ml" 48 50 in
  Grobid.grobid_quantities
    (fun _ _ => Grobid.Json (PDict [("measurements", PList [five; listc; ten])]))
    Scenarios.Asked.text Scenarios.Asked.A "http://localhost:8080" = Ok (PDict []).
Proof.
  intros listc five ten.
  destruct (Grobid.align_all (Grobid.escape Scenarios.Asked.text) Scenarios.Asked.A [five])
    as [[kept|]| |] eqn:E; [|vm_compute in E; discriminate..].
  apply (one_discarded_measurement_discards_all _ _ _ _
           [("measurements", PList [five; listc; ten])] [five] [ten] kept listc).
  - reflexivity.
  - reflexivity.
  - exact E.
  - exists [("type", PStr "listc")]. split; [reflexivity|]. by left.
Defined.

Lemma set_path_other qk k x qk' k' :
  k' <> "rawUnit" -> py_set_path qk ["rawUnit"] k x = Ok qk' ->
  py_getitem qk' k' = py_getitem qk k'.
Proof.
  intros Hne H. simpl in H. rinv H as ru Hru. rinv H as ru' Hru'.
  by apply (getitem_setitem_ne qk "rawUnit" k' _ _ ltac:(done) H).
Qed.

(** [align_unit] writes under ["rawUnit"] only. *)
Lemma align_unit_other_keys a qk qk' k :
  k <> "rawUnit" -> Grobid.align_unit a qk = Ok qk' ->
  py_getitem qk' k = py_getitem qk k.
Proof.
  intros Hne H. unfold Grobid.align_unit in H.
  rinv H as ti Eti. rinv H as k0 Ek. rinv H as info Einfo. rinv H as aft Eaft.
  rinv H as qk1 Eqk1. rinv H as ru Eru. rinv H as us Eus. rinv H as s_idx Es.
  rinv H as ue Eue. rinv H as e_idx Ee. rinv H as us' Eus'. rinv H as qe Eqe.
  rinv H as l3 El3.
  rewrite (set_path_other _ _ _ _ _ Hne H). by rewrite (set_path_other _ _ _ _ _ Hne Eqk1).
Qed.

(** X7.  A measurement that [grobid_quantities] lets through (lines
    62-127) carries, in the sub-record that [augment_match] keys off
    (lines 87-95 of classes.py), the index of the token that begins at the
    ["offsetStart"] of that sub-record: the key chosen by the one and the
    key chosen by the other agree, and ["tokenIndex"] is there to be read
    at line 129. *)
Theorem aligned_number_token (sentence : string) (a : Annotations) (q q' : pyval)
  (key : string) :
  Grobid.align_measurement sentence a q = Ok (Some q') ->
  select_key q' = Ok key ->
  exists qk os i,
    py_getitem q' key = Ok qk /\
    py_getitem qk "offsetStart" = Ok os /\
    Grobid.lookup_int (tok_start a) os = Ok (Some i) /\
    py_getitem qk "tokenIndex" = Ok (PInt i).
Proof.
  unfold Grobid.align_measurement. intros H Hkey.
  rinv H as ty Hty. rinv H as hl Hhl. rinv H as hm Hhm.
  destruct q as [| | | | | |d]; try done.
  simpl in Hty, Hhl, Hhm. injection Hhl as <-. injection Hhm as <-.
  destruct (py_eqb ty (PStr "interval") && negb (dhas "quantityLeast" d)
            && negb (dhas "QuantityMost" d)) eqn:E1; [done|].
  destruct (py_eqb ty (PStr "listc")) eqn:E2; [done|].
  set (k := if py_eqb ty (PStr "interval")
            then if dhas "quantityLeast" d then "quantityLeast" else "quantityMost"
            else if py_eqb ty (PStr "value") then "quantity" else "") in *.
  rinv H as qk Hqk. rinv H as qk1 Hqk1. rinv H as os Hos. rinv H as idx Hidx.
  destruct idx as [i|]; [|done].
  rinv H as qk2 Hqk2. rinv H as hu Hhu. rinv H as qk3 Hqk3. rinv H as q1 Hq1.
  rinv H as hq Hhq.
  assert (Hti : py_getitem qk3 "tokenIndex" = Ok (PInt i)).
  { destruct hu.
    - rewrite (align_unit_other_keys _ _ _ "tokenIndex" ltac:(discriminate) Hqk3).
      exact (getitem_setitem_eq _ _ _ _ Hqk2).
    - assert (qk3 = qk2) as -> by congruence. exact (getitem_setitem_eq _ _ _ _ Hqk2). }
  assert (Hos3 : py_getitem qk3 "offsetStart" = Ok os).
  { destruct hu.
    - rewrite (align_unit_other_keys _ _ _ "offsetStart" ltac:(discriminate) Hqk3).
      by rewrite (getitem_setitem_ne qk1 "tokenIndex" "offsetStart" _ _
                    ltac:(discriminate) Hqk2).
    - assert (qk3 = qk2) as -> by congruence.
      by rewrite (getitem_setitem_ne qk1 "tokenIndex" "offsetStart" _ _
                    ltac:(discriminate) Hqk2). }
  assert (Hk : k <> "quantified" /\ k <> "type").
  { subst k. destruct (py_eqb ty (PStr "interval")), (dhas "quantityLeast" d),
      (py_eqb ty (PStr "value")); done. }
  destruct Hk as [Hkq Hkt].
  assert (Hq'k : py_getitem q' k = Ok qk3).
  { destruct hq.
    - rinv H as qd Hqd. rinv H as qd' Hqd'. rinv H as q2 Hq2. injection H as <-.
      rewrite (getitem_setitem_ne q1 "quantified" k _ _ ltac:(done) Hq2).
      exact (getitem_setitem_eq _ _ _ _ Hq1).
    - assert (q' = q1) as -> by congruence. exact (getitem_setitem_eq _ _ _ _ Hq1). }
  assert (Hq'ty : py_getitem q' "type" = Ok ty).
  { assert (py_getitem q1 "type" = Ok ty) as Hq1ty.
    { rewrite (getitem_setitem_ne (PDict d) k "type" _ _ ltac:(done) Hq1).
      simpl. by rewrite Hty. }
    destruct hq.
    - rinv H as qd Hqd. rinv H as qd' Hqd'. rinv H as q2 Hq2. injection H as <-.
      by rewrite (getitem_setitem_ne q1 "quantified" "type" _ _ ltac:(done) Hq2).
    - by assert (q' = q1) as -> by congruence. }
  assert (Hq'least : py_in (PStr "quantityLeast") q' = Ok (dhas "quantityLeast" d)).
  { assert (py_in (PStr "quantityLeast") q1 = Ok (dhas "quantityLeast" d)) as Hq1l.
    { simpl in Hq1. injection Hq1 as <-. simpl. rewrite dhas_dset.
      destruct (String.eqb "quantityLeast" k) eqn:Ek; [|by rewrite orb_false_r].
      apply String.eqb_eq in Ek. rewrite <- Ek in Hqk. simpl in Hqk.
      unfold dhas. destruct (dget "quantityLeast" d); [done|done]. }
    destruct hq.
    - rinv H as qd Hqd. rinv H as qd' Hqd'. rinv H as q2 Hq2. injection H as <-.
      destruct q1 as [| | | | | |d1]; try done. simpl in Hq2. injection Hq2 as <-.
      simpl. rewrite dhas_dset. simpl. rewrite orb_false_r. exact Hq1l.
    - by assert (q' = q1) as -> by congruence. }
  assert (key = k) as ->.
  { unfold select_key in Hkey. rewrite Hq'ty in Hkey. cbn [rbind] in Hkey.
    subst k. destruct (py_eqb ty (PStr "value")) eqn:Ev.
    - apply py_eqb_str in Ev. subst ty. simpl. congruence.
    - destruct (py_eqb ty (PStr "interval")); [|done].
      rewrite Hq'least in Hkey. cbn [rbind andb] in Hkey.
      destruct (dhas "quantityLeast" d); simpl in Hkey; congruence. }
  exists qk3, os, i. done.
Qed.

(** The quantity "28 weeks" of the sample sentence: token 7 begins at
    offset 34. *)
Lemma aligned_number_token_witness :
  exists q' qk,
    Grobid.align_measurement Scenarios.Gestation.text Scenarios.Gestation.A
      (Scenarios.value_measurement "28" 34 36 "weeks" 37 42) = Ok (Some q') /\
    py_getitem q' "quantity" = Ok qk /\
    py_getitem qk "offsetStart" = Ok (PInt 34) /\
    py_getitem qk "tokenIndex" = Ok (PInt 7).
Proof.
  destruct (Grobid.align_measurement Scenarios.Gestation.text Scenarios.Gestation.A
              (Scenarios.value_measurement "28" 34 36 "weeks" 37 42))
    as [[q'|]| |] eqn:E; [|vm_compute in E; discriminate..].
  assert (Hkey : select_key q' = Ok "quantity")
    by (vm_compute in E; injection E as <-; reflexivity).
  destruct (aligned_number_token _ _ _ _ _ E Hkey) as (qk & os & i & Hq & Hos & Hi & Hti).
  exists q', qk. split; [reflexivity|]. split; [done|].
  vm_compute in E. injection E as <-. vm_compute in Hq. injection Hq as <-.
  split; reflexivity.
Defined.

Lemma split_on_cons c s x rest :
  Grobid.split_on c s = x :: rest ->
  (rest = [] /\ s = x) \/
  (exists s', s = x ++ String c s' /\ Grobid.split_on c s' = rest).
Proof.
  revert x rest. induction s as [|a s IH]; intros x rest; simpl.
  - intros [= <- <-]. by left.
  - destruct (Ascii.eqb a c) eqn:E.
    + apply Ascii.eqb_eq in E. subst a. intros [= <- <-]. right. by exists s.
    + destruct (Grobid.split_on c s) as [|w ws] eqn:Hs.
      * intros [= <- <-]. destruct s; simpl in Hs; [done|].
        destruct (Ascii.eqb a0 c); [done|]. by destruct (Grobid.split_on c s).
      * intros [= <- <-]. destruct (IH w ws eq_refl) as [[-> ->]|(s' & -> & Hs')].
        -- by left.
        -- right. by exists s'.
Qed.

Lemma substring_prefix w t : substring 0 (String.length w) (w ++ t) = w.
Proof.
  induction w as [|a w IH]; simpl; [by destruct t|]. by rewrite IH.
Qed.

Lemma substring_all w : substring 0 (String.length w) w = w.
Proof. induction w as [|a w IH]; simpl; [done|]. by rewrite IH. Qed.

Lemma substring_skip x y k n :
  substring (String.length x + k) n (x ++ y) = substring k n y.
Proof. induction x as [|a x IH]; simpl; [done|]. apply IH. Qed.

Lemma add_to_offset_nonneg nn words : 0 <= Grobid.add_to_offset nn words.
Proof.
  induction words as [|w ws IH]; simpl; [lia|].
  destruct (str_in nn w); lia.
Qed.

(** The offset added is the place, in the raw name, of its first word
    that holds the normalized name. *)
Lemma add_to_offset_position (nn rawName w : string) (before rest : list string) :
  Grobid.split_on " " rawName = (before ++ w :: rest)%list ->
  Forall (fun x => str_in nn x = false) before ->
  str_in nn w = true ->
  substring (Z.to_nat (Grobid.add_to_offset nn (Grobid.split_on " " rawName)))
            (String.length w) rawName = w.
Proof.
  intros Hsplit Hbefore Hw. rewrite Hsplit.
  revert rawName Hsplit. induction before as [|b before IH]; intros rawName Hsplit.
  - simpl. rewrite Hw. simpl. simpl in Hsplit.
    apply split_on_cons in Hsplit as [[_ ->]|(s' & -> & _)].
    + apply substring_all.
    + apply substring_prefix.
  - apply Forall_cons in Hbefore as [Hb Hbefore].
    simpl. rewrite Hb. simpl in Hsplit.
    apply split_on_cons in Hsplit as [[Hnil _]|(s' & -> & Hs')].
    { by destruct before. }
    pose proof (add_to_offset_nonneg nn (before ++ w :: rest)) as Hnn.
    replace (Z.to_nat (Z.of_nat (String.length b) + 1
                       + Grobid.add_to_offset nn (before ++ w :: rest)))
      with (String.length b
            + S (Z.to_nat (Grobid.add_to_offset nn (before ++ w :: rest))))%nat
      by lia.
    rewrite substring_skip. simpl. by apply IH.
Qed.

Lemma str_in_space_split rn : str_in " " rn = false -> Grobid.split_on " " rn = [rn].
Proof.
  induction rn as [|a rn IH]; simpl; [done|].
  destruct (Ascii.eqb a " ") eqn:E.
  - apply Ascii.eqb_eq in E. subst a. simpl. by destruct rn.
  - intros [_ H]%orb_false_iff. by rewrite (IH H).
Qed.

(** X8.  The quantified substance (lines 109-127): when Grobid's raw
    name is a phrase, ["offsetStart"] is moved forward to the first word
    of the phrase that holds the normalized name, and the token index is
    the one of the token that begins there, if any does. *)
Theorem quantified_offset_points_at_word (a : Annotations) (qd qd' : pyval)
  (rn nn w : string) (os : Z) (before rest : list string) :
  py_getitem qd "rawName" = Ok (PStr rn) ->
  py_getitem qd "normalizedName" = Ok (PStr nn) ->
  py_getitem qd "offsetStart" = Ok (PInt os) ->
  Grobid.split_on " " rn = (before ++ w :: rest)%list ->
  Forall (fun x => str_in nn x = false) before ->
  str_in nn w = true ->
  Grobid.align_quantified a qd = Ok qd' ->
  exists off,
    0 <= off /\ substring (Z.to_nat off) (String.length w) rn = w /\
    py_getitem qd' "offsetStart" = Ok (PInt (os + off)) /\
    (forall i, tok_start a !! (os + off) = Some i ->
               py_getitem qd' "tokenIndex" = Ok (PInt i)).
Proof.
  intros Hrn Hnn Hos Hsplit Hbefore Hw H.
  pose proof (add_to_offset_position nn rn w before rest Hsplit Hbefore Hw) as Hsub.
  pose proof (add_to_offset_nonneg nn (Grobid.split_on " " rn)) as Hoff.
  unfold Grobid.align_quantified in H. rewrite Hrn in H.
  cbn [rbind py_in Grobid.as_str] in H.
  assert (Hoffset :
    exists off, 0 <= off /\ substring (Z.to_nat off) (String.length w) rn = w /\
      (if str_in " " rn
       then match Grobid.split_on " " rn with
            | [] => Ok 0
            | _ :: _ => let* nn0 := py_getitem qd "normalizedName" in
                        let* nns := Grobid.as_str nn0 in
                        Ok (Grobid.add_to_offset nns (Grobid.split_on " " rn))
            end
       else Ok 0) = Ok off).
  { destruct (str_in " " rn) eqn:Hsp.
    - exists (Grobid.add_to_offset nn (Grobid.split_on " " rn)).
      split; [done|]. split; [done|].
      rewrite Hnn. cbn [rbind Grobid.as_str]. rewrite Hsplit. by destruct before.
    - exists 0. split; [lia|]. split; [|done].
      rewrite (str_in_space_split _ Hsp) in Hsplit.
      destruct before as [|b before]; simpl in Hsplit.
      + injection Hsplit as -> _. apply substring_all.
      + injection Hsplit as _ Hnil. by destruct before. }
  destruct Hoffset as (off & Hoff' & Hsub' & Heq).
  exists off. split; [done|]. split; [done|].
  assert (Hrun :
    (let* os0 := py_getitem qd "offsetStart" in
     let* os' := py_add os0 (PInt off) in
     let* qd1 := py_setitem qd "offsetStart" os' in
     let* idx := Grobid.lookup_int (tok_start a) os' in
     match idx with
     | Some i => py_setitem qd1 "tokenIndex" (PInt i)
     | None => Ok qd1
     end) = Ok qd').
  { destruct (str_in " " rn); [destruct (Grobid.split_on " " rn)|];
      rewrite Heq in H || injection Heq as <-; exact H. }
  clear H Heq. rewrite Hos in Hrun. cbn [rbind py_add] in Hrun.
  rinv Hrun as qd1 Hqd1. cbn [Grobid.lookup_int Grobid.int_key rbind] in Hrun.
  pose proof (getitem_setitem_eq _ _ _ _ Hqd1) as Hget.
  destruct (tok_start a !! (os + off)) as [i|] eqn:Hi.
  - split.
    + by rewrite (getitem_setitem_ne qd1 "tokenIndex" "offsetStart" _ _
                    ltac:(discriminate) Hrun).
    + intros i' [= <-]. exact (getitem_setitem_eq _ _ _ _ Hrun).
  - injection Hrun as <-. split; [done|]. intros i' [=].
Qed.

(** "It is equal to the total 5 mg dose.", had Grobid named the
    substance "the total 5 mg dose" (from offset 15) and normalized it to
    "dose": the offset is moved by 15, to offset 30, where token 9
    begins. *)
Lemma quantified_offset_points_at_word_witness :
  let qd := PDict [("rawName", PStr "the total 5 mg dose");
                   ("normalizedName", PStr "dose");
                   ("offsetStart", PInt 15); ("offsetEnd", PInt 34)] in
  exists qd',
    Grobid.align_quantified Scenarios.Total.A qd = Ok qd' /\
    substring 15 4 "the total 5 mg dose" = "dose" /\
    py_getitem qd' "offsetStart" = Ok (PInt 30) /\
    py_getitem qd' "tokenIndex" = Ok (PInt 9).
Proof.
  intros qd.
  destruct (Grobid.align_quantified Scenarios.Total.A qd) as [qd'| |] eqn:E;
    [|vm_compute in E; discriminate..].
  exists qd'. split; [reflexivity|].
  destruct (quantified_offset_points_at_word Scenarios.Total.A qd qd'
              "the total 5 mg dose" "dose" "dose" 15 ["the"; "total"; "5"; "mg"] []
              eq_refl eq_refl eq_refl eq_refl)
    as (off & Hoff & Hsub & Hstart & Hidx).
  - repeat constructor.
  - reflexivity.
  - exact E.
  - assert (Hthirty : py_getitem qd' "offsetStart" = Ok (PInt 30))
      by (vm_compute in E; injection E as <-; reflexivity).
    assert (off = 15) as -> by (rewrite Hthirty in Hstart; injection Hstart; lia).
    split; [exact Hsub|]. split; [exact Hstart|]. by apply Hidx.
Defined.

End Alignment.

(* ===================================================================== *)
(** * Measurements.py: the graph *)
(* ===================================================================== *)

Section Graph.

Lemma same_pair_sym e e' :
  same_pair (e_u e) (e_v e) e' = same_pair (e_u e') (e_v e') e.
Proof.
  unfold same_pair.
  rewrite (String.eqb_sym (e_u e') (e_u e)), (String.eqb_sym (e_v e') (e_v e)),
    (String.eqb_sym (e_u e') (e_v e)), (String.eqb_sym (e_v e') (e_u e)).
  destruct (String.eqb (e_u e) (e_u e')), (String.eqb (e_v e) (e_v e')),
    (String.eqb (e_u e) (e_v e')), (String.eqb (e_v e) (e_u e')); reflexivity.
Qed.

Lemma same_pair_congr u v e x y l :
  same_pair u v e = true ->
  same_pair x y e = same_pair x y {| e_u := u; e_v := v; e_dep := l |}.
Proof.
  unfold same_pair. simpl.
  intros [[->%String.eqb_eq ->%String.eqb_eq]%andb_true_iff
         |[->%String.eqb_eq ->%String.eqb_eq]%andb_true_iff]%orb_true_iff.
  - reflexivity.
  - by destruct (String.eqb v x), (String.eqb u y), (String.eqb v y), (String.eqb u x).
Qed.

Lemma same_pair_false u v x y l :
  same_pair u v {| e_u := x; e_v := y; e_dep := l |} = false ->
  ~ (x = u /\ y = v) /\ ~ (x = v /\ y = u).
Proof.
  unfold same_pair. simpl. intros [H1 H2]%orb_false_iff.
  split; intros [-> ->]; by rewrite !String.eqb_refl in *.
Qed.

Lemma same_pair_true u v e :
  same_pair u v e = true <-> (e_u e = u /\ e_v e = v) \/ (e_u e = v /\ e_v e = u).
Proof.
  unfold same_pair. rewrite orb_true_iff, !andb_true_iff, !String.eqb_eq. tauto.
Qed.

(** ** Dictionaries in insertion order *)

Section Items.
Context {V : Type}.
Implicit Types (d : list (string * V)) (k : string) (x : V).

Lemma dhas_elem k d : dhas k d = true <-> k ∈ map fst d.
Proof.
  unfold dhas. induction d as [|[k' x'] d IH]; simpl.
  - split; [done|]. by intros ?%elem_of_nil.
  - rewrite elem_of_cons. destruct (String.eqb_spec k k') as [->|Hne]; [tauto|].
    rewrite IH. split; [by right|]. by intros [?|?].
Qed.

Lemma dset_here k x d : (k, x) ∈ dset k x d.
Proof.
  induction d as [|[k' x'] d IH]; simpl; [left|].
  destruct (String.eqb k k'); [left|by right].
Qed.

Lemma dset_other k x d k' x' : (k', x') ∈ d -> k' <> k -> (k', x') ∈ dset k x d.
Proof.
  intros Hin Hne. induction d as [|[k0 x0] d IH]; simpl; [by apply elem_of_nil in Hin|].
  apply elem_of_cons in Hin as [[= <- <-]|Hin].
  - destruct (String.eqb_spec k k') as [->|_]; [done|left].
  - destruct (String.eqb k k0); right; [|by apply IH].
    done.
Qed.

Lemma dset_elem k x d p : p ∈ dset k x d -> p = (k, x) \/ p ∈ d.
Proof.
  induction d as [|[k0 x0] d IH]; simpl.
  - intros ->%list_elem_of_singleton. by left.
  - destruct (String.eqb k k0).
    + intros [->|Hin]%elem_of_cons; [by left|right; by right].
    + intros [->|Hin]%elem_of_cons; [right; left|].
      destruct (IH Hin); [by left|right; by right].
Qed.

Lemma dset_keys k x d :
  map fst (dset k x d) = if dhas k d then map fst d else (map fst d ++ [k])%list.
Proof.
  unfold dhas. induction d as [|[k0 x0] d IH]; simpl; [done|].
  destruct (String.eqb_spec k k0) as [->|Hne]; simpl; [done|].
  rewrite IH. by destruct (dget k d).
Qed.

Lemma dset_NoDup k x d : NoDup (map fst d) -> NoDup (map fst (dset k x d)).
Proof.
  intros Hnd. rewrite dset_keys. destruct (dhas k d) eqn:E; [done|].
  apply NoDup_app. split; [done|]. split; [|apply NoDup_singleton].
  intros k' Hk' ->%list_elem_of_singleton.
  apply dhas_elem in Hk'. congruence.
Qed.

Lemma dalter_keys (f : V -> V) k d : map fst (dalter f k d) = map fst d.
Proof.
  unfold dalter. rewrite map_map. apply map_ext. intros [k' x]. simpl.
  by destruct (String.eqb k' k).
Qed.

Lemma dalter_elem (f : V -> V) k d k' x :
  (k', x) ∈ dalter f k d <->
  exists x0, (k', x0) ∈ d /\ x = if String.eqb k' k then f x0 else x0.
Proof.
  unfold dalter. rewrite list_elem_of_fmap. split.
  - intros ([k0 x0] & Heq & Hin). simpl in Heq.
    destruct (String.eqb k0 k) eqn:E; injection Heq as -> ->; exists x0; by rewrite ?E.
  - intros (x0 & Hin & ->). exists (k', x0). split; [|done]. simpl.
    by destruct (String.eqb k' k).
Qed.

End Items.

(** ** The adjacency dictionaries *)

Lemma add_node_keeps n a p : p ∈ a -> p ∈ add_node n a.
Proof.
  unfold add_node. destruct (dhas n a) eqn:E; [done|]. intros Hin.
  destruct p as [k x]. apply dset_other; [done|]. intros ->.
  assert (dhas n a = true); [|congruence].
  apply dhas_elem, list_elem_of_fmap. by exists (n, x).
Qed.

Lemma add_node_elem n a p : p ∈ add_node n a -> p ∈ a \/ p = (n, []).
Proof.
  unfold add_node. destruct (dhas n a); [by left|].
  intros [->|?]%dset_elem; auto.
Qed.

Lemma add_node_has n a : n ∈ map fst (add_node n a).
Proof.
  unfold add_node. destruct (dhas n a) eqn:E; [by apply dhas_elem|].
  apply list_elem_of_fmap. exists (n, []). split; [done|]. apply dset_here.
Qed.

Lemma add_node_wf n a : adj_wf a -> adj_wf (add_node n a).
Proof.
  intros [Hk Hn]. split.
  - unfold add_node. destruct (dhas n a); [done|]. by apply dset_NoDup.
  - apply Forall_forall. intros p [Hp| ->]%add_node_elem.
    + by eapply Forall_forall in Hn.
    + simpl. constructor.
Qed.

Lemma dalter_dset_wf k v l a : adj_wf a -> adj_wf (dalter (dset v l) k a).
Proof.
  intros [Hk Hn]. split; [by rewrite dalter_keys|].
  apply Forall_forall. intros [k' nbrs] (nb0 & Hin & ->)%dalter_elem. simpl.
  eapply Forall_forall in Hn; [|exact Hin]. simpl in Hn.
  destruct (String.eqb k' k); [by apply dset_NoDup|done].
Qed.

Lemma add_edge_wf u v l a : adj_wf a -> adj_wf (add_edge u v l a).
Proof.
  intros H. unfold add_edge. by do 2 apply dalter_dset_wf; do 2 apply add_node_wf.
Qed.

(** After [add_edge u v l], [l] is the label between [u] and [v], read
    from either end. *)
Lemma add_edge_linked u v l a :
  linked (add_edge u v l a) u v l /\ linked (add_edge u v l a) v u l.
Proof.
  unfold add_edge. set (a2 := add_node v (add_node u a)).
  assert (Hu : exists nu, (u, nu) ∈ a2).
  { pose proof (add_node_has u a) as ([k x] & -> & Hin)%list_elem_of_fmap.
    exists x. by apply add_node_keeps. }
  assert (Hv : exists nv, (v, nv) ∈ a2).
  { pose proof (add_node_has v (add_node u a)) as ([k x] & -> & Hin)%list_elem_of_fmap.
    by exists x. }
  destruct Hu as [nu Hu], Hv as [nv Hv]. split.
  - eexists. split.
    + apply dalter_elem. eexists. split; [|reflexivity].
      apply dalter_elem. exists nu. split; [done|reflexivity].
    + rewrite String.eqb_refl. destruct (String.eqb u v) eqn:E.
      * apply String.eqb_eq in E. subst v. apply dset_here.
      * apply dset_here.
  - eexists. split.
    + apply dalter_elem. eexists. split; [|reflexivity].
      apply dalter_elem. exists nv. split; [done|reflexivity].
    + rewrite String.eqb_refl. apply dset_here.
Qed.

(** A label between two other nodes stays as it is. *)
Lemma add_edge_other u v l a x y l' :
  ~ (x = u /\ y = v) -> ~ (x = v /\ y = u) ->
  linked a x y l' -> linked (add_edge u v l a) x y l'.
Proof.
  intros H1 H2 (nbrs & Hx & Hy). unfold add_edge.
  eexists. split.
  - apply dalter_elem. eexists. split; [|reflexivity].
    apply dalter_elem. exists nbrs. split; [|reflexivity].
    by do 2 apply add_node_keeps.
  - destruct (String.eqb_spec x v) as [Hxv|Hxv], (String.eqb_spec x u) as [Hxu|Hxu].
    + apply dset_other; [|intros ->; tauto]. apply dset_other; [done|]. intros ->; tauto.
    + apply dset_other; [done|]. intros ->; tauto.
    + apply dset_other; [done|]. intros ->; tauto.
    + done.
Qed.

(** Where a label of [add_edge u v l a] comes from. *)
Lemma add_edge_inv u v l a x y l' :
  linked (add_edge u v l a) x y l' ->
  linked a x y l' \/ (x = u /\ y = v) \/ (x = v /\ y = u).
Proof.
  unfold add_edge. intros (nbrs & Hx & Hy).
  apply dalter_elem in Hx as (nb1 & Hx & ->).
  apply dalter_elem in Hx as (nb0 & Hx & ->).
  assert (H0 : (y, l') ∈ nb0 -> linked a x y l').
  { intros Hin. apply add_node_elem in Hx as [Hx|[= -> ->]]; [|by apply elem_of_nil in Hin].
    apply add_node_elem in Hx as [Hx|[= -> ->]]; [|by apply elem_of_nil in Hin].
    by exists nb0. }
  destruct (String.eqb_spec x v) as [Hxv|Hxv], (String.eqb_spec x u) as [Hxu|Hxu].
  - apply dset_elem in Hy as [[= -> ->]|Hy]; [by auto|].
    apply dset_elem in Hy as [[= -> ->]|Hy]; by auto.
  - apply dset_elem in Hy as [[= -> ->]|Hy]; by auto.
  - apply dset_elem in Hy as [[= -> ->]|Hy]; by auto.
  - by auto.
Qed.

(** ** The enumeration of the edges *)

Lemma edges_at_elem seen n nbrs e :
  e ∈ edges_at seen n nbrs <->
  e_u e = n /\ (e_v e, e_dep e) ∈ nbrs /\ e_v e ∉ seen.
Proof.
  unfold edges_at. rewrite list_elem_of_In, in_flat_map. split.
  - intros ([k l] & Hin%list_elem_of_In & He). simpl in He.
    destruct (existsb (String.eqb k) seen) eqn:E; [done|].
    destruct He as [<-|[]]. simpl. split; [done|]. split; [done|].
    intros Hk%list_elem_of_In.
    assert (existsb (String.eqb k) seen = true); [|congruence].
    apply existsb_exists. exists k. split; [done|apply String.eqb_refl].
  - intros (Hu & Hin & Hseen). exists (e_v e, e_dep e). split; [by apply list_elem_of_In|].
    simpl. destruct (existsb (String.eqb (e_v e)) seen) eqn:E.
    + apply existsb_exists in E as (k & Hk%list_elem_of_In & Hek%String.eqb_eq).
      by rewrite Hek in Hseen.
    + left. destruct e. simpl in *. by subst.
Qed.

Lemma edges_iter_elem seen a e :
  e ∈ edges_iter seen a -> linked a (e_u e) (e_v e) (e_dep e) /\ e_v e ∉ seen.
Proof.
  revert seen. induction a as [|[n nbrs] a IH]; intros seen; simpl.
  - by intros ?%elem_of_nil.
  - intros [(Hu & Hin & Hs)%edges_at_elem|Hin]%elem_of_app.
    + split; [|done]. exists nbrs. split; [rewrite Hu; left|done].
    + apply IH in Hin as [(nb & H1 & H2) Hs]. split.
      * exists nb. split; [by right|done].
      * intros Hv. apply Hs. by right.
Qed.

Lemma edges_iter_distinct seen a : adj_wf a -> distinct_pairs (edges_iter seen a).
Proof.
  revert seen. induction a as [|[n nbrs] a IH]; intros seen [Hk Hn]; simpl; [done|].
  apply NoDup_cons in Hk as [Hnotin Hk]. apply Forall_cons in Hn as [Hnb Hn]. simpl in Hnb.
  assert (Hrest : distinct_pairs (edges_iter (n :: seen) a)) by (by apply IH).
  assert (Hcross : forall e e', e_u e = n -> e' ∈ edges_iter (n :: seen) a ->
                     same_pair (e_u e) (e_v e) e' = false).
  { intros e e' Hu [(nb & H1 & H2) Hs]%edges_iter_elem.
    destruct (same_pair (e_u e) (e_v e) e') eqn:E; [|done]. exfalso.
    apply same_pair_true in E as [[E1 E2]|[E1 E2]].
    - apply Hnotin. rewrite <- Hu, <- E1. apply list_elem_of_fmap. by exists (e_u e', nb).
    - apply Hs. rewrite E2, Hu. left. }
  clear IH Hk Hn Hnotin.
  unfold edges_at. induction nbrs as [|[k l] nbrs IHn]; simpl; [done|].
  apply NoDup_cons in Hnb as [Hk Hnb].
  destruct (existsb (String.eqb k) seen); simpl; [by apply IHn|].
  split; [|by apply IHn].
  apply Forall_app. split.
  - apply Forall_forall. intros e' (Hu & Hin & _)%edges_at_elem.
    destruct (same_pair n k e') eqn:E; [|done]. exfalso.
    apply same_pair_true in E as [[E1 E2]|[E1 E2]].
    + apply Hk. rewrite <- E2. apply list_elem_of_fmap. by exists (e_v e', e_dep e').
    + apply Hk. assert (e_v e' = k) as <- by congruence.
      apply list_elem_of_fmap. by exists (e_v e', e_dep e').
  - apply Forall_forall. intros e' He'.
    by apply (Hcross {| e_u := n; e_v := k; e_dep := l |}).
Qed.

(** A label read from both ends is the label of an edge of the
    enumeration. *)
Lemma edges_iter_linked seen a u v l :
  adj_wf a -> linked a u v l -> linked a v u l -> u ∉ seen -> v ∉ seen ->
  exists e, e ∈ edges_iter seen a /\ same_pair u v e = true /\ e_dep e = l.
Proof.
  revert seen. induction a as [|[n nbrs] a IH]; intros seen [Hk Hn] Huv Hvu Hu Hv.
  - destruct Huv as (? & []%elem_of_nil & _).
  - apply NoDup_cons in Hk as [Hnotin Hk]. apply Forall_cons in Hn as [_ Hn].
    assert (Hkey : forall x nb, (x, nb) ∈ (n, nbrs) :: a -> x = n -> nb = nbrs).
    { intros x nb [[= _ ->]|Hin]%elem_of_cons ->; [done|].
      exfalso. apply Hnotin. apply list_elem_of_fmap. by exists (n, nb). }
    simpl. destruct (decide (u = n)) as [->|Hun].
    { destruct Huv as (nb & H1 & H2). rewrite (Hkey _ _ H1 eq_refl) in H2.
      exists {| e_u := n; e_v := v; e_dep := l |}. split; [|split; [|done]].
      - apply elem_of_app. left. by apply edges_at_elem.
      - apply same_pair_true. by left. }
    destruct (decide (v = n)) as [->|Hvn].
    { destruct Hvu as (nb & H1 & H2). rewrite (Hkey _ _ H1 eq_refl) in H2.
      exists {| e_u := n; e_v := u; e_dep := l |}. split; [|split; [|done]].
      - apply elem_of_app. left. by apply edges_at_elem.
      - apply same_pair_true. by right. }
    destruct (IH (n :: seen)) as (e & He & Hp & Hl).
    + done.
    + destruct Huv as (nb & [[= ? ?]|H1]%elem_of_cons & H2); [done|]. by exists nb.
    + destruct Hvu as (nb & [[= ? ?]|H1]%elem_of_cons & H2); [done|]. by exists nb.
    + by intros [?|?]%elem_of_cons.
    + by intros [?|?]%elem_of_cons.
    + exists e. split; [|done]. apply elem_of_app. by right.
Qed.

(** ** [_build_graph] *)

Lemma add_dep_inv A g d g' :
  add_dep A g d = Ok g' ->
  exists w1 i1 w2 i2,
    lookup A !! dp_dependent d = Some i1 /\ lookup A !! dp_governor d = Some i2 /\
    nodes g' = (<[str_of_int (dp_governor d) := {| n_word := w2; n_pos := li_pos i2 |}]>
                 (<[str_of_int (dp_dependent d) := {| n_word := w1; n_pos := li_pos i1 |}]>
                    (nodes g))) /\
    adj g' = add_edge (str_of_int (dp_dependent d)) (str_of_int (dp_governor d))
               (dp_dep d)
               (add_node (str_of_int (dp_governor d))
                  (add_node (str_of_int (dp_dependent d)) (adj g))).
Proof.
  unfold add_dep. intros H.
  rinv H as w1 Hw1. rinv H as i1 Hi1. rinv H as w2 Hw2. rinv H as i2 Hi2.
  injection H as <-. exists w1, i1, w2, i2. simpl.
  destruct (lookup A !! dp_dependent d); [|done].
  destruct (lookup A !! dp_governor d); [|done].
  simpl in Hi1, Hi2. injection Hi1 as ->. injection Hi2 as ->. done.
Qed.

Lemma linked_add_node n a x y l : linked (add_node n a) x y l <-> linked a x y l.
Proof.
  split; intros (nb & H1 & H2).
  - apply add_node_elem in H1 as [H1|[= -> ->]]; [by exists nb|by apply elem_of_nil in H2].
  - exists nb. split; [by apply add_node_keeps|done].
Qed.

Lemma add_dep_wf A g d g' : add_dep A g d = Ok g' -> adj_wf (adj g) -> adj_wf (adj g').
Proof.
  intros (w1 & i1 & w2 & i2 & _ & _ & _ & ->)%add_dep_inv Hwf.
  by apply add_edge_wf; do 2 apply add_node_wf.
Qed.

Lemma add_dep_nodes A g d g' :
  add_dep A g d = Ok g' -> nodes_from A g -> adj_closed g ->
  nodes_from A g' /\ adj_closed g'.
Proof.
  intros (w1 & i1 & w2 & i2 & Hi1 & Hi2 & Hn & Ha)%add_dep_inv Hnodes Hclosed. split.
  - intros s n. rewrite Hn. intros Hs.
    apply lookup_insert_Some in Hs as [[<- <-]|[_ Hs]]; [by eexists _, _|].
    apply lookup_insert_Some in Hs as [[<- <-]|[_ Hs]]; [by eexists _, _|].
    by apply Hnodes.
  - intros x y l. rewrite Ha, Hn. rewrite !lookup_insert_is_Some'.
    intros [H|[[-> ->]|[-> ->]]]%add_edge_inv; [|by auto..].
    apply linked_add_node, linked_add_node, Hclosed in H as [? ?]. auto.
Qed.

Lemma build_from_nodes A ds g g' :
  build_from A g ds = Ok g' -> nodes_from A g -> adj_closed g ->
  nodes_from A g' /\ adj_closed g'.
Proof.
  revert g. induction ds as [|d ds IH]; simpl; intros g H Hn He.
  - by injection H as <-.
  - rinv H as g1 Hg1. destruct (add_dep_nodes _ _ _ _ Hg1 Hn He). by apply (IH g1).
Qed.

Lemma build_from_wf A ds g g' :
  build_from A g ds = Ok g' -> adj_wf (adj g) -> adj_wf (adj g').
Proof.
  revert g. induction ds as [|d ds IH]; simpl; intros g H Hwf.
  - by injection H as <-.
  - rinv H as g1 Hg1. apply (IH g1 H). by eapply add_dep_wf.
Qed.

Lemma build_graph_wf A g : _build_graph A = Ok g -> adj_wf (adj g).
Proof.
  intros H. apply (build_from_wf _ _ _ _ H). split; constructor.
Qed.

Lemma build_graph_inv (A : Annotations) (g : graph) :
  _build_graph A = Ok g -> nodes_from A g /\ edges_closed g.
Proof.
  intros H. destruct (build_from_nodes _ _ _ _ H) as [Hn Hc].
  - intros s n Hs. simpl in Hs. by rewrite lookup_empty in Hs.
  - intros x y l (nb & []%elem_of_nil & _).
  - split; [done|]. intros e [He _]%edges_iter_elem. by apply Hc in He.
Qed.

Lemma lookup_fold first (l : list token) (a : Annotations) (i : Z) :
  is_Some (lookup (fold_left (add_token first) l a) !! i) <->
  is_Some (lookup a !! i) \/ i ∈ map tk_index l.
Proof.
  revert a. induction l as [|t l IH]; intros a; simpl.
  - split; [by left|]. intros [H|H]; [done|]. by apply elem_of_nil in H.
  - rewrite IH. simpl. rewrite elem_of_cons. split.
    + intros [H|H]; [|by auto].
      destruct (decide (tk_index t = i)) as [<-|Hne]; [by auto|].
      rewrite lookup_insert_ne in H by done. by left.
    + intros [H|[->|H]]; [| |by right].
      * left. destruct (decide (tk_index t = i)) as [<-|Hne].
        -- by rewrite lookup_insert_eq.
        -- by rewrite lookup_insert_ne.
      * left. by rewrite lookup_insert_eq.
Qed.

(** [A.lookup] has an entry for the root and for every token, and no
    other. *)
Lemma lookup_known (toks : list token) (ds : list dependency) (i : Z) :
  is_Some (lookup (init toks ds) !! i) <-> known toks i.
Proof.
  unfold known, init.
  assert (Hroot : is_Some (({[0 := root_info]} : gmap Z tokinfo) !! i) <-> i = 0).
  { split.
    - intros H. destruct (decide (i = 0)) as [->|Hne]; [done|].
      rewrite lookup_singleton_ne in H by done. by destruct H.
    - intros ->. by rewrite lookup_singleton_eq. }
  destruct toks as [|first rest].
  - simpl. rewrite Hroot. split; [by left|]. intros [->|H]; [done|].
    by apply elem_of_nil in H.
  - rewrite lookup_fold. simpl. by rewrite Hroot.
Qed.

Lemma deps_fold first (l : list token) (a : Annotations) :
  deps (fold_left (add_token first) l a) = deps a.
Proof. revert a. induction l as [|t l IH]; intros a; simpl; [done|]. by rewrite IH. Qed.

Lemma deps_init toks ds : deps (init toks ds) = ds.
Proof. unfold init. destruct toks; [done|]. by rewrite deps_fold. Qed.

Lemma build_from_succeeds A ds g :
  Forall glossed ds ->
  Forall (fun d => is_Some (lookup A !! dp_dependent d) /\
                   is_Some (lookup A !! dp_governor d)) ds ->
  exists g', build_from A g ds = Ok g'.
Proof.
  revert g. induction ds as [|d ds IH]; intros g Hg Hk; simpl; [by eexists|].
  apply Forall_cons in Hg as [[[w1 Hw1] [w2 Hw2]] Hg].
  apply Forall_cons in Hk as [[[i1 Hi1] [i2 Hi2]] Hk].
  unfold add_dep. rewrite Hw1, Hw2, Hi1, Hi2. simpl. by apply IH.
Qed.

(** X9.  [_build_graph] (lines 50-75) builds a graph, without raising,
    from annotations whose dependencies all have both glosses and join
    the root (index 0) or tokens of the sentence. *)
Theorem build_graph_succeeds (toks : list token) (ds : list dependency) :
  Forall glossed ds ->
  Forall (fun d => known toks (dp_dependent d) /\ known toks (dp_governor d)) ds ->
  exists g, _build_graph (init toks ds) = Ok g.
Proof.
  intros Hg Hk. unfold _build_graph. rewrite deps_init.
  apply build_from_succeeds; [done|].
  eapply Forall_impl; [exact Hk|]. intros d [H1 H2]. simpl.
  split; by apply lookup_known.
Qed.

(** The sample sentence. *)
Lemma build_graph_succeeds_witness :
  exists g, _build_graph Scenarios.Gestation.A = Ok g.
Proof.
  apply (build_graph_succeeds Scenarios.Gestation.toks Scenarios.Gestation.dps).
  - apply (bool_decide_unpack _). vm_compute. exact I.
  - apply (bool_decide_unpack _). vm_compute. exact I.
Defined.

(** X10.  In the graph [_build_graph] builds (lines 64-75), every node
    is the [str] of an index of [A.lookup] and carries the part of speech
    found under that index, and every edge joins two nodes of the
    graph. *)
Theorem build_graph_nodes (A : Annotations) (g : graph) :
  _build_graph A = Ok g -> nodes_from A g /\ edges_closed g.
Proof. apply build_graph_inv. Qed.

Lemma build_graph_nodes_witness :
  nodes_from Scenarios.Gestation.A Scenarios.Gestation.G /\
  edges_closed Scenarios.Gestation.G.
Proof.
  apply (build_graph_nodes Scenarios.Gestation.A Scenarios.Gestation.G).
  vm_compute. reflexivity.
Defined.

Lemma build_from_keeps A ds g g' x y l :
  build_from A g ds = Ok g' -> linked (adj g) x y l ->
  Forall (fun d' => joins d' {| e_u := x; e_v := y; e_dep := l |} = false) ds ->
  linked (adj g') x y l.
Proof.
  revert g. induction ds as [|d ds IH]; simpl; intros g H Hin Hall.
  - by injection H as <-.
  - rinv H as g1 Hg1. apply Forall_cons in Hall as [Hd Hall].
    apply (IH g1 H); [|done].
    apply add_dep_inv in Hg1 as (w1 & i1 & w2 & i2 & _ & _ & _ & ->).
    apply same_pair_false in Hd as [H1 H2].
    apply add_edge_other; [done..|]. by do 2 apply linked_add_node.
Qed.

Lemma build_from_split A pre d post g g' :
  build_from A g (pre ++ d :: post) = Ok g' ->
  exists g0 g1, build_from A g pre = Ok g0 /\ add_dep A g0 d = Ok g1 /\
                build_from A g1 post = Ok g'.
Proof.
  revert g. induction pre as [|d0 pre IH]; simpl; intros g H.
  - rinv H as g1 Hg1. by exists g, g1.
  - rinv H as g0 Hg0. destruct (IH g0 H) as (ga & gb & ? & ? & ?).
    exists ga, gb. by rewrite Hg0.
Qed.

(** X11.  The graph is a simple graph (line 62, [nx.Graph()]): no two
    of its edges join the same two nodes, and the edge between the two
    words of a dependency carries the label of that dependency when no
    later dependency joins the same two words (line 74: a second
    [add_edge] on the pair overwrites [dep]). *)
Theorem build_graph_last_label (A : Annotations) (g : graph)
  (pre post : list dependency) (d : dependency) :
  _build_graph A = Ok g ->
  deps A = (pre ++ d :: post)%list ->
  Forall (fun d' => joins d' (edge_of d) = false) post ->
  distinct_pairs (edges g) /\
  exists e, e ∈ edges g /\ joins d e = true /\ e_dep e = dp_dep d.
Proof.
  intros H Hdeps Hpost. pose proof (build_graph_wf _ _ H) as Hwf.
  split; [by apply edges_iter_distinct|].
  unfold _build_graph in H.
  rewrite Hdeps in H. apply build_from_split in H as (g0 & g1 & _ & Hd & Hrest).
  pose proof Hd as (w1 & i1 & w2 & i2 & _ & _ & _ & Ha)%add_dep_inv.
  destruct (add_edge_linked (str_of_int (dp_dependent d)) (str_of_int (dp_governor d))
              (dp_dep d)
              (add_node (str_of_int (dp_governor d))
                 (add_node (str_of_int (dp_dependent d)) (adj g0)))) as [Huv Hvu].
  rewrite <- Ha in Huv, Hvu.
  apply (edges_iter_linked [] _ _ _ _ Hwf).
  - apply (build_from_keeps _ _ _ _ _ _ _ Hrest Huv). exact Hpost.
  - apply (build_from_keeps _ _ _ _ _ _ _ Hrest Hvu).
    eapply Forall_impl; [exact Hpost|]. intros d' Hd'. simpl in Hd'.
    unfold joins, edge_of, same_pair in *. simpl in *.
    by destruct (String.eqb _ _), (String.eqb _ _), (String.eqb _ _), (String.eqb _ _).
  - by intros ?%elem_of_nil.
  - by intros ?%elem_of_nil.
Qed.

(** "Swimming 5 km helps.", had the parser linked "helps" and "Swimming"
    twice, with [nsubj] and then with [csubj]: one edge, labelled
    [csubj]. *)
Lemma build_graph_last_label_witness :
  let again := Scenarios.dp "csubj" 4 "helps" 1 "Swimming" in
  let A := init Scenarios.Swimming.toks (Scenarios.Swimming.dps ++ [again]) in
  exists g, _build_graph A = Ok g /\
    distinct_pairs (edges g) /\
    exists e, e ∈ edges g /\ joins again e = true /\ e_dep e = "csubj".
Proof.
  intros again A.
  destruct (_build_graph A) as [g| |] eqn:E; [|vm_compute in E; discriminate..].
  exists g. split; [reflexivity|].
  apply (build_graph_last_label A g Scenarios.Swimming.dps [] again E).
  - reflexivity.
  - constructor.
Defined.

End Graph.

Section Connected.
Context (A : Annotations) (Num : pyval).

Lemma get_connected_inv (e : edge) (idx : pyval) (c : string) :
  _get_connected A Num e idx = Ok (Some c) ->
  exists s info,
    py_str idx = Ok s /\
    ((e_u e = s /\ c = e_v e) \/ (e_v e = s /\ c = e_u e)) /\
    lookup_node A c = Ok info /\
    py_eqb (PStr (li_word info)) Num = false.
Proof.
  unfold _get_connected. intros H. rinv H as s Hs. rinv H as c1 Hc1.
  exists s. destruct c1.
  - injection H as <-. destruct (String.eqb_spec (e_u e) s) as [Hu|Hu]; [|done].
    rinv Hc1 as info Hinfo. injection Hc1 as Hw%negb_true_iff.
    exists info. auto.
  - rinv H as c2 Hc2. destruct c2; [|done]. injection H as <-.
    destruct (String.eqb_spec (e_v e) s) as [Hv|Hv]; [|done].
    rinv Hc2 as info Hinfo. injection Hc2 as Hw%negb_true_iff.
    exists info. auto.
Qed.

(** X12.  [_get_connected] (lines 89-102) gives the same answer for an
    edge and for the same edge with its two ends exchanged: what it
    returns, or raises, does not depend on the orientation in which the
    graph enumerates the edge. *)
Theorem get_connected_flip (e : edge) (idx : pyval) :
  e_u e <> e_v e ->
  _get_connected A Num (flip e) idx = _get_connected A Num e idx.
Proof.
  intros Hne. unfold _get_connected. destruct (py_str idx) as [s| |]; simpl; [|done|done].
  destruct (String.eqb_spec (e_u e) s) as [Hu|Hu], (String.eqb_spec (e_v e) s) as [Hv|Hv].
  - congruence.
  - destruct (lookup_node A (e_v e)) as [info| |]; simpl; [|done|done].
    by destruct (negb _).
  - destruct (lookup_node A (e_u e)) as [info| |]; simpl; [|done|done].
    by destruct (negb _).
  - done.
Qed.

(** X13.  What [_get_connected] returns (lines 99-102), when it returns
    a node, is the other end of an edge that has [str(idx)] as one end,
    and the word of that node, in [A.lookup], is not the number text
    [Num] of the match. *)
Theorem get_connected_other_end (e : edge) (idx : pyval) (c : string) :
  _get_connected A Num e idx = Ok (Some c) ->
  exists s info,
    py_str idx = Ok s /\
    ((e_u e = s /\ c = e_v e) \/ (e_v e = s /\ c = e_u e)) /\
    lookup_node A c = Ok info /\
    py_eqb (PStr (li_word info)) Num = false.
Proof. apply get_connected_inv. Qed.

End Connected.

Lemma get_connected_flip_witness :
  let e := {| e_u := "8"; e_v := "10"; e_dep := "nmod:of" |} in
  _get_connected Scenarios.Gestation.A (PStr "28") (flip e) (PInt 8) = Ok (Some "10") /\
  _get_connected Scenarios.Gestation.A (PStr "28") e (PInt 8) = Ok (Some "10").
Proof.
  intros e. split; [|reflexivity].
  rewrite (get_connected_flip Scenarios.Gestation.A (PStr "28") e (PInt 8));
    [reflexivity|discriminate].
Defined.

(** From "weeks" (8) along its edge to "gestation" (10). *)
Lemma get_connected_other_end_witness :
  let e := {| e_u := "8"; e_v := "10"; e_dep := "nmod:of" |} in
  exists s info,
    py_str (PInt 8) = Ok s /\
    ((e_u e = s /\ "10" = e_v e) \/ (e_v e = s /\ "10" = e_u e)) /\
    lookup_node Scenarios.Gestation.A "10" = Ok info /\
    py_eqb (PStr (li_word info)) (PStr "28") = false.
Proof.
  intros e.
  apply (get_connected_other_end Scenarios.Gestation.A (PStr "28") e (PInt 8) "10").
  reflexivity.
Defined.

(** X14.  On the edges of the graph built from the same annotations,
    [_get_connected] does not raise (lines 99-101): [int(edge[0])] and
    [int(edge[1])] are indices of [A.lookup]. *)
Theorem get_connected_total (A : Annotations) (g : graph) (Num idx : pyval)
  (e : edge) (s : string) :
  _build_graph A = Ok g -> e ∈ edges g -> py_str idx = Ok s ->
  exists r, _get_connected A Num e idx = Ok r.
Proof.
  intros [Hnodes Hedges]%build_graph_inv He Hs.
  destruct (Hedges e He) as [[nu Hu] [nv Hv]].
  destruct (Hnodes _ _ Hu) as (iu & infou & Hsu & Hlu & _).
  destruct (Hnodes _ _ Hv) as (iv & infov & Hsv & Hlv & _).
  unfold _get_connected, lookup_node. rewrite Hs, Hsu, Hsv. simpl.
  rewrite !int_of_str_of_int. simpl. rewrite Hlu, Hlv. simpl.
  destruct (String.eqb (str_of_int iu) s), (String.eqb (str_of_int iv) s); simpl;
    repeat match goal with |- context [negb ?b] => destruct b; simpl end; by eexists.
Qed.

Lemma get_connected_total_witness :
  exists r, _get_connected Scenarios.Gestation.A (PStr "28")
              {| e_u := "8"; e_v := "7"; e_dep := "nummod" |} (PStr "8") = Ok r.
Proof.
  apply (get_connected_total Scenarios.Gestation.A Scenarios.Gestation.G (PStr "28")
           (PStr "8") _ "8").
  - vm_compute. reflexivity.
  - do 8 right. left.
  - reflexivity.
Defined.

(* ===================================================================== *)
(** * Measurements.py: the cousin search *)
(* ===================================================================== *)

Section Cousins.
Context (A : Annotations) (G : graph) (Num : pyval).

Lemma counters_le_refl v : counters_le v v.
Proof. intros k n H. by exists n. Qed.

Lemma counters_le_trans v1 v2 v3 :
  counters_le v1 v2 -> counters_le v2 v3 -> counters_le v1 v3.
Proof.
  intros H12 H23 k n H. destruct (H12 _ _ H) as (n2 & H2 & ?).
  destruct (H23 _ _ H2) as (n3 & H3 & ?). exists n3. split; [done|lia].
Qed.

Lemma bump_le c v x v' : bump c v = Ok (x, v') -> counters_le v v'.
Proof.
  unfold bump, sbind, sget, sput. destruct (v !! c) as [k|] eqn:E; intros [= <- <-].
  - intros k' n H. destruct (decide (c = k')) as [<-|Hne].
    + rewrite lookup_insert_eq. exists (S k). split; [done|]. rewrite E in H.
      injection H as <-. lia.
    + rewrite lookup_insert_ne by done. by exists n.
  - intros k' n H. destruct (decide (c = k')) as [<-|Hne]; [congruence|].
    rewrite lookup_insert_ne by done. by exists n.
Qed.

Lemma cousin_step_post recurse sibling_idx dep_type words e v words' v' :
  (forall s l w r, recurse s l w = Ok r -> cousin_post A G w r) ->
  Forall (noun_word A G) words ->
  cousin_step A G Num recurse sibling_idx dep_type words e v = Ok (words', v') ->
  cousin_post A G v (words', v').
Proof.
  intros Hrec Hwords H. unfold cousin_step in H.
  slinv H as c Hc. destruct (connected c) as [cousin_idx|].
  2: { apply sret_Ok in H as [-> ->]. split; [done|apply counters_le_refl]. }
  sinv H as words1 v1 H1. sinv H as u v2 Hb. apply sret_Ok in H as [-> ->].
  apply bump_le in Hb.
  assert (Forall (noun_word A G) words1 /\ counters_le v v1) as [Hw1 Hv1].
  { destruct (str_in dep_type (e_dep e)).
    2: { apply sret_Ok in H1 as [-> ->]. split; [done|apply counters_le_refl]. }
    slinv H1 as info Hinfo.
    destruct (str_in "NN" (li_pos info) || str_in "PR" (li_pos info)) eqn:Epos.
    - slinv H1 as n Hn. apply sret_Ok in H1 as [-> ->]. split; [|apply counters_le_refl].
      apply Forall_app. split; [done|]. repeat constructor.
      exists cousin_idx, n, info. unfold G_node in Hn.
      destruct (nodes G !! cousin_idx); [|done]. simpl in Hn. injection Hn as ->. done.
    - sinv H1 as vis v3 Hg. unfold sget in Hg. injection Hg as <- <-.
      destruct (str_in "VB" (li_pos info) && may_expand v cousin_idx).
      + sinv H1 as more v4 Hmore. apply sret_Ok in H1 as [-> ->].
        destruct (Hrec _ _ _ _ Hmore) as [Hm Hv]. simpl in Hm, Hv.
        split; [|done]. apply Forall_app. by split.
      + apply sret_Ok in H1 as [-> ->]. split; [done|apply counters_le_refl]. }
  split; [done|]. simpl. by eapply counters_le_trans.
Qed.

Lemma cousin_scan_post recurse sibling_idx dep_type_list v r :
  (forall s l w r, recurse s l w = Ok r -> cousin_post A G w r) ->
  cousin_scan A G Num recurse sibling_idx dep_type_list v = Ok r ->
  cousin_post A G v r /\ NoDup r.1.
Proof.
  intros Hrec H. unfold cousin_scan in H. destruct r as [ws v'].
  sinv H as words v1 Hfold. apply sret_Ok in H as [-> ->].
  assert (Forall (noun_word A G) words /\ counters_le v v1) as [Hw Hv].
  { eapply (sfold_inv (fun a w => Forall (noun_word A G) a /\ counters_le v w));
      [|split; [constructor|apply counters_le_refl]|exact Hfold].
    intros a dep_type w a' w' _ Ha Hinner.
    eapply (sfold_inv (fun a w => Forall (noun_word A G) a /\ counters_le v w));
      [|exact Ha|exact Hinner].
    intros b e w1 b' w1' _ [Hb Hw1] Hstep.
    destruct (cousin_step_post _ _ _ _ _ _ _ _ Hrec Hb Hstep) as [? ?].
    split; [done|]. by eapply counters_le_trans. }
  split; [split|]; simpl.
  - apply Forall_forall. intros w Hin.
    apply (proj1 (elem_of_remove_dups _ _)) in Hin.
    rewrite Forall_forall in Hw. by apply Hw.
  - done.
  - apply NoDup_remove_dups.
Qed.

Lemma get_cousin_post fuel sibling_idx dep_type_list v r :
  _get_cousin A G Num fuel sibling_idx dep_type_list v = Ok r ->
  cousin_post A G v r /\ NoDup r.1.
Proof.
  revert sibling_idx dep_type_list v r.
  induction fuel as [|fuel IH]; intros s l v r H; [done|].
  cbn [_get_cousin] in H. eapply cousin_scan_post; [|exact H].
  intros s' l' w r' Hr. by apply IH in Hr as [? _].
Qed.

(** X15.  The words a cousin search returns (lines 106-138) are
    pairwise distinct (line 138, [set(words)]), and each is the word of a
    node of the graph whose part of speech contains [NN] or [PR] (line
    126): a verb met on the way is passed through, never returned. *)
Theorem get_cousin_nouns (fuel : nat) (sibling_idx : string) (dep_type_list : list string)
  (v v' : gmap string nat) (words : list string) :
  _get_cousin A G Num fuel sibling_idx dep_type_list v = Ok (words, v') ->
  NoDup words /\ Forall (noun_word A G) words.
Proof. intros [[H _] Hnd]%get_cousin_post. done. Qed.

(** X16.  A cousin search only adds to the dictionary [visited_nodes]
    it shares with every other search (lines 133-137): no counter is
    removed, none is lowered, none is reset. *)
Theorem visit_counters_grow (fuel : nat) (sibling_idx : string)
  (dep_type_list : list string) (v v' : gmap string nat) (words : list string) :
  _get_cousin A G Num fuel sibling_idx dep_type_list v = Ok (words, v') ->
  counters_le v v'.
Proof. intros [[_ H] _]%get_cousin_post. done. Qed.

End Cousins.

(** The subject of "returned" in the sample sentence. *)
Lemma get_cousin_nouns_witness :
  NoDup ["patient"] /\
  Forall (noun_word Scenarios.Gestation.A Scenarios.Gestation.G) ["patient"].
Proof.
  apply (get_cousin_nouns Scenarios.Gestation.A Scenarios.Gestation.G (PStr "28") 2 "3"
           ["nsubj"] ∅
           (state_after (_get_cousin Scenarios.Gestation.A Scenarios.Gestation.G
                           (PStr "28") 2 "3" ["nsubj"] ∅))).
  vm_compute. reflexivity.
Defined.

(** The same search started with the counter of "patient" (2) at 5:
    it is 6 afterwards. *)
Lemma visit_counters_grow_witness :
  let v : gmap string nat := {[ "2" := 5%nat ]} in
  let r := _get_cousin Scenarios.Gestation.A Scenarios.Gestation.G (PStr "28") 2 "3"
             ["nsubj"] v in
  value_of r = Ok ["patient"] /\ state_after r !! "2" = Some 6%nat /\
  counters_le v (state_after r).
Proof.
  intros v r. split; [vm_compute; reflexivity|]. split; [vm_compute; reflexivity|].
  apply (visit_counters_grow Scenarios.Gestation.A Scenarios.Gestation.G (PStr "28") 2 "3"
           ["nsubj"] v (state_after r) ["patient"]).
  vm_compute. reflexivity.
Defined.

Section Termination.
Context (A : Annotations) (G : graph) (Num : pyval).

Lemma returns_of_option {X} e (o : option X) : returns (of_option e o).
Proof. by destruct o. Qed.

Lemma returns_lookup_node s : returns (lookup_node A s).
Proof.
  unfold lookup_node, int_of_str. destruct (NilZero.int_of_string s); [|done].
  simpl. apply returns_of_option.
Qed.

Lemma returns_get_connected e idx : returns (_get_connected A Num e idx).
Proof.
  unfold _get_connected.
  apply returns_bind; [by destruct idx|]. intros s _.
  apply returns_bind.
  { destruct (String.eqb (e_u e) s); [|done].
    apply returns_bind; [apply returns_lookup_node|done]. }
  intros c1 _. destruct c1; [done|].
  apply returns_bind; [|intros c2 _; by destruct c2].
  destruct (String.eqb (e_v e) s); [|done].
  apply returns_bind; [apply returns_lookup_node|done].
Qed.

Lemma connected_Some c s : connected c = Some s -> c = Some s.
Proof.
  destruct c as [s'|]; simpl; [|done]. by destruct (String.eqb s' ""); intros [= ->].
Qed.

(** The recursive call of line 131 is made on verbs only, with the three
    labels. *)
Lemma cousin_step_congr recurse recurse' sibling_idx dep_type words e v :
  (forall c w, is_verb A c = true -> recurse c verb_labels w = recurse' c verb_labels w) ->
  cousin_step A G Num recurse sibling_idx dep_type words e v
  = cousin_step A G Num recurse' sibling_idx dep_type words e v.
Proof.
  intros Hrec. unfold cousin_step, sbind, slift.
  destruct (_get_connected A Num e (PStr sibling_idx)) as [c| |]; [|done|done].
  destruct (connected c) as [cousin_idx|]; [|done].
  destruct (str_in dep_type (e_dep e)); [|done].
  destruct (lookup_node A cousin_idx) as [info| |] eqn:Hinfo; [|done|done].
  destruct (str_in "NN" (li_pos info) || str_in "PR" (li_pos info)); [done|].
  unfold sget. destruct (str_in "VB" (li_pos info)) eqn:Hvb; [|done].
  destruct (may_expand v cousin_idx); [|done]. simpl.
  fold verb_labels. rewrite Hrec; [done|]. unfold is_verb. by rewrite Hinfo.
Qed.

(** From a verb, and with the three labels, no recursive call is made
    unless an edge links two verbs with one of them. *)
Lemma verb_step_no_recursion recurse recurse' sibling_idx dep_type words e v :
  verb_link A e = false -> is_verb A sibling_idx = true -> dep_type ∈ verb_labels ->
  cousin_step A G Num recurse sibling_idx dep_type words e v
  = cousin_step A G Num recurse' sibling_idx dep_type words e v.
Proof.
  intros Hlink Hsib Hdep. unfold cousin_step, sbind, slift.
  destruct (_get_connected A Num e (PStr sibling_idx)) as [c| |] eqn:Hc; [|done|done].
  destruct (connected c) as [cousin_idx|] eqn:Hconn; [|done].
  destruct (str_in dep_type (e_dep e)) eqn:Hlabel; [|done].
  destruct (lookup_node A cousin_idx) as [info| |] eqn:Hinfo; [|done|done].
  destruct (str_in "NN" (li_pos info) || str_in "PR" (li_pos info)); [done|].
  unfold sget. destruct (str_in "VB" (li_pos info)) eqn:Hvb; [|done].
  exfalso. apply connected_Some in Hconn. subst c.
  apply get_connected_inv in Hc as (s & info' & [= <-] & Hends & _).
  assert (Hcousin : is_verb A cousin_idx = true) by (unfold is_verb; by rewrite Hinfo).
  assert (Hl : existsb (fun l => str_in l (e_dep e)) verb_labels = true).
  { apply existsb_exists. exists dep_type. split; [by apply list_elem_of_In|done]. }
  unfold verb_link in Hlink. rewrite Hl in Hlink.
  destruct Hends as [[Hu ->]|[Hv ->]].
  - rewrite Hu, Hsib, Hcousin in Hlink. done.
  - rewrite Hv, Hsib, Hcousin in Hlink. done.
Qed.

Lemma returns_bump c v : returns (bump c v).
Proof. unfold bump, sbind, sget, sput. by destruct (v !! c). Qed.

Lemma cousin_step_returns recurse sibling_idx dep_type words e v :
  (forall c w, is_verb A c = true -> returns (recurse c verb_labels w)) ->
  returns (cousin_step A G Num recurse sibling_idx dep_type words e v).
Proof.
  intros Hrec. unfold cousin_step.
  apply returns_sbind; [apply returns_slift, returns_get_connected|]. intros c v1 _.
  destruct (connected c) as [cousin_idx|]; [|done].
  apply returns_sbind; [|intros; apply returns_sbind; [apply returns_bump|done]].
  destruct (str_in dep_type (e_dep e)); [|done].
  apply returns_sbind; [apply returns_slift, returns_lookup_node|].
  intros info v2 Hinfo. apply slift_Ok in Hinfo as [Hinfo ->].
  destruct (str_in "NN" (li_pos info) || str_in "PR" (li_pos info)).
  - apply returns_sbind; [apply returns_slift, returns_of_option|done].
  - apply returns_sbind; [done|]. intros vis v3 _.
    destruct (str_in "VB" (li_pos info)) eqn:Hvb; [|done].
    destruct (may_expand vis cousin_idx); [|done]. simpl.
    apply returns_sbind; [|done]. apply Hrec. unfold is_verb. by rewrite Hinfo.
Qed.

Lemma cousin_scan_congr recurse recurse' sibling_idx dep_type_list v :
  (forall c w, is_verb A c = true -> recurse c verb_labels w = recurse' c verb_labels w) ->
  cousin_scan A G Num recurse sibling_idx dep_type_list v
  = cousin_scan A G Num recurse' sibling_idx dep_type_list v.
Proof.
  intros Hrec. unfold cousin_scan, sbind.
  rewrite (sfold_ext _ (fun words dep_type =>
             sfold (cousin_step A G Num recurse' sibling_idx dep_type) words (edges G)));
    [done|].
  intros a dep_type w _. apply sfold_ext. intros b e w1 _.
  by apply cousin_step_congr.
Qed.

Lemma cousin_scan_returns recurse sibling_idx dep_type_list v :
  (forall c w, is_verb A c = true -> returns (recurse c verb_labels w)) ->
  returns (cousin_scan A G Num recurse sibling_idx dep_type_list v).
Proof.
  intros Hrec. unfold cousin_scan. apply returns_sbind; [|done].
  apply returns_sfold. intros a dep_type w _. apply returns_sfold. intros b e w1 _.
  by apply cousin_step_returns.
Qed.

Hypothesis no_verb_link : Forall (fun e => verb_link A e = false) (edges G).

Lemma verb_scan_no_recursion recurse recurse' sibling_idx v :
  is_verb A sibling_idx = true ->
  cousin_scan A G Num recurse sibling_idx verb_labels v
  = cousin_scan A G Num recurse' sibling_idx verb_labels v.
Proof.
  intros Hsib. unfold cousin_scan, sbind.
  rewrite (sfold_ext _ (fun words dep_type =>
             sfold (cousin_step A G Num recurse' sibling_idx dep_type) words (edges G)));
    [done|].
  intros a dep_type w Hdep. apply sfold_ext. intros b e w1 He.
  apply verb_step_no_recursion; [|done|done].
  rewrite Forall_forall in no_verb_link. by apply no_verb_link.
Qed.

Lemma verb_search_one_level n c w :
  is_verb A c = true ->
  _get_cousin A G Num (S n) c verb_labels w
  = cousin_scan A G Num (fun _ _ => sret []) c verb_labels w.
Proof. intros Hc. cbn [_get_cousin]. by apply verb_scan_no_recursion. Qed.

(** X17.  When no edge of the graph links two verbs with a label that
    holds [nsubj], [nsubjpass] or [acl], the cousin search (lines
    106-138) ends, whatever the visit counters: it returns or raises
    within two levels of recursion, and a deeper bound on the recursion
    changes nothing to what it does. *)
Theorem cousin_search_ends (n : nat) (sibling_idx : string) (dep_type_list : list string)
  (v : gmap string nat) :
  _get_cousin A G Num (S (S n)) sibling_idx dep_type_list v
  = _get_cousin A G Num 2 sibling_idx dep_type_list v /\
  returns (_get_cousin A G Num 2 sibling_idx dep_type_list v).
Proof.
  split.
  - change (cousin_scan A G Num (_get_cousin A G Num (S n)) sibling_idx dep_type_list v
            = cousin_scan A G Num (_get_cousin A G Num 1) sibling_idx dep_type_list v).
    apply cousin_scan_congr. intros c w Hc.
    by rewrite !verb_search_one_level.
  - change (_get_cousin A G Num 2 sibling_idx dep_type_list v)
      with (cousin_scan A G Num (_get_cousin A G Num 1) sibling_idx dep_type_list v).
    apply cousin_scan_returns. intros c w Hc.
    rewrite (verb_search_one_level 0 c w Hc). by apply cousin_scan_returns.
Qed.

End Termination.

(** The sample sentence has one verb. *)
Lemma cousin_search_ends_witness :
  _get_cousin Scenarios.Gestation.A Scenarios.Gestation.G (PStr "28") 7 "8" ["nmod"] ∅
  = _get_cousin Scenarios.Gestation.A Scenarios.Gestation.G (PStr "28") 2 "8" ["nmod"] ∅ /\
  returns (_get_cousin Scenarios.Gestation.A Scenarios.Gestation.G (PStr "28") 2 "8"
             ["nmod"] ∅).
Proof.
  apply (cousin_search_ends Scenarios.Gestation.A Scenarios.Gestation.G (PStr "28")).
  apply (bool_decide_unpack _). vm_compute. exact I.
Defined.

(* ===================================================================== *)
(** * Measurements.py: related words and their descriptors *)
(* ===================================================================== *)

Section AddRelated.
Context (A : Annotations).

Lemma add_related_inv rel dep all idx conn all' :
  _add_related A rel dep all idx conn = Ok all' ->
  exists info st en,
    lookup A !! idx = Some info /\ li_start info = Some st /\ li_end info = Some en /\
    (let doc := {| relationForm := dep; rawName := rel; tokenIndex := idx;
                   offsetStart := st; offsetEnd := en;
                   connector := Some (default "" conn); descriptors := None |} in
     (doc ∈ all /\ all' = all) \/ ((doc ∉ all) /\ all' = (all ++ [doc])%list)).
Proof.
  unfold _add_related. intros H. rinv H as info Hinfo. rinv H as st Hst. rinv H as en Hen.
  exists info, st, en.
  destruct (lookup A !! idx); [|done]. injection Hinfo as ->.
  destruct (li_start info); [|done]. injection Hst as ->.
  destruct (li_end info); [|done]. injection Hen as ->.
  split; [done|]. split; [done|]. split; [done|]. simpl.
  replace (match conn with Some c => c | None => "" end) with (default "" conn) in H
    by by destruct conn.
  case_bool_decide; injection H as <-; auto.
Qed.

(** X18.  [_add_related] (lines 142-164) leaves the list as it is, or
    appends one word to it, a word that was not in it, with the name, the
    relation form and the token index it was called with; on a list
    without duplicates it leaves a list without duplicates; and the same
    call once more changes nothing. *)
Theorem add_related_once (rel dep : string) (all all' : list related) (idx : Z)
  (conn : option string) :
  _add_related A rel dep all idx conn = Ok all' ->
  (all' = all \/
   exists doc, all' = (all ++ [doc])%list /\ (doc ∉ all) /\
               rawName doc = rel /\ relationForm doc = dep /\ tokenIndex doc = idx) /\
  (NoDup all -> NoDup all') /\
  _add_related A rel dep all' idx conn = Ok all'.
Proof.
  intros H. pose proof H as (info & st & en & Hi & Hs & He & Hdoc)%add_related_inv.
  cbv zeta in Hdoc. set (doc := Build_related _ _ _ _ _ _ _) in Hdoc.
  assert (Hin : doc ∈ all').
  { destruct Hdoc as [[Hin ->]|[_ ->]]; [done|]. apply elem_of_app. right. left. }
  split; [|split].
  - destruct Hdoc as [[_ ->]|[Hnotin ->]]; [by left|]. right. by exists doc.
  - intros Hnd. destruct Hdoc as [[_ ->]|[Hnotin ->]]; [done|].
    apply NoDup_app. split; [done|]. split; [|apply NoDup_singleton].
    intros x Hx ->%list_elem_of_singleton. done.
  - unfold _add_related. rewrite Hi. simpl. rewrite Hs, He. simpl.
    replace (match conn with Some c => c | None => "" end) with (default "" conn)
      by by destruct conn.
    fold doc. by rewrite bool_decide_eq_true_2.
Qed.

End AddRelated.

(** "patient", the subject of "returned", added to a list that holds
    "gestation": one word more, and nothing more the second time. *)
Lemma add_related_once_witness :
  let subject := Scenarios.Gestation.word "nsubj" "patient" 2 4 11 "returned" None in
  let noun := Scenarios.Gestation.word "nmod:of" "gestation" 10 46 55 "" None in
  _add_related Scenarios.Gestation.A "patient" "nsubj" [noun] 2 (Some "returned")
  = Ok [noun; subject] /\
  ([noun; subject] = [noun] \/
   exists doc, [noun; subject] = ([noun] ++ [doc])%list /\ (doc ∉ [noun]) /\
               rawName doc = "patient" /\ relationForm doc = "nsubj" /\
               tokenIndex doc = 2) /\
  (NoDup [noun] -> NoDup [noun; subject]) /\
  _add_related Scenarios.Gestation.A "patient" "nsubj" [noun; subject] 2 (Some "returned")
  = Ok [noun; subject].
Proof.
  intros subject noun. split; [reflexivity|].
  apply (add_related_once Scenarios.Gestation.A "patient" "nsubj" [noun]
           [noun; subject] 2 (Some "returned")).
  reflexivity.
Defined.

Section Descriptors.
Context (A : Annotations) (G : graph) (Num : pyval).

Lemma extends_refl rel : extends rel rel.
Proof.
  split; [exists []; by rewrite app_nil_r|]. intros j r Hj Hr. by exists r.
Qed.

Lemma extends_trans r1 r2 r3 : extends r1 r2 -> extends r2 r3 -> extends r1 r3.
Proof.
  intros [(e1 & H1 & Hn1) Hd1] [(e2 & H2 & Hn2) Hd2]. split.
  - exists (e1 ++ e2)%list. split; [by rewrite H2, H1, app_assoc|].
    apply Forall_app. by split.
  - intros j r Hj Hr. destruct (Hd1 _ _ Hj Hr) as (r' & Hj' & Hr'). by apply (Hd2 _ r').
Qed.

Lemma extends_alter (f : related -> related) i rel :
  (forall r, without_descriptors (f r) = without_descriptors r) ->
  (forall r, is_Some (descriptors r) -> is_Some (descriptors (f r))) ->
  extends rel (alter f i rel).
Proof.
  intros Hwd Hsome. split.
  - exists []. split; [|done]. rewrite app_nil_r.
    change (without_descriptors <$> alter f i rel = without_descriptors <$> rel).
    rewrite (list_fmap_alter without_descriptors f id)
      by (apply Forall_forall; intros; apply Hwd).
    by rewrite list_alter_id.
  - intros j r Hj Hr. destruct (decide (i = j)) as [->|Hne].
    + exists (f r). split; [|by apply Hsome]. by rewrite list_lookup_alter_eq, Hj.
    + exists r. split; [|done]. by rewrite list_lookup_alter_ne.
Qed.

Lemma extends_add_related rel dep all idx conn all' :
  dep = "nmod" -> _add_related A rel dep all idx conn = Ok all' -> extends all all'.
Proof.
  intros -> (info & st & en & _ & _ & _ & Hdoc)%add_related_inv. cbv zeta in Hdoc.
  destruct Hdoc as [[_ ->]|[_ ->]]; [apply extends_refl|]. split.
  - eexists [_]. split; [by rewrite map_app|]. by apply Forall_singleton.
  - intros j r Hj Hr. exists r. split; [|done]. by apply lookup_app_l_Some.
Qed.

Lemma descriptor_step_extends fuel i tok rel e v rel' v' :
  descriptor_step A G Num fuel i tok rel e v = Ok (rel', v') -> extends rel rel'.
Proof.
  intros H. unfold descriptor_step in H. slinv H as c Hc.
  destruct (connected c) as [sibling_idx|].
  2: { apply sret_Ok in H as [-> _]. apply extends_refl. }
  slinv H as info Hinfo.
  match type of H with
  | context [if ?b then alter ?f i rel else rel] =>
      set (rel1 := if b then alter f i rel else rel) in H;
      assert (extends rel rel1) as H1
        by (subst rel1; destruct b; [|apply extends_refl];
            apply extends_alter; [done|]; intros r _; by eexists)
  end.
  clearbody rel1.
  destruct (str_in "NN" (li_pos info) && str_in "amod" (e_dep e)).
  - sinv H as additional v1 Hadd.
    eapply (sfold_inv (fun a _ => extends rel a)) in H; [done| |done].
    intros a add w a' w' _ Ha Hbody. apply slift_Ok in Hbody as [Hbody _].
    rinv Hbody as idx Hidx. rinv Hbody as n Hn.
    eapply extends_trans; [exact Ha|]. by eapply extends_add_related.
  - apply sret_Ok in H as [-> _]. done.
Qed.

Lemma add_descriptors_from_spec fuel i rel v rel' v' :
  (forall j r, (j < i)%nat -> rel !! j = Some r -> is_Some (descriptors r)) ->
  add_descriptors_from A G Num fuel i rel v = Ok (rel', v') ->
  extends rel rel' /\ Forall (fun r => is_Some (descriptors r)) rel'.
Proof.
  revert i rel v. induction fuel as [|fuel IH]; intros i rel v Hbefore H.
  - simpl in H. destruct (rel !! i) eqn:Hi; [done|]. apply sret_Ok in H as [-> _].
    split; [apply extends_refl|]. apply Forall_forall. intros r Hr.
    apply list_elem_of_lookup in Hr as [j Hj]. apply (Hbefore j); [|done].
    apply lookup_ge_None in Hi. apply lookup_lt_Some in Hj. lia.
  - cbn [add_descriptors_from] in H. destruct (rel !! i) as [r|] eqn:Hi.
    2: { apply sret_Ok in H as [-> _].
         split; [apply extends_refl|]. apply Forall_forall. intros r Hr.
         apply list_elem_of_lookup in Hr as [j Hj]. apply (Hbefore j); [|done].
         apply lookup_ge_None in Hi. apply lookup_lt_Some in Hj. lia. }
    sinv H as rel1 v1 Hfold.
    assert (H0 : extends rel (alter reset_descriptors i rel)).
    { apply extends_alter; [done|]. intros r0 _. by eexists. }
    assert (H1 : extends (alter reset_descriptors i rel) rel1).
    { eapply (sfold_inv (fun a _ => extends (alter reset_descriptors i rel) a)) in Hfold;
        [done| |apply extends_refl].
      intros a e w a' w' _ Ha Hstep. eapply extends_trans; [exact Ha|].
      by eapply descriptor_step_extends. }
    apply IH in H as [H2 Hall].
    + split; [|done]. eapply extends_trans; [exact H0|]. by eapply extends_trans.
    + intros j r1 Hj Hr1. destruct (decide (j = i)) as [->|Hne].
      * destruct H1 as [_ H1]. destruct (H1 i (reset_descriptors r)) as (r' & Hr' & Hs).
        -- by rewrite list_lookup_alter_eq, Hi.
        -- by eexists.
        -- congruence.
      * assert (j < i)%nat as Hlt by lia.
        destruct (lookup_lt_is_Some_2 rel j) as [r0 Hr0].
        { apply lookup_lt_Some in Hi. lia. }
        pose proof (Hbefore _ _ Hlt Hr0) as Hs0.
        destruct H0 as [_ H0]. destruct (H0 _ _ Hr0 Hs0) as (ra & Hra & Hsa).
        destruct H1 as [_ H1]. destruct (H1 _ _ Hra Hsa) as (rb & Hrb & Hsb).
        congruence.
Qed.

(** X19.  [_add_descriptors] (lines 168-194) drops no related word and
    changes none but in its descriptors: the list it returns is the list
    it was given, word for word and in the same order, followed by words
    of the relation form [nmod]; and every word of it, the added ones
    too, has a list of descriptors. *)
Theorem add_descriptors_keeps_words (fuel : nat) (rel rel' : list related)
  (v v' : gmap string nat) :
  _add_descriptors A G Num fuel rel v = Ok (rel', v') ->
  (exists extra,
     map without_descriptors rel' = (map without_descriptors rel ++ extra)%list /\
     Forall (fun r => relationForm r = "nmod") extra) /\
  Forall (fun r => is_Some (descriptors r)) rel'.
Proof.
  intros H. unfold _add_descriptors in H.
  apply add_descriptors_from_spec in H as [[He _] Hall]; [done|]. intros j r Hj. lia.
Qed.

End Descriptors.

(** "It is equal to the total 5 mg dose.": the related word "dose" gets
    its three descriptors. *)
Lemma add_descriptors_keeps_words_witness :
  let dose := without_descriptors Scenarios.Total.dose in
  value_of (_add_descriptors Scenarios.Total.A Scenarios.Total.G (PStr "5") 10 [dose] ∅)
  = Ok [Scenarios.Total.dose] /\
  (exists extra,
     map without_descriptors [Scenarios.Total.dose]
     = (map without_descriptors [dose] ++ extra)%list /\
     Forall (fun r => relationForm r = "nmod") extra) /\
  Forall (fun r => is_Some (descriptors r)) [Scenarios.Total.dose].
Proof.
  intros dose. split; [vm_compute; reflexivity|].
  apply (add_descriptors_keeps_words Scenarios.Total.A Scenarios.Total.G (PStr "5") 10
           [dose] [Scenarios.Total.dose] ∅
           (state_after (_add_descriptors Scenarios.Total.A Scenarios.Total.G (PStr "5")
                           10 [dose] ∅))).
  vm_compute. reflexivity.
Defined.

Section Engine.
Context (A : Annotations) (G : graph) (Num : pyval).

Lemma index_of_Some w idx : index_of A w = Ok idx -> index_lookup A !! w = Some idx.
Proof. unfold index_of. destruct (index_lookup A !! w); [|done]. by intros [= ->]. Qed.

Lemma add_related_sound rel dep all idx conn all' :
  index_lookup A !! rel = Some idx -> labelled G dep -> Forall (sound A G) all ->
  _add_related A rel dep all idx conn = Ok all' -> Forall (sound A G) all'.
Proof.
  intros Hidx Hdep Hall (info & st & en & Hi & Hs & He & Hdoc)%add_related_inv.
  cbv zeta in Hdoc. destruct Hdoc as [[_ ->]|[_ ->]]; [done|].
  apply Forall_app. split; [done|]. apply Forall_singleton.
  split; [split; [done|by exists info]|done].
Qed.

Lemma add_sibling_sound dep all sibling_idx conn all' :
  labelled G dep -> Forall (sound A G) all ->
  add_sibling A G dep all sibling_idx conn = Ok all' -> Forall (sound A G) all'.
Proof.
  intros Hdep Hall H. unfold add_sibling in H.
  rinv H as n Hn. rinv H as n' Hn'. rinv H as idx Hidx.
  assert (n' = n) as -> by congruence.
  by eapply add_related_sound; [apply index_of_Some| | |exact H].
Qed.

Lemma add_found_sound dep conn all found all' :
  labelled G dep -> Forall (sound A G) all ->
  rfold (fun acc x => let* idx := index_of A x in _add_related A x dep acc idx conn)
        all found = Ok all' ->
  Forall (sound A G) all'.
Proof.
  intros Hdep Hall H.
  eapply (rfold_inv (Forall (sound A G))); [|exact Hall|exact H].
  intros a x a' _ Ha Hx. rinv Hx as idx Hidx.
  by eapply add_related_sound; [apply index_of_Some| | |exact Hx].
Qed.

Lemma apply_action_sound fuel dep pos act sibling_idx st v st' v' :
  labelled G dep -> Forall (sound A G) st.1.1 ->
  apply_action A G Num fuel dep pos act sibling_idx st v = Ok (st', v') ->
  Forall (sound A G) st'.1.1.
Proof.
  intros Hdep Hall H. destruct st as [[all rel] conn]. simpl in Hall.
  unfold apply_action in H.
  slinv H as plain Hplain. slinv H as all1 Hall1.
  assert (Forall (sound A G) all1) as Hs1.
  { destruct plain; [by eapply add_sibling_sound|congruence]. }
  destruct (py_truthy act).
  2: { apply sret_Ok in H as [-> ->]. done. }
  slinv H as has_cousin Hhc. sinv H as rc v1 Hrc. destruct rc as [rel1 conn1].
  slinv H as has_special Hhs. sinv H as rel2 v2 Hrel2. slinv H as keys Hkeys.
  slinv H as else_always Hea. slinv H as all2 Hall2.
  assert (Forall (sound A G) all2) as Hs2.
  { destruct else_always; [by eapply add_sibling_sound|congruence]. }
  destruct rel2 as [|x rel2].
  - slinv H as else_true Het. slinv H as all3 Hall3. apply sret_Ok in H as [-> ->].
    simpl. destruct else_true; [by eapply add_sibling_sound|congruence].
  - slinv H as all3 Hall3. apply sret_Ok in H as [-> ->]. simpl.
    by eapply add_found_sound.
Qed.

Lemma check_criteria_sound fuel dep dep_obj all e sibling_idx v all' v' :
  e ∈ edges G -> Forall (sound A G) all ->
  _check_criteria A G Num fuel dep dep_obj all e sibling_idx v = Ok (all', v') ->
  Forall (sound A G) all'.
Proof.
  intros He Hall H. unfold _check_criteria in H.
  destruct (String.eqb_spec (e_dep e) dep) as [Hdep|_].
  2: { apply sret_Ok in H as [-> ->]. done. }
  assert (labelled G dep) as Hl by (right; right; by exists e).
  slinv H as keys Hkeys. sinv H as r v1 Hfold. destruct r as [all1 rel1].
  apply sret_Ok in H as [-> ->].
  eapply (sfold_inv (fun a _ => Forall (sound A G) a.1)) in Hfold; [done| |done].
  intros [a rel] pos_logic w [a' rel'] w' _ Ha Hbody. simpl in Ha |- *.
  slinv Hbody as inner Hinner.
  destruct inner as [| | | | | |poss]; try (apply sret_Ok in Hbody as [[= <- <-] _]; done).
  sinv Hbody as r2 v2 Hinnerfold. destruct r2 as [[a2 rel2] conn2].
  apply sret_Ok in Hbody as [[= <- <-] _].
  eapply (sfold_inv (fun st _ => Forall (sound A G) st.1.1)) in Hinnerfold; [done| |done].
  intros st pos w1 st1 w1' _ Hst Hstep.
  slinv Hstep as ok Hok. destruct ok.
  - slinv Hstep as act Hact. by eapply apply_action_sound.
  - apply sret_Ok in Hstep as [-> _]. done.
Qed.

Lemma scan_rules_sound fuel fmt tree all e sibling_idx v all' v' :
  e ∈ edges G -> Forall (sound A G) all ->
  scan_rules A G Num fuel fmt tree all e sibling_idx v = Ok (all', v') ->
  Forall (sound A G) all'.
Proof.
  intros He Hall H. unfold scan_rules in H.
  slinv H as deps Hdeps. slinv H as dep_keys Hdk.
  eapply (sfold_inv (fun a _ => Forall (sound A G) a)) in H; [done| |done].
  intros a dep w a' w' _ Ha Hbody.
  slinv Hbody as d Hd. slinv Hbody as enhanced Hen.
  destruct (py_eqb enhanced (PBool true)).
  - slinv Hbody as inner_keys Hik.
    eapply (sfold_inv (fun a _ => Forall (sound A G) a)) in Hbody; [done| |done].
    intros b inner_dep w1 b' w1' _ Hb Hin.
    slinv Hin as inner Hinner. destruct (is_dict inner).
    + slinv Hin as types Hty. slinv Hin as tagged Htag. destruct tagged.
      * by eapply check_criteria_sound.
      * apply sret_Ok in Hin as [-> _]. done.
    + apply sret_Ok in Hin as [-> _]. done.
  - slinv Hbody as types Hty. slinv Hbody as tagged Htag. destruct tagged.
    + by eapply check_criteria_sound.
    + apply sret_Ok in Hbody as [-> _]. done.
Qed.

Lemma scan_operators_sound fuel tree all sibling_idx v all' v' :
  Forall (sound A G) all ->
  scan_operators A G Num fuel tree all sibling_idx v = Ok (all', v') ->
  Forall (sound A G) all'.
Proof.
  intros Hall H. unfold scan_operators in H. slinv H as ors Hors.
  eapply (sfold_inv (fun a _ => Forall (sound A G) a)) in H; [done| |done].
  intros a o w a' w' _ Ha Hbody. slinv Hbody as n Hn.
  destruct (py_eqb (PStr (n_word n)) o).
  - sinv Hbody as found v1 Hfound. apply slift_Ok in Hbody as [Hbody _].
    eapply add_found_sound; [|exact Ha|exact Hbody]. by left.
  - apply sret_Ok in Hbody as [-> _]. done.
Qed.

Lemma sound_descriptors r ds :
  sound A G r ->
  sound A G {| relationForm := relationForm r; rawName := rawName r;
               tokenIndex := tokenIndex r; offsetStart := offsetStart r;
               offsetEnd := offsetEnd r; connector := connector r;
               descriptors := ds |}.
Proof. done. Qed.

Lemma Forall_sound_alter (f : related -> related) i rel :
  (forall r, sound A G r -> sound A G (f r)) ->
  Forall (sound A G) rel -> Forall (sound A G) (alter f i rel).
Proof. intros Hf Hall. apply Forall_alter; [done|]. intros x _. apply Hf. Qed.

Lemma descriptor_step_sound fuel i tok rel e v rel' v' :
  Forall (sound A G) rel ->
  descriptor_step A G Num fuel i tok rel e v = Ok (rel', v') ->
  Forall (sound A G) rel'.
Proof.
  intros Hall H. unfold descriptor_step in H. slinv H as c Hc.
  destruct (connected c) as [sibling_idx|].
  2: { apply sret_Ok in H as [-> _]. done. }
  slinv H as info Hinfo.
  match type of H with
  | context [if ?b then alter ?f i rel else rel] =>
      set (rel1 := if b then alter f i rel else rel) in H;
      assert (Forall (sound A G) rel1) as H1
        by (subst rel1; destruct b; [|done];
            apply Forall_sound_alter; [|done]; intros r; apply sound_descriptors)
  end.
  clearbody rel1.
  destruct (str_in "NN" (li_pos info) && str_in "amod" (e_dep e)).
  - sinv H as additional v1 Hadd.
    eapply (sfold_inv (fun a _ => Forall (sound A G) a)) in H; [done| |done].
    intros a add w a' w' _ Ha Hbody. apply slift_Ok in Hbody as [Hbody _].
    rinv Hbody as idx Hidx. rinv Hbody as n Hn.
    eapply add_related_sound; [by apply index_of_Some| |exact Ha|exact Hbody].
    right. by left.
  - apply sret_Ok in H as [-> _]. done.
Qed.

Lemma add_descriptors_sound fuel i rel v rel' v' :
  Forall (sound A G) rel ->
  add_descriptors_from A G Num fuel i rel v = Ok (rel', v') ->
  Forall (sound A G) rel'.
Proof.
  revert i rel v. induction fuel as [|fuel IH]; intros i rel v Hall H.
  - simpl in H. destruct (rel !! i); [done|]. apply sret_Ok in H as [-> _]. done.
  - cbn [add_descriptors_from] in H. destruct (rel !! i) as [r|].
    2: { apply sret_Ok in H as [-> _]. done. }
    sinv H as rel1 v1 Hfold. eapply IH; [|exact H].
    eapply (sfold_inv (fun a _ => Forall (sound A G) a)) in Hfold; [done| |].
    + intros a e w a' w' _ Ha Hstep. by eapply descriptor_step_sound.
    + apply Forall_sound_alter; [|done]. intros r0. apply sound_descriptors.
Qed.

Lemma parse_patterns_sound fuel unit_idx fmt tree v l v' :
  _parse_patterns A G Num fuel unit_idx fmt tree v = Ok (Some l, v') ->
  Forall (sound A G) l.
Proof.
  intros H. unfold _parse_patterns in H.
  sinv H as all v1 Hfold. sinv H as all' v2 Hdesc. apply sret_Ok in H as [[= <-] _].
  unfold _add_descriptors in Hdesc. eapply add_descriptors_sound; [|exact Hdesc].
  eapply (sfold_inv (fun a _ => Forall (sound A G) a)) in Hfold; [done| |done].
  intros a e w a' w' He Ha Hbody. slinv Hbody as idxs Hidxs.
  eapply (sfold_inv (fun a _ => Forall (sound A G) a)) in Hbody; [done| |done].
  intros b idx w1 b' w1' _ Hb Hstep. slinv Hstep as c Hc.
  destruct (connected c) as [sibling_idx|].
  - sinv Hstep as all1 v3 Hrules.
    eapply scan_operators_sound; [|exact Hstep]. by eapply scan_rules_sound.
  - apply sret_Ok in Hstep as [-> _]. done.
Qed.

End Engine.

(* ===================================================================== *)
(** * Measurements.py: what [_get_related] returns *)
(* ===================================================================== *)

Section Reconciled.

Lemma remove_first_sublist x l : remove_first x l `sublist_of` l.
Proof.
  induction l as [|y l IH]; simpl; [done|].
  case_bool_decide; [by apply sublist_cons|by apply sublist_skip].
Qed.

Lemma reconcile_key_sublist fuel key i l g l' g' :
  reconcile_key fuel key i l g = Ok (l', g') ->
  l' `sublist_of` l /\
  forall k, k <> key -> py_getitem g' k = py_getitem g k.
Proof.
  revert i l g. induction fuel as [|fuel IH]; intros i l g H; cbn [reconcile_key] in H.
  - destruct (l !! i); [done|]. by injection H as <- <-.
  - destruct (l !! i) as [rel|]; [|by injection H as <- <-].
    rinv H as has_key Hhk. destruct has_key; [|by apply IH in H].
    rinv H as gk Hgk. rinv H as texts Htexts. destruct texts as [[num unit] quantified].
    rinv H as dup Hdup. destruct dup; [|by apply IH in H].
    pose proof (remove_first_sublist rel l) as Hsub.
    destruct (py_eqb (PStr (rawName rel)) unit).
    + rinv H as ru Hru. rinv H as ru' Hru'. rinv H as g1 Hg1.
      apply IH in H as [H1 H2]. split; [by etrans|].
      intros k Hk. rewrite (H2 k Hk). simpl in Hg1.
      rinv Hg1 as sub Hsub'. rinv Hg1 as sub' Hsub''.
      by apply (getitem_setitem_ne g key k _ _ ltac:(done) Hg1).
    + destruct (py_eqb (PStr (rawName rel)) quantified).
      * rinv H as gk' Hgk'. rinv H as g1 Hg1.
        apply IH in H as [H1 H2]. split; [by etrans|].
        intros k Hk. rewrite (H2 k Hk).
        by apply (getitem_setitem_ne g key k _ _ ltac:(done) Hg1).
      * apply IH in H as [H1 H2]. split; [by etrans|done].
Qed.

Lemma reconcile_sublist l g l' g' :
  reconcile l g = Ok (l', g') ->
  l' `sublist_of` l /\
  forall k, k ∉ potential_keys -> py_getitem g' k = py_getitem g k.
Proof.
  unfold reconcile. destruct l as [|r l]; [by intros [= <- <-]|].
  generalize (r :: l). clear r l. intros l H.
  revert l g H. induction potential_keys as [|key keys IH]; intros l g H; simpl in H.
  - by injection H as <- <-.
  - rinv H as p Hp. destruct p as [l1 g1].
    apply reconcile_key_sublist in Hp as [Hs1 Hg1].
    apply IH in H as [Hs2 Hg2]. split; [by etrans|].
    intros k Hk. apply not_elem_of_cons in Hk as [Hk1 Hk2].
    rewrite (Hg2 k Hk2). by apply Hg1.
Qed.

End Reconciled.

Section GetRelated.
Context (A : Annotations) (G : graph) (Num : pyval).

Lemma get_related_sound fuel m tree v l m' v' :
  _get_related A G Num fuel m tree v = Ok (Some l, m', v') ->
  Forall (sound A G) l.
Proof.
  intros H. unfold _get_related in H.
  sinv H as first v1 Hfirst. sinv H as all v2 Hall.
  sinv H as adverbs v3 Hadv. slinv H as adverbs' Hadv'. slinv H as g1 Hg1.
  assert (Hsound : forall l0, all = Some l0 -> Forall (sound A G) l0).
  { intros l0 ->. destruct first as [l1|].
    - apply sret_Ok in Hall as [[= ->] _]. by eapply parse_patterns_sound.
    - by eapply parse_patterns_sound. }
  destruct all as [l0|].
  - slinv H as p Hp. destruct p as [l1 g2]. apply sret_Ok in H as [[= -> ->] _].
    apply reconcile_sublist in Hp as [Hsub _].
    specialize (Hsound _ eq_refl). rewrite Forall_forall in Hsound.
    apply Forall_forall. intros x Hx. apply Hsound. by eapply elem_of_sublist.
  - apply sret_Ok in H as [[=] _].
Qed.

(** X20.  Every related word [_get_related] returns (lines 305-359)
    carries the token index that the word map [A.index_lookup] gives for
    its name, and the offsets of that token: sibling, cousin or operator,
    it is located by its word (lines 193, 232, 249, 253, 255, 297), hence
    at the last token of the sentence that has this word. *)
Theorem related_words_placed (fuel : nat) (m m' : Match) (tree : pyval)
  (v v' : gmap string nat) (l : list related) :
  _get_related A G Num fuel m tree v = Ok (Some l, m', v') ->
  Forall (placed A) l.
Proof.
  intros H%get_related_sound. eapply Forall_impl; [exact H|]. by intros r [? _].
Qed.

(** X21.  The relation form of every related word [_get_related]
    returns is the label of an edge of the graph of the sentence (lines
    214, 232-255: a rule fires on an edge that carries its label), or
    [operator] (line 297), or [nmod] (line 193). *)
Theorem related_words_labelled (fuel : nat) (m m' : Match) (tree : pyval)
  (v v' : gmap string nat) (l : list related) :
  _get_related A G Num fuel m tree v = Ok (Some l, m', v') ->
  Forall (fun r => labelled G (relationForm r)) l.
Proof.
  intros H%get_related_sound. eapply Forall_impl; [exact H|]. by intros r [_ ?].
Qed.

End GetRelated.

(** "A dose of 5 mg exceeds the usual dose.": the related word "dose"
    of the match of "5 mg". *)
Lemma related_words_placed_witness :
  let r := _get_related Scenarios.Dose.A Scenarios.Dose.G (m_num Scenarios.Dose.m) 10
             Scenarios.Dose.m Scenarios.Dose.tree ∅ in
  exists l, found r = Ok (Some l) /\ map rawName l = ["dose"] /\
            Forall (placed Scenarios.Dose.A) l.
Proof.
  intros r. destruct r as [[[[l|] m'] v']| |] eqn:E; subst r;
    [|vm_compute in E; discriminate..].
  exists l. split; [reflexivity|]. split.
  - vm_compute in E. by injection E as <- _ _.
  - exact (related_words_placed _ _ _ _ _ _ _ _ _ _ E).
Defined.

Lemma related_words_labelled_witness :
  let r := _get_related Scenarios.Dose.A Scenarios.Dose.G (m_num Scenarios.Dose.m) 10
             Scenarios.Dose.m Scenarios.Dose.tree ∅ in
  exists l, found r = Ok (Some l) /\ map relationForm l = ["nmod:of"] /\
            Forall (fun r => labelled Scenarios.Dose.G (relationForm r)) l.
Proof.
  intros r. destruct r as [[[[l|] m'] v']| |] eqn:E; subst r;
    [|vm_compute in E; discriminate..].
  exists l. split; [reflexivity|]. split.
  - vm_compute in E. by injection E as <- _ _.
  - exact (related_words_labelled _ _ _ _ _ _ _ _ _ _ E).
Defined.

(* ===================================================================== *)
(** * The order of the descriptors *)
(* ===================================================================== *)

Section EdgeOrder.
Context (A : Annotations) (G : graph) (Num : pyval).

(** A property of the elements walked so far and of the accumulator,
    kept by every iteration, holds of the whole list when the loop is
    left. *)
Lemma sfold_prefix_inv {X Y} (I : list X -> Y -> Prop) (body : Y -> X -> M Y)
  (l pre : list X) acc v acc' v' :
  (forall p a x w a' w', I p a -> body a x w = Ok (a', w') -> I (p ++ [x])%list a') ->
  I pre acc -> sfold body acc l v = Ok (acc', v') -> I (pre ++ l)%list acc'.
Proof.
  intros Hbody. revert pre acc v. induction l as [|x l IH]; intros pre acc v Hacc H.
  - apply sret_Ok in H as [-> _]. by rewrite app_nil_r.
  - simpl in H. sinv H as a1 v1 H1.
    replace (pre ++ x :: l)%list with ((pre ++ [x]) ++ l)%list by by rewrite <- app_assoc.
    eapply IH; [|exact H]. by eapply Hbody.
Qed.

(** The word at position [i] is the one for the token [tok], and [ds]
    are its descriptors. *)
Lemma add_related_lookup rel dep all idx conn all' j r :
  _add_related A rel dep all idx conn = Ok all' -> all !! j = Some r -> all' !! j = Some r.
Proof.
  intros (info & st & en & _ & _ & _ & Hdoc)%add_related_inv Hj. cbv zeta in Hdoc.
  destruct Hdoc as [[_ ->]|[_ ->]]; [done|]. by apply lookup_app_l_Some.
Qed.

(** One edge: the word at position [i] gets what [edge_descriptor] says,
    and every word of the list stays where it is. *)
Lemma descriptor_step_order fuel i tok rel e v rel' v' ri ds :
  rel !! i = Some ri -> tokenIndex ri = tok -> descriptors ri = Some ds ->
  descriptor_step A G Num fuel i tok rel e v = Ok (rel', v') ->
  (forall j r, j <> i -> rel !! j = Some r -> rel' !! j = Some r) /\
  exists ri', rel' !! i = Some ri' /\ tokenIndex ri' = tok /\
              descriptors ri' = Some (ds ++ edge_descriptor A Num tok e)%list.
Proof.
  intros Hi Htok Hds H. unfold descriptor_step in H. unfold edge_descriptor.
  slinv H as c Hc. rewrite Hc.
  destruct (connected c) as [sibling_idx|].
  2: { apply sret_Ok in H as [-> _]. split; [done|]. exists ri. by rewrite app_nil_r. }
  slinv H as info Hinfo. rewrite Hinfo.
  set (d := {| d_tokenIndex := sibling_idx; d_rawName := li_word info |}) in *.
  set (b := String.eqb (li_pos info) "JJ" || String.eqb (e_dep e) "amod"
            || String.eqb (e_dep e) "compound") in *.
  set (rel1 := if b then alter (push_descriptor d) i rel else rel) in H.
  assert (H1 : (forall j r, j <> i -> rel !! j = Some r -> rel1 !! j = Some r) /\
               exists ri', rel1 !! i = Some ri' /\ tokenIndex ri' = tok /\
                           descriptors ri' = Some (ds ++ (if b then [d] else []))%list).
  { subst rel1. destruct b.
    - split; [intros j r Hne Hj; by rewrite list_lookup_alter_ne|].
      exists (push_descriptor d ri). rewrite list_lookup_alter_eq, Hi. simpl.
      by rewrite Hds.
    - split; [done|]. exists ri. by rewrite app_nil_r. }
  clearbody rel1. destruct H1 as [Hothers (ri1 & Hi1 & Htok1 & Hds1)].
  assert (Hkeep : forall j r, rel1 !! j = Some r -> rel' !! j = Some r).
  { destruct (str_in "NN" (li_pos info) && str_in "amod" (e_dep e)).
    - sinv H as additional v1 Hadd.
      eapply (sfold_inv (fun a _ => forall j r, rel1 !! j = Some r -> a !! j = Some r));
        [|by intros|exact H].
      intros a add w a' w' _ Ha Hbody j r Hj. apply slift_Ok in Hbody as [Hbody _].
      rinv Hbody as idx Hidx. rinv Hbody as n Hn.
      eapply add_related_lookup; [exact Hbody|]. by apply Ha.
    - apply sret_Ok in H as [-> _]. done. }
  split; [intros j r Hne Hj; by apply Hkeep, Hothers|].
  exists ri1. split; [by apply Hkeep|done].
Qed.

Lemma add_descriptors_from_order fuel i rel v rel' v' :
  (forall j r, (j < i)%nat -> rel !! j = Some r -> in_edge_order A G Num r) ->
  add_descriptors_from A G Num fuel i rel v = Ok (rel', v') ->
  Forall (in_edge_order A G Num) rel'.
Proof.
  revert i rel v. induction fuel as [|fuel IH]; intros i rel v Hbefore H.
  - simpl in H. destruct (rel !! i) eqn:Hi; [done|]. apply sret_Ok in H as [-> _].
    apply Forall_forall. intros r Hr.
    apply list_elem_of_lookup in Hr as [j Hj]. apply (Hbefore j); [|done].
    apply lookup_ge_None in Hi. apply lookup_lt_Some in Hj. lia.
  - cbn [add_descriptors_from] in H. destruct (rel !! i) as [r|] eqn:Hi.
    2: { apply sret_Ok in H as [-> _].
         apply Forall_forall. intros r Hr.
         apply list_elem_of_lookup in Hr as [j Hj]. apply (Hbefore j); [|done].
         apply lookup_ge_None in Hi. apply lookup_lt_Some in Hj. lia. }
    sinv H as rel1 v1 Hfold.
    set (rel0 := alter reset_descriptors i rel) in *.
    eapply (sfold_prefix_inv
              (fun p a =>
                 (forall j r0, j <> i -> rel0 !! j = Some r0 -> a !! j = Some r0) /\
                 exists ri, a !! i = Some ri /\ tokenIndex ri = tokenIndex r /\
                   descriptors ri
                   = Some (flat_map (edge_descriptor A Num (tokenIndex r)) p))
              _ _ []) in Hfold.
    + destruct Hfold as [Hothers (ri & Hri & Htok & Hds)]. simpl in Hds.
      apply IH in H; [done|]. intros j r1 Hj Hr1.
      destruct (decide (j = i)) as [->|Hne].
      * assert (r1 = ri) as -> by congruence. unfold in_edge_order. by rewrite Htok.
      * assert (j < i)%nat as Hlt by lia.
        destruct (lookup_lt_is_Some_2 rel j) as [r0 Hr0].
        { apply lookup_lt_Some in Hi. lia. }
        assert (rel1 !! j = Some r0) as Hr0'.
        { apply Hothers; [done|]. subst rel0. by rewrite list_lookup_alter_ne. }
        assert (r1 = r0) as -> by congruence. by apply (Hbefore j).
    + intros p a e w a' w' [Hothers (ri & Hri & Htok & Hds)] Hstep.
      destruct (descriptor_step_order _ _ _ _ _ _ _ _ _ _ Hri Htok Hds Hstep)
        as [Hkeep (ri' & Hri' & Htok' & Hds')].
      split; [intros j r0 Hne Hj; by apply Hkeep, Hothers|].
      exists ri'. split; [done|]. split; [done|].
      rewrite flat_map_app. simpl. by rewrite app_nil_r.
    + split; [done|]. exists (reset_descriptors r). subst rel0.
      by rewrite list_lookup_alter_eq, Hi.
Qed.

Lemma parse_patterns_order fuel unit_idx fmt tree v l v' :
  _parse_patterns A G Num fuel unit_idx fmt tree v = Ok (Some l, v') ->
  Forall (in_edge_order A G Num) l.
Proof.
  intros H. unfold _parse_patterns in H.
  sinv H as all v1 Hfold. sinv H as all' v2 Hdesc. apply sret_Ok in H as [[= <-] _].
  unfold _add_descriptors in Hdesc. eapply add_descriptors_from_order; [|exact Hdesc].
  intros j r Hj. lia.
Qed.

Lemma get_related_order fuel m tree v l m' v' :
  _get_related A G Num fuel m tree v = Ok (Some l, m', v') ->
  Forall (in_edge_order A G Num) l.
Proof.
  intros H. unfold _get_related in H.
  sinv H as first v1 Hfirst. sinv H as all v2 Hall.
  sinv H as adverbs v3 Hadv. slinv H as adverbs' Hadv'. slinv H as g1 Hg1.
  assert (Horder : forall l0, all = Some l0 -> Forall (in_edge_order A G Num) l0).
  { intros l0 ->. destruct first as [l1|].
    - apply sret_Ok in Hall as [[= ->] _]. by eapply parse_patterns_order.
    - by eapply parse_patterns_order. }
  destruct all as [l0|].
  - slinv H as p Hp. destruct p as [l1 g2]. apply sret_Ok in H as [[= -> ->] _].
    apply reconcile_sublist in Hp as [Hsub _].
    specialize (Horder _ eq_refl). rewrite Forall_forall in Horder.
    apply Forall_forall. intros x Hx. apply Horder. by eapply elem_of_sublist.
  - apply sret_Ok in H as [[=] _].
Qed.

End EdgeOrder.

(** C8, as the claim states it (counterexample).  "The daily dose of 5
    mg is safe.": the related word "dose" (token 3) of the match of "5 mg"
    is emitted with the descriptors "safe" (8), "daily" (2), in this
    order; the token indices do not ascend.  The edge to "safe" is
    enumerated from the node of "safe", which is the first node of the
    graph (the dependency [ROOT] makes it), so before the node of "dose"
    and the edge to "daily" it is enumerated from. *)
Lemma descriptors_in_edge_order :
  found (_get_related Scenarios.Safe.A Scenarios.Safe.G
           (m_num Scenarios.Safe.m) 10 Scenarios.Safe.m Scenarios.Safe.tree ∅)
  = Ok (Some [Scenarios.Safe.dose]) /\
  ~ ascending_word Scenarios.Safe.dose.
Proof.
  split.
  - vm_compute. reflexivity.
  - intros H. destruct (H _ eq_refl) as (ks & Hks & Hsorted).
    vm_compute in Hks. injection Hks as <-.
    apply StronglySorted_inv in Hsorted as [_ Hall].
    apply Forall_inv in Hall. lia.
Qed.

(** C8 (corrected).  The descriptors of every related word the engine
    emits are those the edges of the word give it, in the order in which
    [G.edges(data=True)] enumerates the edges ([_add_descriptors], lines
    178-188, sorts nothing).  They are sorted where the simplified
    projection is made: when [_simplify_results] returns a projection,
    every related word it leaves in the match has its descriptors in
    ascending order of token index, and the projection lists, under the
    name of a related word, the words of its descriptors in that
    order. *)
Theorem descriptors_edge_order_until_simplified
  (A : Annotations) (G : graph) (Num : pyval) (fuel : nat) (mt mt' : Match)
  (tree : pyval) (v v' : gmap string nat) (l : list related)
  (m s m' : pyval) (rs : list pyval) :
  _get_related A G Num fuel mt tree v = Ok (Some l, mt', v') ->
  _simplify_results m = Ok (Some s, m') ->
  py_getitem m' "related" = Ok (PList rs) ->
  Forall (in_edge_order A G Num) l /\
  Forall ascending rs /\
  forall name names,
    py_get_path s ["related"; name] = Ok names ->
    exists r, r ∈ rs /\ py_getitem r "rawName" = Ok (PStr name) /\
              descriptor_words r = Ok names.
Proof.
  intros Hengine H Hrs. split; [by eapply get_related_order|]. clear Hengine.
  revert H Hrs. unfold _simplify_results. intros H Hrs.
  rinv H as ty Hty. rinv H as vs Hvs. destruct vs as [[vals unit]|]; [|done].
  rinv H as hq Hhq. rinv H as q Hq. destruct q as [[unit1 quantified] m1].
  rinv H as rel Hrel. rinv H as rl Hrl. destruct rl as [related m2].
  injection H as <- <-.
  set (s := PDict _) in *.
  assert (Hs : py_get_path s ["related"] = Ok (PDict related)).
  { subst s. destruct unit1; reflexivity. }
  clearbody s.
  assert (Hproj : forall name names,
            py_get_path s ["related"; name] = Ok names -> dget name related = Some names).
  { intros name names Hn. cbn [py_get_path] in Hn, Hs.
    destruct (py_getitem s "related") as [x| |]; try done. cbn [rbind] in Hn, Hs.
    injection Hs as ->. simpl in Hn.
    destruct (dget name related); simpl in Hn; congruence. }
  destruct (py_truthy rel) eqn:Etruthy.
  - destruct rel; try done.
    rinv Hrl as out Hout. rinv Hrl as m3 Hm3.
    assert (m2 = m3) as -> by congruence.
    assert (related = fold_left (fun d '(n, ns, _) => dset n ns d) out []) as ->
      by congruence.
    clear Hrl.
    rewrite (getitem_setitem_eq _ _ _ _ Hm3) in Hrs. injection Hrs as <-.
    split.
    + apply Forall_forall. intros r Hr.
      apply list_elem_of_fmap in Hr as ([[name names] r0] & -> & Hin).
      destruct (rmap_elem _ _ _ _ Hout Hin) as (x & _ & Hx).
      by apply simplify_related_spec in Hx as [? _].
    + intros name names Hn. apply Hproj, projection_entries in Hn as [Hn|[r Hin]];
        [done|].
      destruct (rmap_elem _ _ _ _ Hout Hin) as (x & _ & Hx).
      apply simplify_related_spec in Hx as (_ & Hname & Hwords).
      exists r. split; [|done].
      apply list_elem_of_fmap. by exists (name, names, r).
  - assert (m2 = m1) as -> by congruence.
    assert (related = []) as -> by congruence. clear Hrl.
    split.
    + rewrite Hrel in Hrs. injection Hrs as ->.
      simpl in Etruthy. by destruct rs.
    + intros name names Hn. by apply Hproj in Hn.
Qed.

(** The match of "5 mg" in "The daily dose of 5 mg is safe.": the engine
    emits "dose" with "safe" (8), "daily" (2), the order of the edges;
    simplified, the payload lists "daily", "safe". *)
Lemma descriptors_edge_order_until_simplified_witness :
  let r := _get_related Scenarios.Safe.A Scenarios.Safe.G (m_num Scenarios.Safe.m) 10
             Scenarios.Safe.m Scenarios.Safe.tree ∅ in
  let s := PDict [("value", PFloat "5"); ("unit", PStr "mg");
                  ("quantified", PDict []);
                  ("related", PDict [("dose", PList [PStr "daily"; PStr "safe"])])] in
  found r = Ok (Some [Scenarios.Safe.dose]) /\
  (exists m', _simplify_results Scenarios.Safe.shown = Ok (Some s, m') /\
              py_getitem m' "related" = Ok (PList [Scenarios.Safe.dose_sorted])) /\
  Forall (in_edge_order Scenarios.Safe.A Scenarios.Safe.G (m_num Scenarios.Safe.m))
    [Scenarios.Safe.dose] /\
  Forall ascending [Scenarios.Safe.dose_sorted] /\
  forall name names,
    py_get_path s ["related"; name] = Ok names ->
    exists r, r ∈ [Scenarios.Safe.dose_sorted] /\
              py_getitem r "rawName" = Ok (PStr name) /\
              descriptor_words r = Ok names.
Proof.
  intros r s.
  destruct r as [[[[l|] m1] v1]| |] eqn:E; subst r; [|vm_compute in E; discriminate..].
  assert (l = [Scenarios.Safe.dose]) as ->
    by (vm_compute in E; injection E as <- _ _; reflexivity).
  assert (Es : exists m', _simplify_results Scenarios.Safe.shown = Ok (Some s, m') /\
                 py_getitem m' "related" = Ok (PList [Scenarios.Safe.dose_sorted]))
    by (eexists; split; vm_compute; reflexivity).
  destruct Es as (m' & Es & Hrs).
  split; [reflexivity|]. split; [by exists m'|].
  exact (descriptors_edge_order_until_simplified _ _ _ _ _ _ _ _ _ _ _ _ _ _ E Es Hrs).
Defined.

Section Adverbs.

Lemma fold_remove_first_head (xs : list related) (y : related) (rest : list related) :
  y ∉ xs ->
  fold_left (fun l a => remove_first a l) xs (y :: rest)
  = y :: fold_left (fun l a => remove_first a l) xs rest.
Proof.
  revert rest. induction xs as [|x xs IH]; intros rest Hy; simpl; [done|].
  apply not_elem_of_cons in Hy as [Hne Hy].
  rewrite bool_decide_eq_false_2 by done. by apply IH.
Qed.

(** X22.  The adverbs [_get_related] attaches to the payload (lines
    324-330) are the words of the relation form [advmod] among those it
    was given, in their order, each without its ["descriptors"] and its
    ["connector"]; every other word is removed. *)
Theorem keep_adverbs_spec (adverbs : list related) :
  keep_adverbs adverbs = map strip_adverb (filter (fun a => is_advmod a = true) adverbs).
Proof.
  unfold keep_adverbs. induction adverbs as [|a l IH]; [done|].
  rewrite !filter_cons. unfold is_advmod in *. cbn [map].
  destruct (String.eqb (relationForm a) "advmod") eqn:E; simpl.
  - rewrite fold_remove_first_head; [by rewrite IH|].
    intros Hin. apply list_elem_of_filter in Hin as [Hin _].
    simpl in Hin. rewrite E in Hin. done.
  - rewrite bool_decide_eq_true_2 by done. exact IH.
Qed.

End Adverbs.

(** X23.  The reconciliation with the payload (lines 336-358) only
    removes related words: what it returns is what it was given with
    some words left out, in the same order; and in the payload it writes
    under the four keys ["quantity"], ["quantityLeast"], ["quantityMost"]
    and ["quantified"] only. *)
Theorem reconcile_only_removes (l l' : list related) (g g' : pyval) :
  reconcile l g = Ok (l', g') ->
  l' `sublist_of` l /\
  forall k, k ∉ potential_keys -> py_getitem g' k = py_getitem g k.
Proof. apply reconcile_sublist. Qed.

(** The two "weeks" of the sample sentence: one is removed, and the type
    of the measurement is as it was. *)
Lemma reconcile_only_removes_witness :
  let l := [Scenarios.Gestation.weeks_at; Scenarios.Gestation.weeks_of] in
  let r := reconcile l (m_grobid Scenarios.Gestation.m) in
  exists l' g', r = Ok (l', g') /\ l' `sublist_of` l /\
                py_getitem g' "type" = Ok (PStr "value").
Proof.
  intros l r. destruct r as [[l' g']| |] eqn:E; subst r;
    [|vm_compute in E; discriminate..].
  exists l', g'. split; [reflexivity|].
  destruct (reconcile_only_removes _ _ _ _ E) as [Hsub Hkeys].
  split; [exact Hsub|]. rewrite (Hkeys "type"); [reflexivity|].
  apply (bool_decide_unpack _). vm_compute. exact I.
Defined.

Section Merge.

Lemma merge_items_spec (items : list (string * pyval)) (t t' : pyval) :
  rfold (fun t '(k, v) =>
           let* present := py_in (PStr k) t in
           if present then Ok t else py_setitem t k v) t items = Ok t' ->
  (forall k v, py_getitem t k = Ok v -> py_getitem t' k = Ok v) /\
  (forall k v, py_in (PStr k) t = Ok false -> dget k items = Some v ->
               py_getitem t' k = Ok v).
Proof.
  revert t. induction items as [|[k0 v0] items IH]; intros t H; simpl in H.
  - injection H as <-. split; [done|]. intros k v _ Hk. done.
  - rinv H as t1 Ht1. rinv Ht1 as present Hp.
    destruct (IH _ H) as [IH1 IH2]. destruct present.
    + injection Ht1 as <-. split; [done|]. intros k v Hk Hget. simpl in Hget.
      destruct (String.eqb_spec k k0) as [->|Hne]; [congruence|]. by apply IH2.
    + split.
      * intros k v Hk. apply IH1.
        assert (k0 <> k) as Hne by (intros <-; apply getitem_in in Hk; congruence).
        by rewrite (getitem_setitem_ne t k0 k _ _ Hne Ht1).
      * intros k v Hk Hget. simpl in Hget.
        destruct (String.eqb_spec k k0) as [->|Hne].
        -- injection Hget as <-. apply IH1. exact (getitem_setitem_eq _ _ _ _ Ht1).
        -- apply IH2; [|done]. destruct t; try done. simpl in Ht1. injection Ht1 as <-.
           simpl in *. injection Hk as Hk. f_equal. unfold dhas in *.
           rewrite dget_dset_ne by done. done.
Qed.

(** X24.  Merging a related word into the unit or the quantified
    substance of the payload (lines 350-358) overwrites nothing: every
    key the target had keeps its value, and every key of the related word
    that the target did not have is added with the value of the related
    word. *)
Theorem merge_back_conservative (r : related) (target target' : pyval) :
  merge_back r target = Ok target' ->
  (forall k v, py_getitem target k = Ok v -> py_getitem target' k = Ok v) /\
  (forall k v, py_in (PStr k) target = Ok false -> dget k (related_items r) = Some v ->
               py_getitem target' k = Ok v).
Proof. apply merge_items_spec. Qed.

End Merge.

(** "weeks" merged into the unit of "28 weeks": the offsets of the unit
    stay Grobid's, the token index is added. *)
Lemma merge_back_conservative_witness :
  let unit := PDict [("name", PStr "weeks"); ("offsetStart", PInt 0);
                     ("offsetEnd", PInt 5)] in
  exists unit', merge_back Scenarios.Gestation.weeks_of unit = Ok unit' /\
    py_getitem unit' "offsetStart" = Ok (PInt 0) /\
    py_getitem unit' "tokenIndex" = Ok (PInt 8).
Proof.
  intros unit.
  destruct (merge_back Scenarios.Gestation.weeks_of unit) as [unit'| |] eqn:E;
    [|vm_compute in E; discriminate..].
  exists unit'. split; [reflexivity|].
  destruct (merge_back_conservative _ _ _ E) as [Hkept Hadded].
  split; [by apply Hkept|]. by apply Hadded.
Defined.

(* ===================================================================== *)
(** * Measurements.py: the projection and the output *)
(* ===================================================================== *)

Section Sorting.

Lemma insert_by_key_perm k x l : insert_by_key k x l ≡ₚ (k, x) :: l.
Proof.
  induction l as [|[k' y] l IH]; simpl; [done|].
  destruct (k <? k'); [done|]. rewrite IH. apply Permutation_swap.
Qed.

Lemma sort_fold_perm l acc :
  fold_left (fun acc '(k, x) => insert_by_key k x acc) l acc ≡ₚ (l ++ acc)%list.
Proof.
  revert acc. induction l as [|[k x] l IH]; intros acc; simpl; [done|].
  rewrite IH, insert_by_key_perm. by rewrite Permutation_middle.
Qed.

Lemma rmap_length {X Y} (f : X -> result Y) l ys : rmap f l = Ok ys -> length ys = length l.
Proof.
  revert ys. induction l as [|x l IH]; simpl; intros ys H.
  - by injection H as <-.
  - rinv H as y Hy. rinv H as ys' Hys. injection H as <-. simpl. by rewrite (IH ys').
Qed.

Lemma map_snd_combine {X Y} (ks : list X) (l : list Y) :
  length ks = length l -> map snd (combine ks l) = l.
Proof.
  revert l. induction ks as [|k ks IH]; intros [|x l]; simpl; try done.
  intros [= H]. by rewrite IH.
Qed.

(** X25.  The sort of the descriptors in [_simplify_results] (lines
    406 and 416) loses none and adds none: the sorted list is a
    permutation of the list it was given. *)
Theorem sort_descriptors_permutation (l sorted : list pyval) :
  sort_descriptors (PList l) = Ok sorted -> sorted ≡ₚ l.
Proof.
  simpl. intros H. rinv H as keys Hkeys. injection H as <-.
  unfold sort_by_key.
  etrans; [apply Permutation_map, sort_fold_perm|].
  rewrite app_nil_r, map_snd_combine; [done|]. by apply rmap_length in Hkeys.
Qed.

End Sorting.

(** The descriptors of "dose": "total" (6), "mg" (8), "equal" (3). *)
Lemma sort_descriptors_permutation_witness :
  let total := PDict [("tokenIndex", PStr "6"); ("rawName", PStr "total")] in
  let mg := PDict [("tokenIndex", PStr "8"); ("rawName", PStr "mg")] in
  let equal := PDict [("tokenIndex", PStr "3"); ("rawName", PStr "equal")] in
  sort_descriptors (PList [total; mg; equal]) = Ok [equal; total; mg] /\
  [equal; total; mg] ≡ₚ [total; mg; equal].
Proof.
  intros total mg equal. split; [vm_compute; reflexivity|].
  apply (sort_descriptors_permutation [total; mg; equal] [equal; total; mg]).
  vm_compute. reflexivity.
Defined.

Section Reconstruct.

Lemma spaces_length n : String.length (String.concat "" (repeat " " n)) = n.
Proof.
  induction n as [|n IH]; [done|]. destruct n as [|m]; [done|].
  change (S (String.length (String.concat "" (repeat " " (S m)))) = S (S m)).
  by rewrite IH.
Qed.

Lemma well_spaced_begin t rest t' :
  well_spaced (t :: rest) -> t' ∈ t :: rest ->
  tk_characterOffsetBegin t <= tk_characterOffsetBegin t'.
Proof.
  revert t. induction rest as [|t1 rest IH]; intros t Hw Hin.
  - apply list_elem_of_singleton in Hin as ->. lia.
  - apply elem_of_cons in Hin as [->|Hin]; [lia|].
    destruct Hw as (Hlen & Hle & Hw). specialize (IH t1 Hw Hin). lia.
Qed.

(** X26.  [_reconstruct_sent] (lines 426-443) puts every token where
    its offsets say: for tokens in the order of the text that do not
    overlap, each as long as its text, the text of a token is read in the
    reconstructed sentence at the offset of the token counted from the
    beginning of the first token, which is the key under which
    [tok_start] lists the token. *)
Theorem reconstruct_places_tokens (first : token) (rest : list token) (t : token) :
  well_spaced (first :: rest) -> t ∈ first :: rest ->
  substring (Z.to_nat (tk_characterOffsetBegin t - tk_characterOffsetBegin first))
            (String.length (tk_originalText t)) (reconstruct (first :: rest))
  = tk_originalText t.
Proof.
  revert first. induction rest as [|t1 rest IH]; intros first Hw Hin.
  - apply list_elem_of_singleton in Hin as ->. rewrite Z.sub_diag. apply substring_all.
  - apply elem_of_cons in Hin as [->|Hin].
    + rewrite Z.sub_diag. cbn [reconstruct]. apply substring_prefix.
    + pose proof Hw as (Hlen & Hle & Hw1).
      pose proof (well_spaced_begin _ _ _ Hw1 Hin) as Hbegin.
      specialize (IH t1 Hw1 Hin).
      change (reconstruct (first :: t1 :: rest))
        with (tk_originalText first
              ++ String.concat ""
                   (repeat " " (Z.to_nat (tk_characterOffsetBegin t1
                                          - tk_characterOffsetEnd first)))
              ++ reconstruct (t1 :: rest)).
      set (gap := Z.to_nat (tk_characterOffsetBegin t1 - tk_characterOffsetEnd first)).
      replace (Z.to_nat (tk_characterOffsetBegin t - tk_characterOffsetBegin first))
        with (String.length (tk_originalText first)
              + (String.length (String.concat "" (repeat " " gap))
                 + Z.to_nat (tk_characterOffsetBegin t - tk_characterOffsetBegin t1)))%nat
        by (rewrite spaces_length; subst gap; lia).
      by rewrite !substring_skip.
Qed.

End Reconstruct.

(** "Use a 10m rope.": the token "10m" is read at offset 6. *)
Lemma reconstruct_places_tokens_witness :
  reconstruct Scenarios.Rope.toks = Scenarios.Rope.text /\
  substring 6 3 (reconstruct Scenarios.Rope.toks) = "10m".
Proof.
  split; [reflexivity|].
  apply (reconstruct_places_tokens (Scenarios.tok 1 "Use" "VB" 0 3 " ")
           (tl Scenarios.Rope.toks) (Scenarios.tok 3 "10m" "CD" 6 9 " ")).
  - simpl. repeat split; lia.
  - do 2 right. left.
Defined.

Section Ordered.

Lemma index_in_Ok k order n : index_in k order = Ok n -> k ∈ order.
Proof.
  revert n. induction order as [|k' order IH]; intros n; simpl; [done|].
  destruct (String.eqb_spec k k') as [->|Hne]; [left|].
  intros H. rinv H as n' Hn'. right. by eapply IH.
Qed.

Lemma index_in_elem k order : k ∈ order -> exists n, index_in k order = Ok n.
Proof.
  induction order as [|k' order IH]; simpl; [intros H; by apply elem_of_nil in H|].
  destruct (String.eqb_spec k k') as [->|Hne]; [by eexists|].
  intros [->|Hin]%elem_of_cons; [done|]. destruct (IH Hin) as [n ->]. by eexists.
Qed.

Lemma index_in_cases k order :
  (exists n, index_in k order = Ok n) \/ index_in k order = Raise ValueError.
Proof.
  induction order as [|k' order IH]; simpl; [by right|].
  destruct (String.eqb k k'); [left; by eexists|].
  destruct IH as [[n ->] | ->]; [left; by eexists|by right].
Qed.

Lemma insert_item_perm n kv l : insert_item n kv l ≡ₚ (n, kv) :: l.
Proof.
  induction l as [|[n' kv'] l IH]; simpl; [done|].
  destruct (n <? n')%nat; [done|]. rewrite IH. apply Permutation_swap.
Qed.

Lemma insert_item_elem n kv l p : p ∈ insert_item n kv l <-> p = (n, kv) \/ p ∈ l.
Proof. by rewrite insert_item_perm, elem_of_cons. Qed.

Lemma insert_item_sorted n kv l :
  StronglySorted le (map fst l) -> StronglySorted le (map fst (insert_item n kv l)).
Proof.
  induction l as [|[n' kv'] l IH]; simpl; intros Hs.
  - repeat constructor.
  - apply StronglySorted_inv in Hs as [Hs Hall].
    destruct (n <? n')%nat eqn:E; simpl.
    + apply Nat.ltb_lt in E. constructor; [by constructor|].
      constructor; [lia|]. eapply Forall_impl; [exact Hall|]. simpl. intros; lia.
    + apply Nat.ltb_ge in E. constructor; [by apply IH|].
      apply Forall_forall. intros k0 Hk0.
      apply list_elem_of_fmap in Hk0
        as ([k1 z] & -> & [[= -> ->]|Hin]%insert_item_elem); simpl.
      * done.
      * eapply Forall_forall in Hall; [exact Hall|].
        apply list_elem_of_fmap. by exists (k1, z).
Qed.

Lemma insert_fold_sorted ranked_items acc :
  StronglySorted le (map fst acc) ->
  StronglySorted le
    (map fst (fold_left (fun acc '(n, kv) => insert_item n kv acc) ranked_items acc)).
Proof.
  revert acc. induction ranked_items as [|[n kv] l IH]; simpl; intros acc Hs; [done|].
  apply IH. by apply insert_item_sorted.
Qed.

Lemma insert_fold_perm ranked_items acc :
  fold_left (fun acc '(n, kv) => insert_item n kv acc) ranked_items acc
  ≡ₚ (ranked_items ++ acc)%list.
Proof.
  revert acc. induction ranked_items as [|[n kv] l IH]; intros acc; simpl; [done|].
  rewrite IH, insert_item_perm. by rewrite Permutation_middle.
Qed.

Lemma rank_items order (items : list (string * pyval)) ranked_items :
  rmap (fun kv => let* n := index_in (fst kv) order in Ok (n, kv)) items
    = Ok ranked_items ->
  map snd ranked_items = items /\
  Forall (fun p => index_in (fst (snd p)) order = Ok (fst p)) ranked_items.
Proof.
  revert ranked_items. induction items as [|kv items IH]; simpl; intros r H.
  - by injection H as <-.
  - rinv H as y Hy. rinv H as ys Hys. injection H as <-.
    rinv Hy as n Hn. injection Hy as <-. destruct (IH _ Hys) as [Hm Hall].
    split; [simpl; by rewrite Hm|by constructor].
Qed.

Lemma rank_items_raise order (items : list (string * pyval)) :
  rmap (fun kv => let* n := index_in (fst kv) order in Ok (n, kv)) items
    = Raise ValueError <->
  exists k, k ∈ dkeys items /\ k ∉ order.
Proof.
  induction items as [|kv items IH]; simpl.
  - split; [done|]. intros (k & Hk & _). by apply elem_of_nil in Hk.
  - destruct (index_in_cases (fst kv) order) as [[n Hn]|Hn]; rewrite Hn; simpl.
    + assert (Hex : (exists k, k ∈ fst kv :: dkeys items /\ k ∉ order)
                    <-> (exists k, k ∈ dkeys items /\ k ∉ order)).
      { split; intros (k & Hk & Hnot); exists k; (split; [|done]); [|by right].
        apply elem_of_cons in Hk as [->|Hk]; [|done].
        apply index_in_Ok in Hn. done. }
      rewrite Hex, <- IH.
      destruct (rmap _ items) as [ys| |]; simpl; split; congruence.
    + split; [intros _|done]. exists (fst kv). split; [left|].
      intros Hin. apply index_in_elem in Hin as [n Hn']. congruence.
Qed.

(** X27.  The ordering of the payload before it is returned (lines
    513-514 and 521) keeps the items and sorts them by the position of
    their key in the order list: the result is a permutation of the items
    of the dictionary, and the positions of its keys ascend. *)
Theorem ordered_by_rank (order : list string) (items l : list (string * pyval)) :
  ordered order (PDict items) = Ok l -> l ≡ₚ items /\ ranked order l.
Proof.
  unfold ordered. intros H. rinv H as ranked_items Hr. injection H as <-.
  destruct (rank_items _ _ _ Hr) as [Hitems Hranks]. split.
  - rewrite <- Hitems. apply Permutation_map.
    by rewrite insert_fold_perm, app_nil_r.
  - set (sorted := fold_left _ ranked_items []).
    exists (map fst sorted). split.
    + assert (Hall : Forall (fun p => index_in (fst (snd p)) order = Ok (fst p)) sorted).
      { apply Forall_forall. intros p Hp. subst sorted.
        rewrite insert_fold_perm, app_nil_r in Hp.
        rewrite Forall_forall in Hranks. by apply Hranks. }
      clearbody sorted. induction Hall as [|p s Hp _ IH]; simpl; [done|].
      rewrite Hp. simpl. by rewrite IH.
    + apply insert_fold_sorted. constructor.
Qed.

(** X28.  The ordering raises [ValueError] exactly when the payload has
    a key that the order list does not have ([order.index(k)], line 521):
    a key Grobid adds beyond the seven of [sort_order] stops the
    document. *)
Theorem ordered_unknown_key (order : list string) (items : list (string * pyval)) :
  ordered order (PDict items) = Raise ValueError <->
  exists k, k ∈ dkeys items /\ k ∉ order.
Proof.
  unfold ordered. rewrite <- rank_items_raise.
  destruct (rmap _ items) as [ys| |]; simpl; split; congruence.
Qed.

End Ordered.

(** A payload with its keys out of order. *)
Lemma ordered_by_rank_witness :
  let items := [("related", PList []); ("type", PStr "value"); ("quantity", PDict [])] in
  let l := [("type", PStr "value"); ("quantity", PDict []); ("related", PList [])] in
  ordered sort_order (PDict items) = Ok l /\ l ≡ₚ items /\ ranked sort_order l.
Proof.
  intros items l. split; [reflexivity|].
  apply (ordered_by_rank sort_order items l). reflexivity.
Defined.

(* ===================================================================== *)
(** * Measurements.py: [extract] *)
(* ===================================================================== *)

Section ExtractRuns.
Context (annotate : string -> string -> pyval) (json_loads : string -> result pyval)
  (service : string -> string -> Grobid.reply) (dumps : bool -> pyval -> string)
  (tree : pyval).

Lemma process_match_written fuel A G out pretty simplify last m v x ws v' :
  process_match dumps tree fuel A G out pretty simplify last m v = Ok (x, ws, v') ->
  out = None -> ws = [].
Proof.
  intros H ->. unfold process_match in H.
  sinv H as r v1 Hr. destruct r as [rel m'].
  slinv H as g Hg. slinv H as ord Hord. slinv H as sg Hsg. destruct sg as [shown g'].
  apply sret_Ok in H as [[= _ <-] _]. done.
Qed.

Lemma process_matches_spec fuel A G out pretty simplify ms v xs ws v' :
  process_matches dumps tree fuel A G out pretty simplify ms v = Ok (xs, ws, v') ->
  length xs = length ms /\ (out = None -> ws = []).
Proof.
  revert v xs ws v'. induction ms as [|m ms IH]; intros v xs ws v' H; simpl in H.
  - apply sret_Ok in H as [[= -> ->] _]. done.
  - sinv H as r v1 Hr. destruct r as [x w].
    sinv H as rs v2 Hrs. destruct rs as [xs' ws'].
    apply sret_Ok in H as [[= -> ->] _].
    destruct (IH _ _ _ _ Hrs) as [Hlen Hws]. split; [simpl; by rewrite Hlen|].
    intros Hout. rewrite (Hws Hout).
    by rewrite (process_match_written _ _ _ _ _ _ _ _ _ _ _ _ Hr Hout).
Qed.

Lemma process_sentence_spec fuel grobid_endpoint out pretty simplify w sent :
  let r := process_sentence service dumps tree fuel grobid_endpoint out pretty simplify
             w sent in
  (out = None -> Forall (fun ev => file_event ev = false) r.1) /\
  (forall xs w', r.2 = Ok (xs, w') ->
     total_sentences w' = total_sentences w + 1 /\
     total_measurements w' = total_measurements w + Z.of_nat (length xs)).
Proof.
  unfold process_sentence.
  match goal with |- context [match ?p with Ok _ => _ | Raise _ => _ | OutOfFuel => _ end] =>
    destruct p as [[[[s_str A] G]|]|e|] eqn:Hprep end; cbv zeta.
  - destruct (Grobid.grobid_quantities service s_str A grobid_endpoint) as [response|e|];
      simpl; [|by split; [repeat constructor|]..].
    destruct (if is_dict response then py_in (PStr "measurements") response else Ok false)
      as [[|]|e|]; simpl; [|by split; [repeat constructor|intros ?? [= <- <-]; simpl; lia]
                           |by split; [repeat constructor|]..].
    match goal with |- context [match ?p with Ok _ => _ | Raise _ => _ | OutOfFuel => _ end] =>
      destruct p as [[A' [[xs written] v]]|e|] eqn:Hrun end; simpl;
      [|by split; [repeat constructor|]..].
    rinv Hrun as ms Hms. rinv Hrun as qs Hqs. rinv Hrun as A1 HA1. rinv Hrun as r Hr.
    injection Hrun as -> ->.
    apply process_matches_spec in Hr as [Hlen Hws]. split.
    + intros Hout. rewrite (Hws Hout). repeat constructor.
    + intros xs' w' [= <- <-]. simpl. rewrite Hlen. lia.
  - exfalso. rinv Hprep as toks_py H1. rinv Hprep as toks_l H2. rinv Hprep as toks H3.
    rinv Hprep as collapsed H4. rinv Hprep as deps_py H5. rinv Hprep as deps_l H6.
    rinv Hprep as ds H7. rinv Hprep as parsed H8.
    destruct (check_output_cases (init toks ds)) as [Hc|Hc]; rewrite Hc in H8; [|done].
    injection H8 as <-. by rinv Hprep as G HG.
  - by split; [constructor|].
  - by split; [constructor|].
Qed.

Lemma process_sentences_spec fuel grobid_endpoint out pretty simplify w sents :
  let r := process_sentences service dumps tree fuel grobid_endpoint out pretty simplify
             w sents in
  (out = None -> Forall (fun ev => file_event ev = false) r.1) /\
  (forall xs w', r.2 = Ok (xs, w') ->
     total_sentences w' = total_sentences w + Z.of_nat (length sents) /\
     total_measurements w' = total_measurements w + Z.of_nat (length xs)).
Proof.
  revert w. induction sents as [|sent rest IH]; intros w; cbv zeta.
  - simpl. split; [constructor|]. intros xs w' [= <- <-]. simpl. lia.
  - cbn [process_sentences].
    pose proof (process_sentence_spec fuel grobid_endpoint out pretty simplify w sent)
      as [Hev Hcount]. cbv zeta in Hev, Hcount.
    destruct (process_sentence _ _ _ _ _ _ _ _ w sent) as [t [[xs w1]|e|]]; simpl in *;
      [|by split..].
    destruct (Hcount _ _ eq_refl) as [Hs Hm].
    specialize (IH w1) as [IHev IHcount]. cbv zeta in IHev, IHcount.
    destruct (process_sentences _ _ _ _ _ _ _ _ w1 rest) as [t' [[ys w2]|e|]]; simpl in *.
    + split; [intros Hout; apply Forall_app; auto|].
      intros xs' w' [= <- <-]. destruct (IHcount _ _ eq_refl) as [Hs' Hm'].
      rewrite length_app. lia.
    + split; [intros Hout; apply Forall_app; auto|done].
    + split; [intros Hout; apply Forall_app; auto|done].
Qed.


(** X30.  When [extract] returns a list for a document whose annotation
    is a dictionary with a list of sentences, the counter of sentences
    has grown by the number of sentences of the document (line 492) and
    the counter of measurements by the length of the returned list (line
    500): every measurement counted is returned. *)
Theorem extract_counts (fuel : nat) (w w' : world)
  (content corenlp_endpoint grobid_endpoint : string) (output_file : option string)
  (pretty simplify : bool) (out : list (string * pyval)) (sents xs : list pyval) :
  annotate corenlp_endpoint content = PDict out ->
  dget "sentences" out = Some (PList sents) ->
  (extract annotate json_loads service dumps tree fuel w content corenlp_endpoint
     grobid_endpoint output_file pretty simplify).2 = Ok (Some xs, w') ->
  total_sentences w' = total_sentences w + Z.of_nat (length sents) /\
  total_measurements w' = total_measurements w + Z.of_nat (length xs).
Proof.
  intros Hann Hsents. unfold extract.
  destruct (String.length content <? 5)%nat; [done|].
  rewrite Hann. simpl. unfold dhas. rewrite Hsents. simpl.
  pose proof (process_sentences_spec fuel grobid_endpoint (truthy_file output_file)
                pretty simplify w sents) as [_ Hcount]. cbv zeta in Hcount.
  destruct (process_sentences _ _ _ _ _ _ _ _ w sents) as [t [[ys w1]|e|]]; simpl in *;
    [|done..].
  intros [= <- <-]. by apply Hcount.
Qed.

End ExtractRuns.


(** The sample sentence after three sentences and seven measurements. *)
Lemma extract_counts_witness :
  let w := {| visited_nodes := ∅; total_sentences := 3; total_measurements := 7 |} in
  let r := extract (fun _ _ => PDict [("sentences", PList [sentence_json
                                         Scenarios.Gestation.toks Scenarios.Gestation.dps])])
             (fun _ => Raise ValueError)
             (fun _ _ => Grobid.Json Scenarios.Gestation.response)
             (fun _ _ => "{...}")
             (Scenarios.Gestation.plain_rules [PStr "space_between"]) 10 w
             Scenarios.Gestation.text "http://localhost:9000"
             "http://localhost:8080" None false false in
  exists xs w', r.2 = Ok (Some xs, w') /\
                total_sentences w' = 4 /\ total_measurements w' = 8.
Proof.
  intros w r.
  assert (E : exists xs w', r.2 = Ok (Some xs, w') /\ length xs = 1%nat)
    by (eexists _, _; split; vm_compute; reflexivity).
  destruct E as (xs & w' & E & Hlen). exists xs, w'. split; [exact E|].
  destruct (extract_counts _ _ _ _ _ _ _ _ _ _ _ _ _ _
              [("sentences", PList [sentence_json Scenarios.Gestation.toks
                                      Scenarios.Gestation.dps])]
              _ _ eq_refl eq_refl E) as [Hs Hm].
  rewrite Hlen in Hm. subst w. simpl in Hs, Hm. split; lia.
Defined.
